(** * ecosyste-ms/critical: the build pipeline of the critical-packages database

    A shallow embedding of [lib/index.js]: the registry client
    ([fetchJson], [fetchVersionNumbers], [ecosystemToRegistry]), the
    paginator ([fetchAllCriticalPackages]), the schema of [createDatabase]
    with its full-text projection and triggers, the upsert functions
    ([insertPackage], [insertRepoMetadata], [insertAdvisories],
    [insertVersions], [updateBuildInfo]) and [build]; and of the option
    parsing of [bin.js] ([getArg] and the output path).

    Conventions.
    - JavaScript strings are modelled as byte strings (well-formed text in
      UTF-8); [toLowerCase] and the tokenizer act on the ASCII letters.
    - A JSON field is [option]: [None] is JSON [null].
    - Asynchronous code runs in the monad [M]: it returns an outcome
      (a value, a thrown error, or fuel exhaustion for the unbounded
      [while (true)] loop) together with the events it performed, in order.
    - The SQL engine is modelled by the tables of the schema with the
      constraints the DDL declares (primary keys, unique indexes, NOT NULL,
      AUTOINCREMENT, column defaults, foreign keys), the REPLACE conflict
      policy, the three triggers and the external-content full-text index.
      The driver opens every connection with foreign keys enforced and
      [createDatabase] does not turn them off: a statement that would leave
      a child row without its package throws and changes nothing.
    - The full-text index is modelled on ASCII text and for queries of one
      bare word; [toLowerCase] likewise folds the ASCII letters.  The
      properties that depend on either say so in their hypotheses. *)

From Stdlib Require Import Ascii String QArith_base.
From stdpp Require Import gmap gmultiset strings list fin_maps pretty sorting.

Set Default Proof Using "Type".
Open Scope string_scope.
Open Scope list_scope.
Open Scope Z_scope.

(** ** JavaScript string primitives *)

Module Js.

Definition is_upper (c : ascii) : bool :=
  let n := nat_of_ascii c in Nat.leb 65 n && Nat.leb n 90.

Definition is_lower (c : ascii) : bool :=
  let n := nat_of_ascii c in Nat.leb 97 n && Nat.leb n 122.

Definition is_digit (c : ascii) : bool :=
  let n := nat_of_ascii c in Nat.leb 48 n && Nat.leb n 57.

Definition ascii_to_lower (c : ascii) : ascii :=
  if is_upper c then ascii_of_nat (nat_of_ascii c + 32) else c.

(** [String.prototype.toLowerCase]. *)
Fixpoint toLowerCase (s : string) : string :=
  match s with
  | EmptyString => EmptyString
  | String c s' => String (ascii_to_lower c) (toLowerCase s')
  end.

(** [Array.prototype.join]. *)
Fixpoint join (sep : string) (l : list string) : string :=
  match l with
  | [] => EmptyString
  | [x] => x
  | x :: l' => x +:+ sep +:+ join sep l'
  end.

(** Template-literal interpolation of a number. *)
Definition of_nat (n : nat) : string := pretty n.
Definition of_Z (n : Z) : string := pretty n.

(** Interpolation of a nullable string: [String(null)] is ["null"]. *)
Definition of_nullable (o : option string) : string := default "null" o.

Definition hex_digit (n : nat) : ascii :=
  if Nat.ltb n 10 then ascii_of_nat (48 + n) else ascii_of_nat (55 + n).

(** Characters [encodeURIComponent] leaves alone:
    [A-Z a-z 0-9 - _ . ! ~ * ' ( )]. *)
Definition uri_unreserved (c : ascii) : bool :=
  is_upper c || is_lower c || is_digit c ||
  bool_decide (c ∈ ["-"; "_"; "."; "!"; "~"; "*"; "'"; "("; ")"]%char).

Fixpoint encodeURIComponent (s : string) : string :=
  match s with
  | EmptyString => EmptyString
  | String c s' =>
      if uri_unreserved c then String c (encodeURIComponent s')
      else
        let n := nat_of_ascii c in
        String "%" (String (hex_digit (n / 16)) (String (hex_digit (n mod 16))
          (encodeURIComponent s')))
  end.

(** [JSON.stringify] of a string: quotes, with the escapes of the JSON
    grammar for the quote, the backslash and the control characters. *)
Definition json_escape_char (c : ascii) : string :=
  let n := nat_of_ascii c in
  if bool_decide (n = 34)%nat then String "\" (String c EmptyString)
  else if bool_decide (n = 92)%nat then "\\"
  else if bool_decide (n = 8)%nat then "\b"
  else if bool_decide (n = 9)%nat then "\t"
  else if bool_decide (n = 10)%nat then "\n"
  else if bool_decide (n = 12)%nat then "\f"
  else if bool_decide (n = 13)%nat then "\r"
  else if Nat.ltb n 32 then
    "\u00" +:+ String (ascii_to_lower (hex_digit (n / 16)))
                 (String (ascii_to_lower (hex_digit (n mod 16))) EmptyString)
  else String c EmptyString.

Fixpoint json_escape (s : string) : string :=
  match s with
  | EmptyString => EmptyString
  | String c s' => json_escape_char c +:+ json_escape s'
  end.

Definition json_string (s : string) : string :=
  String (ascii_of_nat 34) (json_escape s +:+ String (ascii_of_nat 34) EmptyString).

(** [JSON.stringify] of a nullable array of strings. *)
Definition JSON_stringify (v : option (list string)) : string :=
  match v with
  | None => "null"
  | Some l => "[" +:+ join "," (json_string <$> l) +:+ "]"
  end.

End Js.

(** ** Data model: the records the upstream API sends *)

Record repo_metadata_json := {
  rm_owner : option string;
  rm_name : option string;
  rm_full_name : option string;
  rm_language : option string;
  rm_stargazers_count : option Z;
  rm_forks_count : option Z;
  rm_open_issues_count : option Z;
  rm_archived : option bool;
  rm_fork : option bool
}.

Record host_json := { host_name : option string }.

Record advisory := {
  adv_uuid : option string;
  adv_url : option string;
  adv_title : option string;
  adv_description : option string;
  adv_severity : option string;
  adv_published_at : option string;
  adv_cvss_score : option Q
}.

Record package := {
  pkg_id : Z;
  pkg_ecosystem : option string;
  pkg_name : option string;
  pkg_purl : option string;
  pkg_namespace : option string;
  pkg_description : option string;
  pkg_homepage : option string;
  pkg_repository_url : option string;
  pkg_licenses : option string;
  (** [None] when the record has no such key ([undefined]), [Some None]
      when the key holds [null]. *)
  pkg_normalized_licenses : option (option (list string));
  pkg_latest_release_number : option string;
  pkg_versions_count : option Z;
  pkg_downloads : option Z;
  pkg_downloads_period : option string;
  pkg_dependent_packages_count : option Z;
  pkg_dependent_repos_count : option Z;
  pkg_first_release_published_at : option string;
  pkg_latest_release_published_at : option string;
  pkg_last_synced_at : option string;
  (** [None] when [keywords_array] is not an array. *)
  pkg_keywords_array : option (list string);
  pkg_repo_metadata : option repo_metadata_json;
  pkg_host : option host_json;
  (** Entries of the array may themselves be [null]. *)
  pkg_advisories : option (list (option advisory))
}.

(** ** Effects: errors, events, and the monad of asynchronous code *)

Inductive error :=
| HttpError (status : nat) (url : string)  (* new Error(`HTTP ${status}: ${url}`) *)
| FetchFailed (url : string)               (* fetch() rejected: network failure *)
| JsonSyntaxError (url : string)           (* response.json() rejected *)
| TypeError (msg : string)
| SqliteConstraint (msg : string).

Inductive event :=
| EvProgress (msg : string)   (* onProgress(msg) *)
| EvFetch (url : string)      (* fetch(url, {headers}) *)
| EvSleep (ms : nat).         (* await sleep(ms) *)

Inductive outcome (A : Type) :=
| Returned (a : A)
| Thrown (e : error)
| OutOfFuel.
Arguments Returned {A} a.
Arguments Thrown {A} e.
Arguments OutOfFuel {A}.

Definition M (A : Type) : Type := list event * outcome A.

#[global] Instance M_ret : MRet M := λ A a, ([], Returned a).

#[global] Instance M_bind : MBind M := λ A B f m,
  match m with
  | (t, Returned a) => let '(t', r) := f a in (t ++ t', r)
  | (t, Thrown e) => (t, Thrown e)
  | (t, OutOfFuel) => (t, OutOfFuel)
  end.

Definition throw {A} (e : error) : M A := ([], Thrown e).
Definition emit (e : event) : M unit := ([e], Returned tt).
Definition out_of_fuel {A} : M A := ([], OutOfFuel).

(** [try { m } catch (err) { h err }]. *)
Definition try_catch {A} (m : M A) (h : error → M A) : M A :=
  match m with
  | (t, Thrown e) => let '(t', r) := h e in (t ++ t', r)
  | _ => m
  end.

(** Synchronous code: a value or a thrown error. *)
Inductive result (A : Type) :=
| Ok (a : A)
| Err (e : error).
Arguments Ok {A} a.
Arguments Err {A} e.

#[global] Instance result_ret : MRet result := λ A a, Ok a.
#[global] Instance result_bind : MBind result := λ A B f r,
  match r with
  | Ok a => f a
  | Err e => Err e
  end.

(** Synchronous code that throws rejects the enclosing async function. *)
Definition lift {A} (r : result A) : M A :=
  match r with
  | Ok a => mret a
  | Err e => throw e
  end.

Definition trace_of {A} (m : M A) : list event := m.1.
Definition outcome_of {A} (m : M A) : outcome A := m.2.

Definition is_progress (e : event) : bool :=
  match e with EvProgress _ => true | _ => false end.

(** The URLs requested, in order. *)
Definition requests (t : list event) : list string :=
  omap (λ e, match e with EvFetch u => Some u | _ => None end) t.

(** The network traffic of a trace: requests and delays, without the
    progress messages. *)
Definition traffic (t : list event) : list event :=
  List.filter (λ e, negb (is_progress e)) t.

(** ** The remote API *)

(** What [fetch(url)] does: it rejects, or resolves to a response with a
    status and a body that decodes as JSON of the endpoint's type or does
    not decode. *)
Inductive response (A : Type) :=
| NetworkFailure
| Response (status : nat) (body : option A).
Arguments NetworkFailure {A}.
Arguments Response {A} status body.

(** The bodies of the version-numbers endpoint that the model covers:
    [null], or an array whose entries are strings or [null].  Bodies of
    another shape (a number, a string, an object, an array with entries of
    another type) are outside the model. *)
Inductive versions_json :=
| JsonNull
| JsonArray (entries : list (option string)).

(** The array of the strings [l]. *)
Definition json_strings (l : list string) : versions_json := JsonArray (Some <$> l).

(** The two endpoints of section 6 of the specification, by URL. *)
Record world := {
  critical_endpoint : string → response (list package);
  versions_endpoint : string → response versions_json
}.

(** ** Registry client *)

Definition API_BASE : string := "https://packages.ecosyste.ms/api/v1".
Definition PER_PAGE : nat := 1000.
Definition RATE_LIMIT_MS : nat := 50.
Definition CONCURRENCY : nat := 10.

Definition sleep (ms : nat) : M unit := emit (EvSleep ms).

(** [response.ok]: the status is in the range 200-299. *)
Definition response_ok (status : nat) : bool :=
  Nat.leb 200 status && Nat.leb status 299.

Definition fetchJson {A} (endpoint : string → response A) (url : string) : M A :=
  emit (EvFetch url) ;;
  match endpoint url with
  | NetworkFailure => throw (FetchFailed url)
  | Response status body =>
      if negb (response_ok status) then throw (HttpError status url)
      else match body with
           | Some v => mret v
           | None => throw (JsonSyntaxError url)
           end
  end.

(** [onProgress?.(msg)]: the sink is optional. *)
Definition progress (onProgress : bool) (msg : string) : M unit :=
  if onProgress then emit (EvProgress msg) else mret tt.

Definition page_url (page : nat) : string :=
  API_BASE +:+ "/packages/critical?per_page=" +:+ Js.of_nat PER_PAGE
           +:+ "&page=" +:+ Js.of_nat page.

(** The [while (true)] loop of [fetchAllCriticalPackages], with [fuel]
    bounding the number of iterations. *)
Fixpoint fetchAllCriticalPackages_loop (fuel : nat) (w : world) (onProgress : bool)
    (packages : list package) (page : nat) : M (list package) :=
  match fuel with
  | O => out_of_fuel
  | S fuel' =>
      let url := page_url page in
      progress onProgress ("Fetching page " +:+ Js.of_nat page +:+ "...") ;;
      batch ← fetchJson (critical_endpoint w) url ;
      if Nat.eqb (length batch) 0 then mret packages
      else
        sleep RATE_LIMIT_MS ;;
        fetchAllCriticalPackages_loop fuel' w onProgress (packages ++ batch) (S page)
  end.

Definition fetchAllCriticalPackages (fuel : nat) (w : world) (onProgress : bool)
    : M (list package) :=
  fetchAllCriticalPackages_loop fuel w onProgress [] 1%nat.

(** The value of a property read [map[key]] on an object literal: an own
    property, a member inherited from [Object.prototype], or [undefined]. *)
Inductive js_value :=
| VString (s : string)
| VInherited (prop : string)
| VUndefined
| VNull.

(** The members every object literal inherits from [Object.prototype]. *)
Definition object_prototype_members : list string :=
  [ "constructor"; "__proto__"; "hasOwnProperty"; "isPrototypeOf";
    "propertyIsEnumerable"; "toLocaleString"; "toString"; "valueOf";
    "__defineGetter__"; "__defineSetter__"; "__lookupGetter__";
    "__lookupSetter__" ].

(** The own properties of the literal [map] in [ecosystemToRegistry]. *)
Definition registry_map : gmap string string :=
  list_to_map
    [ ("npm", "npmjs.org");
      ("pypi", "pypi.org");
      ("rubygems", "rubygems.org");
      ("go", "proxy.golang.org");
      ("cargo", "crates.io");
      ("maven", "repo1.maven.org");
      ("nuget", "nuget.org");
      ("packagist", "packagist.org");
      ("hex", "hex.pm");
      ("pub", "pub.dev");
      ("hackage", "hackage.haskell.org");
      ("cocoapods", "cocoapods.org");
      ("conda", "anaconda.org");
      ("clojars", "clojars.org");
      ("puppet", "forge.puppet.com");
      ("homebrew", "formulae.brew.sh") ].

(** [obj[key]] on an object literal with own properties [own]. *)
Definition js_get (own : gmap string string) (key : string) : js_value :=
  match own !! key with
  | Some v => VString v
  | None =>
      if bool_decide (key ∈ object_prototype_members) then VInherited key
      else VUndefined
  end.

Definition truthy (v : js_value) : bool :=
  match v with
  | VString s => negb (bool_decide (s = EmptyString))
  | VInherited _ => true
  | VUndefined | VNull => false
  end.

(** [a || b]. *)
Definition js_or (a b : js_value) : js_value := if truthy a then a else b.

(** [ecosystem.toLowerCase()] throws a TypeError on [null]. *)
Definition ecosystemToRegistry (ecosystem : option string) : result js_value :=
  match ecosystem with
  | None => Err (TypeError "Cannot read properties of null (reading 'toLowerCase')")
  | Some e => Ok (js_or (js_get registry_map (Js.toLowerCase e)) VNull)
  end.

(** Template-literal interpolation [${registry}]. *)
Definition js_value_to_string (v : js_value) : string :=
  match v with
  | VString s => s
  | VInherited p =>
      if bool_decide (p = "__proto__") then "[object Object]"
      else "function " +:+ (if bool_decide (p = "constructor") then "Object" else p)
                       +:+ "() { [native code] }"
  | VUndefined => "undefined"
  | VNull => "null"
  end.

Definition versions_url (registry : js_value) (name : option string) : string :=
  API_BASE +:+ "/registries/" +:+ js_value_to_string registry +:+ "/packages/"
           +:+ Js.encodeURIComponent (Js.of_nullable name) +:+ "/version_numbers".

Definition fetchVersionNumbers (w : world) (ecosystem : option string)
    (name : option string) : M versions_json :=
  registry ← lift (ecosystemToRegistry ecosystem) ;
  if negb (truthy registry) then mret (JsonArray [])
  else
    let url := versions_url registry name in
    try_catch (fetchJson (versions_endpoint w) url) (λ err, mret (JsonArray [])).

(** ** The store: schema of [createDatabase] *)

(** The twenty values bound to the [?] placeholders of the statement of
    [insertPackage], in column order. *)
Record package_values := {
  val_id : Z;
  val_ecosystem : option string;
  val_name : option string;
  val_purl : option string;
  val_namespace : option string;
  val_description : option string;
  val_homepage : option string;
  val_repository_url : option string;
  val_licenses : option string;
  val_normalized_licenses : option string;
  val_latest_version : option string;
  val_versions_count : option Z;
  val_downloads : option Z;
  val_downloads_period : option string;
  val_dependent_packages_count : option Z;
  val_dependent_repos_count : option Z;
  val_first_release_at : option string;
  val_latest_release_at : option string;
  val_last_synced_at : option string;
  val_keywords : option string
}.

(** A row of [packages]: the twenty columns above and [created_at], which
    no statement of the pipeline names and which takes its default. *)
Record package_row := {
  row_values : package_values;
  col_created_at : option string
}.

(** A row of [advisories]: the surrogate key, the package and the seven
    columns taken from the advisory. *)
Record advisory_row := {
  arow_id : Z;
  arow_package_id : Z;
  arow_data : advisory
}.

Record repo_metadata_row := {
  rr_owner : option string;
  rr_repo_name : option string;
  rr_full_name : option string;
  rr_host : option string;
  rr_language : option string;
  rr_stargazers_count : option Z;
  rr_forks_count : option Z;
  rr_open_issues_count : option Z;
  rr_archived : Z;
  rr_fork : Z
}.

Record build_info_row := {
  bi_built_at : string;
  bi_package_count : Z;
  bi_version_count : Z;
  bi_advisory_count : Z
}.

(** What the full-text index holds for a row: its rowid and the four
    indexed columns (ecosystem, name, description, keywords). *)
Definition fts_doc : Type :=
  Z * option string * option string * option string * option string.

Record database := {
  journal_mode : string;
  (** [PRAGMA recursive_triggers]; [createDatabase] leaves the default. *)
  recursive_triggers : bool;
  (** [packages], by [id INTEGER PRIMARY KEY]. *)
  packages : gmap Z package_row;
  (** [versions]: the rows are their composite primary key. *)
  versions : gset (Z * string);
  (** [advisories], in rowid order. *)
  advisories : list advisory_row;
  (** The AUTOINCREMENT counter of [advisories]. *)
  advisories_seq : Z;
  (** [repo_metadata], by [package_id INTEGER PRIMARY KEY]. *)
  repo_metadata : gmap Z repo_metadata_row;
  (** The index of [packages_fts] (an external-content table: it stores
      the postings, the column values are read back from [packages]). *)
  packages_fts : gmultiset fts_doc;
  (** [build_info], by [id]. *)
  build_info : gmap Z build_info_row
}.

Definition set_packages (t : gmap Z package_row) (db : database) : database :=
  {| journal_mode := journal_mode db; recursive_triggers := recursive_triggers db;
     packages := t; versions := versions db; advisories := advisories db;
     advisories_seq := advisories_seq db; repo_metadata := repo_metadata db;
     packages_fts := packages_fts db; build_info := build_info db |}.

Definition set_versions (t : gset (Z * string)) (db : database) : database :=
  {| journal_mode := journal_mode db; recursive_triggers := recursive_triggers db;
     packages := packages db; versions := t; advisories := advisories db;
     advisories_seq := advisories_seq db; repo_metadata := repo_metadata db;
     packages_fts := packages_fts db; build_info := build_info db |}.

Definition set_advisories (t : list advisory_row) (seq : Z) (db : database) : database :=
  {| journal_mode := journal_mode db; recursive_triggers := recursive_triggers db;
     packages := packages db; versions := versions db; advisories := t;
     advisories_seq := seq; repo_metadata := repo_metadata db;
     packages_fts := packages_fts db; build_info := build_info db |}.

Definition set_repo_metadata (t : gmap Z repo_metadata_row) (db : database) : database :=
  {| journal_mode := journal_mode db; recursive_triggers := recursive_triggers db;
     packages := packages db; versions := versions db; advisories := advisories db;
     advisories_seq := advisories_seq db; repo_metadata := t;
     packages_fts := packages_fts db; build_info := build_info db |}.

Definition set_packages_fts (t : gmultiset fts_doc) (db : database) : database :=
  {| journal_mode := journal_mode db; recursive_triggers := recursive_triggers db;
     packages := packages db; versions := versions db; advisories := advisories db;
     advisories_seq := advisories_seq db; repo_metadata := repo_metadata db;
     packages_fts := t; build_info := build_info db |}.

Definition set_build_info (t : gmap Z build_info_row) (db : database) : database :=
  {| journal_mode := journal_mode db; recursive_triggers := recursive_triggers db;
     packages := packages db; versions := versions db; advisories := advisories db;
     advisories_seq := advisories_seq db; repo_metadata := repo_metadata db;
     packages_fts := packages_fts db; build_info := t |}.

(** The engine's default for [PRAGMA recursive_triggers] is off, and
    [createDatabase] sets no pragma but [journal_mode].  The engine's
    documentation of the REPLACE conflict policy: when it deletes rows in
    order to satisfy a constraint, delete triggers fire if and only if
    recursive triggers are enabled. *)
Definition default_recursive_triggers : bool := false.

(** [createDatabase(dbPath)] on a path that holds no database ([build]
    unlinks it first): the pragma, then the empty schema. *)
Definition createDatabase : database :=
  {| journal_mode := "wal";
     recursive_triggers := default_recursive_triggers;
     packages := ∅; versions := ∅; advisories := []; advisories_seq := 0;
     repo_metadata := ∅; packages_fts := ∅; build_info := ∅ |}.

(** *** The full-text projection and its triggers *)

Definition col_id (r : package_row) : Z := val_id (row_values r).
Definition col_ecosystem (r : package_row) : option string := val_ecosystem (row_values r).
Definition col_name (r : package_row) : option string := val_name (row_values r).
Definition col_description (r : package_row) : option string := val_description (row_values r).
Definition col_keywords (r : package_row) : option string := val_keywords (row_values r).

Definition fts_doc_of (r : package_row) : fts_doc :=
  (col_id r, col_ecosystem r, col_name r, col_description r, col_keywords r).

(** [INSERT INTO packages_fts(rowid, ...) VALUES (...)]. *)
Definition fts_insert (d : fts_doc) (db : database) : database :=
  set_packages_fts (packages_fts db ⊎ {[+ d +]}) db.

(** [INSERT INTO packages_fts(packages_fts, rowid, ...) VALUES ('delete', ...)]. *)
Definition fts_delete (d : fts_doc) (db : database) : database :=
  set_packages_fts (packages_fts db ∖ {[+ d +]}) db.

(** TRIGGER packages_ai AFTER INSERT ON packages. *)
Definition packages_ai (new : package_row) (db : database) : database :=
  fts_insert (fts_doc_of new) db.

(** TRIGGER packages_ad AFTER DELETE ON packages. *)
Definition packages_ad (old : package_row) (db : database) : database :=
  fts_delete (fts_doc_of old) db.

(** TRIGGER packages_au AFTER UPDATE ON packages. *)
Definition packages_au (old new : package_row) (db : database) : database :=
  fts_insert (fts_doc_of new) (fts_delete (fts_doc_of old) db).

(** The tokenizer of the index on ASCII text: tokens are the maximal runs
    of letters and digits (bytes above 127 count as letters), folded to
    lower case. *)
Definition is_token_char (c : ascii) : bool :=
  Js.is_upper c || Js.is_lower c || Js.is_digit c || Nat.leb 128 (nat_of_ascii c).

Definition flush (cur : string) : list string :=
  match cur with
  | EmptyString => []
  | _ => [cur]
  end.

Fixpoint tokenize_go (cur : string) (s : string) : list string :=
  match s with
  | EmptyString => flush cur
  | String c s' =>
      if is_token_char c
      then tokenize_go (cur +:+ String (Js.ascii_to_lower c) EmptyString) s'
      else flush cur ++ tokenize_go EmptyString s'
  end.

Definition tokenize (s : string) : list string := tokenize_go EmptyString s.

Definition column_tokens (c : option string) : list string :=
  match c with
  | Some s => tokenize s
  | None => []
  end.

Definition doc_rowid (d : fts_doc) : Z := d.1.1.1.1.

Definition doc_tokens (d : fts_doc) : list string :=
  let '(_, ecosystem, name, description, keywords) := d in
  column_tokens ecosystem ++ column_tokens name ++
  column_tokens description ++ column_tokens keywords.

(** The rowids the index gives for a one-word query. *)
Definition fts_match (term : string) (idx : gmultiset fts_doc) : list Z :=
  doc_rowid <$> filter (λ d, Js.toLowerCase term ∈ doc_tokens d) (elements idx).

(** [SELECT p.* FROM packages p JOIN packages_fts fts ON p.id = fts.rowid
     WHERE packages_fts MATCH term], the search of the test suite. *)
Definition fts_search (term : string) (db : database) : list package_row :=
  (map_to_list (filter (λ kr, col_id kr.2 ∈ fts_match term (packages_fts db))
                       (packages db))).*2.

(** The index is consistent with the table when it holds exactly one
    document per row, that of the row's current columns. *)
Definition fts_index_of (t : gmap Z package_row) : gmultiset fts_doc :=
  list_to_set_disj (fts_doc_of <$> (map_to_list t).*2).

Definition fts_consistent (db : database) : Prop :=
  packages_fts db = fts_index_of (packages db).

(** ** The statements the pipeline and its tests run *)

(** Two rows collide under the REPLACE policy of [packages] when they
    share the primary key or the key of the unique index
    [idx_packages_ecosystem_name]. *)
Definition unique_key (v : package_values) : option string * option string :=
  (val_ecosystem v, val_name v).

Definition collides (v : package_values) (r : package_row) : Prop :=
  col_id r = val_id v ∨ unique_key (row_values r) = unique_key v.

#[global] Instance collides_dec v r : Decision (collides v r).
Proof. unfold collides. apply _. Defined.

(** [FOREIGN KEY (package_id) REFERENCES packages(id)], declared by
    [versions], [advisories] and [repo_metadata]: a row of one of them
    references the package [id]. *)
Definition referenced (id : Z) (db : database) : Prop :=
  Exists (λ v : Z * string, v.1 = id) (elements (versions db)) ∨
  Exists (λ r, arow_package_id r = id) (advisories db) ∨
  is_Some (repo_metadata db !! id).

#[global] Instance referenced_dec id db : Decision (referenced id db).
Proof. unfold referenced. apply _. Defined.

(** A write into a child table needs its package. *)
Definition foreign_key (package_id : Z) (db : database) : result unit :=
  if bool_decide (is_Some (packages db !! package_id)) then Ok tt
  else Err (SqliteConstraint "FOREIGN KEY constraint failed").

(** Writing the values [v] under the REPLACE policy would delete a row
    with another id that a child row references: the new row does not
    take its place as their parent. *)
Definition orphans (v : package_values) (db : database) : Prop :=
  Exists (λ kr : Z * package_row, kr.1 ≠ val_id v ∧ referenced kr.1 db)
         (map_to_list (filter (λ kr, collides v kr.2) (packages db))).

#[global] Instance orphans_dec v db : Decision (orphans v db).
Proof. unfold orphans. apply _. Defined.

(** The NOT NULL constraints of [packages]. *)
Definition packages_not_null (v : package_values) : result unit :=
  if bool_decide (val_ecosystem v = None)
  then Err (SqliteConstraint "NOT NULL constraint failed: packages.ecosystem")
  else if bool_decide (val_name v = None)
  then Err (SqliteConstraint "NOT NULL constraint failed: packages.name")
  else Ok tt.

(** [INSERT OR REPLACE INTO packages (id, ..., keywords) VALUES (?, ..., ?)]
    at time [now]: the colliding rows are deleted (their delete trigger
    fires only under [recursive_triggers]), the new row is written with the
    default [created_at], and the insert trigger fires.  The foreign keys
    are checked when the statement ends: the children of a deleted row
    with the id of the new row have their package again, those of a
    deleted row with another id do not, and the statement fails. *)
Definition sql_insert_or_replace_packages (now : string) (v : package_values)
    (db : database) : result database :=
  packages_not_null v ;;
  let new := {| row_values := v; col_created_at := Some now |} in
  let victims := (map_to_list (filter (λ kr, collides v kr.2) (packages db))).*2 in
  let db1 := set_packages (filter (λ kr, ¬ collides v kr.2) (packages db)) db in
  let db2 := if recursive_triggers db then foldr packages_ad db1 victims else db1 in
  let db3 := set_packages (<[val_id v := new]> (packages db2)) db2 in
  if bool_decide (orphans v db)
  then Err (SqliteConstraint "FOREIGN KEY constraint failed")
  else Ok (packages_ai new db3).

(** [INSERT INTO packages (id, ..., keywords) VALUES (?, ..., ?)], as the
    test suite writes rows: a collision aborts the statement. *)
Definition sql_insert_packages (now : string) (v : package_values)
    (db : database) : result database :=
  packages_not_null v ;;
  if bool_decide (filter (λ kr, collides v kr.2) (packages db) = ∅) then
    let new := {| row_values := v; col_created_at := Some now |} in
    Ok (packages_ai new (set_packages (<[val_id v := new]> (packages db)) db))
  else Err (SqliteConstraint "UNIQUE constraint failed: packages").

(** The store [DELETE FROM packages WHERE id = ?] leaves.  The statement
    fails, and leaves the store as it is, when a child row references the
    package. *)
Definition sql_delete_packages (id : Z) (db : database) : database :=
  match packages db !! id with
  | None => db
  | Some old =>
      if bool_decide (referenced id db) then db
      else packages_ad old (set_packages (delete id (packages db)) db)
  end.

(** [UPDATE packages SET description = ?, keywords = ? WHERE id = ?]. *)
Definition with_description_keywords (description keywords : option string)
    (r : package_row) : package_row :=
  let v := row_values r in
  {| row_values :=
       {| val_id := val_id v; val_ecosystem := val_ecosystem v;
          val_name := val_name v; val_purl := val_purl v;
          val_namespace := val_namespace v; val_description := description;
          val_homepage := val_homepage v;
          val_repository_url := val_repository_url v;
          val_licenses := val_licenses v;
          val_normalized_licenses := val_normalized_licenses v;
          val_latest_version := val_latest_version v;
          val_versions_count := val_versions_count v;
          val_downloads := val_downloads v;
          val_downloads_period := val_downloads_period v;
          val_dependent_packages_count := val_dependent_packages_count v;
          val_dependent_repos_count := val_dependent_repos_count v;
          val_first_release_at := val_first_release_at v;
          val_latest_release_at := val_latest_release_at v;
          val_last_synced_at := val_last_synced_at v;
          val_keywords := keywords |};
     col_created_at := col_created_at r |}.

Definition sql_update_packages (id : Z) (description keywords : option string)
    (db : database) : database :=
  match packages db !! id with
  | None => db
  | Some old =>
      let new := with_description_keywords description keywords old in
      packages_au old new (set_packages (<[id := new]> (packages db)) db)
  end.

(** [SELECT * FROM packages WHERE ecosystem = ? AND name = ?]. *)
Definition select_packages_by_ecosystem_name (ecosystem name : string)
    (db : database) : list package_row :=
  (map_to_list (filter (λ kr, col_ecosystem kr.2 = Some ecosystem ∧
                              col_name kr.2 = Some name)
                       (packages db))).*2.


(** [SELECT * FROM advisories WHERE package_id = ?]. *)
Definition select_advisories_by_package (package_id : Z) (db : database)
    : list advisory_row :=
  filter (λ r, arow_package_id r = package_id) (advisories db).

(** The largest rowid of [advisories], 0 when the table is empty. *)
Definition max_rowid (rows : list advisory_row) : Z :=
  foldr (λ r m, Z.max (arow_id r) m) 0 rows.

(** The key of the unique index [idx_advisories_package_uuid]. *)
Definition advisory_collides (package_id : Z) (uuid : option string)
    (r : advisory_row) : Prop :=
  arow_package_id r = package_id ∧ adv_uuid (arow_data r) = uuid.

#[global] Instance advisory_collides_dec p u r : Decision (advisory_collides p u r).
Proof. unfold advisory_collides. apply _. Defined.

(** [INSERT OR REPLACE INTO advisories (package_id, uuid, ..., cvss_score)
    VALUES (?, ..., ?)]: [uuid] is NOT NULL, the package must exist, a row
    with the same (package_id, uuid) is replaced, and the AUTOINCREMENT key
    is one more than every key the table holds or has handed out. *)
Definition sql_insert_or_replace_advisories (package_id : Z) (a : advisory)
    (db : database) : result database :=
  if bool_decide (adv_uuid a = None)
  then Err (SqliteConstraint "NOT NULL constraint failed: advisories.uuid")
  else
    foreign_key package_id db ;;
    let kept := filter (λ r, ¬ advisory_collides package_id (adv_uuid a) r)
                       (advisories db) in
    let id := 1 + Z.max (advisories_seq db) (max_rowid (advisories db)) in
    let new := {| arow_id := id; arow_package_id := package_id; arow_data := a |} in
    Ok (set_advisories (kept ++ [new]) id db).

(** [INSERT OR REPLACE INTO versions (package_id, number) VALUES (?, ?)]:
    [number] is NOT NULL and the package must exist. *)
Definition sql_insert_or_replace_versions (package_id : Z) (number : option string)
    (db : database) : result database :=
  match number with
  | None => Err (SqliteConstraint "NOT NULL constraint failed: versions.number")
  | Some n =>
      foreign_key package_id db ;;
      Ok (set_versions ({[ (package_id, n) ]} ∪ versions db) db)
  end.

(** [INSERT OR REPLACE INTO repo_metadata (...) VALUES (?, ..., ?)]: the
    package must exist. *)
Definition sql_insert_or_replace_repo_metadata (package_id : Z)
    (r : repo_metadata_row) (db : database) : result database :=
  foreign_key package_id db ;;
  Ok (set_repo_metadata (<[package_id := r]> (repo_metadata db)) db).

(** [INSERT OR REPLACE INTO build_info (id, ...) VALUES (?, ...)], under
    [CHECK (id = 1)]. *)
Definition sql_insert_or_replace_build_info (id : Z) (r : build_info_row)
    (db : database) : result database :=
  if bool_decide (id = 1)
  then Ok (set_build_info (<[id := r]> (build_info db)) db)
  else Err (SqliteConstraint "CHECK constraint failed: id = 1").

(** [SELECT COUNT( * ) as count FROM t]. *)
Definition count_packages (db : database) : Z := Z.of_nat (size (packages db)).
Definition count_versions (db : database) : Z := Z.of_nat (size (versions db)).
Definition count_advisories (db : database) : Z := Z.of_nat (length (advisories db)).

(** ** Upsert engine *)

(** The arguments of [stmt.run(...)] in [insertPackage].
    [JSON.stringify(undefined)] is [undefined], which is bound as NULL. *)
Definition package_values_of (pkg : package) : package_values :=
  let keywords :=
    match pkg_keywords_array pkg with
    | Some ks => Some (Js.join " " ks)
    | None => None
    end in
  {| val_id := pkg_id pkg;
     val_ecosystem := pkg_ecosystem pkg;
     val_name := pkg_name pkg;
     val_purl := pkg_purl pkg;
     val_namespace := pkg_namespace pkg;
     val_description := pkg_description pkg;
     val_homepage := pkg_homepage pkg;
     val_repository_url := pkg_repository_url pkg;
     val_licenses := pkg_licenses pkg;
     val_normalized_licenses := Js.JSON_stringify <$> pkg_normalized_licenses pkg;
     val_latest_version := pkg_latest_release_number pkg;
     val_versions_count := pkg_versions_count pkg;
     val_downloads := pkg_downloads pkg;
     val_downloads_period := pkg_downloads_period pkg;
     val_dependent_packages_count := pkg_dependent_packages_count pkg;
     val_dependent_repos_count := pkg_dependent_repos_count pkg;
     val_first_release_at := pkg_first_release_published_at pkg;
     val_latest_release_at := pkg_latest_release_published_at pkg;
     val_last_synced_at := pkg_last_synced_at pkg;
     val_keywords := keywords |}.

(** [insertPackage(db, pkg)], run when the engine's clock reads [now];
    it returns [pkg.id]. *)
Definition insertPackage (now : string) (db : database) (pkg : package)
    : result (database * Z) :=
  db' ← sql_insert_or_replace_packages now (package_values_of pkg) db ;
  mret (db', pkg_id pkg).

(** [x ? 1 : 0] on a nullable boolean. *)
Definition flag (b : option bool) : Z :=
  match b with
  | Some true => 1
  | _ => 0
  end.

Definition insertRepoMetadata (db : database) (packageId : Z)
    (repoMetadata : option repo_metadata_json) (host : option host_json)
    : result database :=
  match repoMetadata with
  | None => Ok db
  | Some rm =>
      sql_insert_or_replace_repo_metadata packageId
        {| rr_owner := rm_owner rm;
           rr_repo_name := rm_name rm;
           rr_full_name := rm_full_name rm;
           rr_host := h ← host ; host_name h;
           rr_language := rm_language rm;
           rr_stargazers_count := rm_stargazers_count rm;
           rr_forks_count := rm_forks_count rm;
           rr_open_issues_count := rm_open_issues_count rm;
           rr_archived := flag (rm_archived rm);
           rr_fork := flag (rm_fork rm) |} db
  end.

(** [!advisory || !advisory.uuid]: the entry is [null], or its uuid is
    [null] or the empty string. *)
Definition uuid_bearing (a : option advisory) : bool :=
  match a with
  | Some a' =>
      match adv_uuid a' with
      | Some u => negb (bool_decide (u = EmptyString))
      | None => false
      end
  | None => false
  end.

(** The [for (const advisory of advisories)] loop of [insertAdvisories]. *)
Fixpoint insertAdvisories_loop (db : database) (packageId : Z)
    (advisories : list (option advisory)) : result database :=
  match advisories with
  | [] => Ok db
  | a :: rest =>
      match a with
      | Some a' =>
          if uuid_bearing a then
            db' ← sql_insert_or_replace_advisories packageId a' db ;
            insertAdvisories_loop db' packageId rest
          else insertAdvisories_loop db packageId rest
      | None => insertAdvisories_loop db packageId rest
      end
  end.

Definition insertAdvisories (db : database) (packageId : Z)
    (advisories : option (list (option advisory))) : result database :=
  match advisories with
  | None => Ok db
  | Some l =>
      if Nat.eqb (length l) 0 then Ok db
      else insertAdvisories_loop db packageId l
  end.

(** The [for (const number of versionNumbers)] loop of [insertVersions]. *)
Fixpoint insertVersions_loop (db : database) (packageId : Z)
    (versionNumbers : list (option string)) : result database :=
  match versionNumbers with
  | [] => Ok db
  | number :: rest =>
      db' ← sql_insert_or_replace_versions packageId number db ;
      insertVersions_loop db' packageId rest
  end.

Definition insertVersions (db : database) (packageId : Z)
    (versionNumbers : versions_json) : result database :=
  match versionNumbers with
  | JsonNull => Ok db
  | JsonArray l =>
      if Nat.eqb (length l) 0 then Ok db
      else insertVersions_loop db packageId l
  end.

(** [updateBuildInfo(db)] when [new Date().toISOString()] is [now]. *)
Definition updateBuildInfo (now : string) (db : database) : result database :=
  let packageCount := count_packages db in
  let versionCount := count_versions db in
  let advisoryCount := count_advisories db in
  sql_insert_or_replace_build_info 1
    {| bi_built_at := now; bi_package_count := packageCount;
       bi_version_count := versionCount; bi_advisory_count := advisoryCount |} db.

(** [db.transaction(fn)(...)]: BEGIN, [fn], COMMIT; when [fn] throws, the
    transaction is rolled back and the error is thrown again. *)
Definition transaction (fn : database → result database) (db : database)
    : database * option error :=
  match fn db with
  | Ok db' => (db', None)
  | Err e => (db, Some e)
  end.

(** ** The build *)

(** The clocks [build] reads: [CURRENT_TIMESTAMP] while the i-th package
    of the catalog is inserted, and the date of [updateBuildInfo]. *)
Record clock := {
  current_timestamp : nat → string;
  date_iso : string
}.

Record build_options := {
  fetchVersionsData : bool
}.

(** The body of the [insertAll] transaction; [i] counts the packages
    already written. *)
Fixpoint insertAll (c : clock) (i : nat) (pkgs : list package) (db : database)
    : result database :=
  match pkgs with
  | [] => Ok db
  | pkg :: rest =>
      '(db1, _) ← insertPackage (current_timestamp c i) db pkg ;
      db2 ← insertRepoMetadata db1 (pkg_id pkg) (pkg_repo_metadata pkg)
                               (pkg_host pkg) ;
      db3 ← insertAdvisories db2 (pkg_id pkg) (pkg_advisories pkg) ;
      insertAll c (S i) rest db3
  end.

Definition processPackage (w : world) (pkg : package) : M (package * versions_json) :=
  versions ← fetchVersionNumbers w (pkg_ecosystem pkg) (pkg_name pkg) ;
  sleep RATE_LIMIT_MS ;;
  mret (pkg, versions).

(** The body of the per-batch transaction; [versions.length] throws when
    [versions] is [null]. *)
Fixpoint insertBatchVersions (results : list (package * versions_json))
    (db : database) : result database :=
  match results with
  | [] => Ok db
  | (pkg, versions) :: rest =>
      db' ← match versions with
            | JsonNull =>
                Err (TypeError "Cannot read properties of null (reading 'length')")
            | JsonArray l =>
                if Nat.ltb 0 (length l)
                then insertVersions db (pkg_id pkg) versions
                else Ok db
            end ;
      insertBatchVersions rest db'
  end.

(** The slices [packages.slice(i, i + n)] for [i = 0, n, 2n, ...] below
    [packages.length]. *)
Fixpoint slices_go {A} (fuel n : nat) (l : list A) : list (list A) :=
  match fuel with
  | O => []
  | S fuel' =>
      match l with
      | [] => []
      | _ => take n l :: slices_go fuel' n (drop n l)
      end
  end.

Definition slices {A} (n : nat) (l : list A) : list (list A) :=
  slices_go (length l) n l.

(** Run a transaction inside async code: a failure rejects. *)
Definition run_transaction (fn : database → result database) (db : database)
    : M database :=
  match transaction fn db with
  | (db', None) => mret db'
  | (_, Some e) => throw e
  end.

(** The [for (let i = 0; ...; i += CONCURRENCY)] loop over the batches.
    The lookups of one batch run concurrently; they are listed here in
    the order of the batch, which is the order of [results]. *)
Fixpoint fetchVersions_loop (w : world) (total completed : nat)
    (batches : list (list package)) (db : database) : M database :=
  match batches with
  | [] => mret db
  | batch :: rest =>
      results ← mapM (processPackage w) batch ;
      db' ← run_transaction (insertBatchVersions results) db ;
      let completed' := (completed + length batch)%nat in
      progress true ("Fetched versions for " +:+ Js.of_nat completed' +:+ "/"
                     +:+ Js.of_nat total +:+ " packages") ;;
      fetchVersions_loop w total completed' rest db'
  end.

(** [build(options)] with the default progress sink; the model returns
    the summary row together with the database the build leaves on disk. *)
Definition build (fuel : nat) (w : world) (c : clock) (options : build_options)
    : M (build_info_row * database) :=
  progress true "Creating database..." ;;
  let db := createDatabase in
  progress true "Fetching critical packages..." ;;
  packages ← fetchAllCriticalPackages fuel w true ;
  progress true ("Found " +:+ Js.of_nat (length packages) +:+ " critical packages") ;;
  progress true "Inserting packages..." ;;
  db1 ← run_transaction (insertAll c 0 packages) db ;
  db2 ← (if fetchVersionsData options then
           progress true "Fetching versions..." ;;
           fetchVersions_loop w (length packages) 0
                              (slices CONCURRENCY packages) db1
         else mret db1) ;
  db3 ← lift (updateBuildInfo (date_iso c) db2) ;
  match build_info db3 !! 1 with
  | None => throw (TypeError "Cannot read properties of undefined (reading 'package_count')")
  | Some info =>
      progress true ("Build complete: " +:+ Js.of_Z (bi_package_count info)
                     +:+ " packages, " +:+ Js.of_Z (bi_version_count info)
                     +:+ " versions, " +:+ Js.of_Z (bi_advisory_count info)
                     +:+ " advisories") ;;
      mret (info, db3)
  end.

(** ** Vocabulary of the properties *)

(** The endpoint answers the request for [page] with [batch]. *)
Definition serves (w : world) (page : nat) (batch : list package) : Prop :=
  ∃ status, response_ok status = true ∧
            critical_endpoint w (page_url page) = Response status (Some batch).

(** What a request for [page] comes to. *)
Definition page_outcome (w : world) (page : nat) : outcome (list package) :=
  outcome_of (fetchJson (critical_endpoint w) (page_url page)).

(** What a request for version numbers comes to. *)
Definition versions_outcome (w : world) (url : string) : outcome versions_json :=
  outcome_of (fetchJson (versions_endpoint w) url).

Definition progress_events (onProgress : bool) (page : nat) : list event :=
  if onProgress
  then [EvProgress ("Fetching page " +:+ Js.of_nat page +:+ "...")]
  else [].

(** The rate-limiting sentence of the specification, word for word: in
    the traffic of a run, every request is directly followed by the fixed
    delay. *)
Definition delay_after_every_fetch (t : list event) : Prop :=
  ∀ i url, traffic t !! i = Some (EvFetch url) →
           traffic t !! S i = Some (EvSleep RATE_LIMIT_MS).

(** The traffic of [k] rounds that each fetched a non-empty page, starting
    at page [p]: request, delay, request, delay, ... *)
Definition paced_rounds (p k : nat) : list event :=
  flat_map (λ q, [EvFetch (page_url q); EvSleep RATE_LIMIT_MS]) (seq p k).

(** The last request of a run: none when the fuel ran out between two
    rounds, otherwise the one that ended the loop. *)
Definition closing_request {A} (r : outcome A) (page : nat) : list event :=
  match r with
  | OutOfFuel => []
  | _ => [EvFetch (page_url page)]
  end.

(** The row [insertPackage] writes for [pkg] at time [now]. *)
Definition row_of (now : string) (pkg : package) : package_row :=
  {| row_values := package_values_of pkg; col_created_at := Some now |}.

(** The table [insertPackage] leaves. *)
Definition packages_after (now : string) (pkg : package) (t : gmap Z package_row)
    : gmap Z package_row :=
  <[pkg_id pkg := row_of now pkg]>
    (filter (λ kr, ¬ collides (package_values_of pkg) kr.2) t).

(** The database a successful write leaves. *)
Definition written (r : result (database * Z)) : database :=
  match r with
  | Ok (db, _) => db
  | Err _ => createDatabase
  end.

(** The database a successful statement leaves. *)
Definition stored (r : result database) : database :=
  match r with
  | Ok db => db
  | Err _ => createDatabase
  end.

(** A record without keywords, as the specification words it: the keyword
    collection is missing or empty. *)
Definition no_keywords (pkg : package) : Prop :=
  pkg_keywords_array pkg = None ∨ pkg_keywords_array pkg = Some [].

(** The advisories of the input that carry a UUID, in order. *)
Definition uuid_bearing_entries (l : list (option advisory)) : list advisory :=
  omap (λ a, if uuid_bearing a then a else None) l.

(** The advisories persisted for a package, in rowid order. *)
Definition persisted (package_id : Z) (db : database) : list advisory :=
  arow_data <$> select_advisories_by_package package_id db.

(** Writing one advisory into the list of those persisted for its
    package: it takes the place of the one with its uuid, at the end. *)
Definition replace_by_uuid (ds : list advisory) (a : advisory) : list advisory :=
  filter (λ d, adv_uuid d ≠ adv_uuid a) ds ++ [a].

(** No row that the record would replace under another id has child
    rows: the rows a write of [pkg] replaces are those with its id or with
    its (ecosystem, name). *)
Definition replaceable (pkg : package) (db : database) : Prop :=
  ∀ k r, packages db !! k = Some r → k ≠ pkg_id pkg →
         col_id r = pkg_id pkg ∨
         (col_ecosystem r, col_name r) = (pkg_ecosystem pkg, pkg_name pkg) →
         ¬ referenced k db.

(** Every row of [packages] sits at its own [id]: the primary key is the
    rowid. *)
Definition packages_keyed (db : database) : Prop :=
  ∀ k r, packages db !! k = Some r → col_id r = k.



(** ** Sample inputs *)

Definition bare_package (id : Z) (ecosystem name : string)
    (description : option string) (keywords : option (list string)) : package :=
  {| pkg_id := id; pkg_ecosystem := Some ecosystem; pkg_name := Some name;
     pkg_purl := None; pkg_namespace := None; pkg_description := description;
     pkg_homepage := None; pkg_repository_url := None; pkg_licenses := None;
     pkg_normalized_licenses := Some (Some []); pkg_latest_release_number := None;
     pkg_versions_count := None; pkg_downloads := None;
     pkg_downloads_period := None; pkg_dependent_packages_count := None;
     pkg_dependent_repos_count := None; pkg_first_release_published_at := None;
     pkg_latest_release_published_at := None; pkg_last_synced_at := None;
     pkg_keywords_array := keywords; pkg_repo_metadata := None;
     pkg_host := None; pkg_advisories := None |}.

(** The record of the integration test of the repository. *)
Definition test_pkg : package :=
  {| pkg_id := 999; pkg_ecosystem := Some "npm"; pkg_name := Some "test-pkg";
     pkg_purl := Some "pkg:npm/test-pkg"; pkg_namespace := None;
     pkg_description := Some "Test package"; pkg_homepage := None;
     pkg_repository_url := Some "https://github.com/test/test-pkg";
     pkg_licenses := Some "MIT";
     pkg_normalized_licenses := Some (Some ["MIT"]);
     pkg_latest_release_number := Some "1.0.0"; pkg_versions_count := Some 1;
     pkg_downloads := Some 100; pkg_downloads_period := Some "last-month";
     pkg_dependent_packages_count := Some 0;
     pkg_dependent_repos_count := Some 0;
     pkg_first_release_published_at := Some "2024-01-01T00:00:00.000Z";
     pkg_latest_release_published_at := Some "2024-01-01T00:00:00.000Z";
     pkg_last_synced_at := Some "2024-01-01T00:00:00.000Z";
     pkg_keywords_array := Some ["test"; "fixture"];
     pkg_repo_metadata := None; pkg_host := None; pkg_advisories := None |}.

(** The catalog of the example scenario of the specification. *)
Definition lodash : package :=
  {| pkg_id := 1; pkg_ecosystem := Some "npm"; pkg_name := Some "lodash";
     pkg_purl := None; pkg_namespace := None; pkg_description := None;
     pkg_homepage := None; pkg_repository_url := None; pkg_licenses := None;
     pkg_normalized_licenses := None; pkg_latest_release_number := None;
     pkg_versions_count := None; pkg_downloads := None;
     pkg_downloads_period := None; pkg_dependent_packages_count := None;
     pkg_dependent_repos_count := None; pkg_first_release_published_at := None;
     pkg_latest_release_published_at := None; pkg_last_synced_at := None;
     pkg_keywords_array := None; pkg_repo_metadata := None;
     pkg_host := None; pkg_advisories := None |}.

(** [[lodash]] on page 1, and two versions of lodash. *)
Definition lodash_world : world :=
  {| critical_endpoint := λ url,
       if bool_decide (url = page_url 1) then Response 200 (Some [lodash])
       else Response 200 (Some []);
     versions_endpoint := λ url,
       if bool_decide (url = versions_url (VString "npmjs.org") (Some "lodash"))
       then Response 200 (Some (json_strings ["4.17.21"; "4.17.20"]))
       else Response 404 None |}.

(** [[lodash]] on page 1, and the body [null] for its versions. *)
Definition null_world : world :=
  {| critical_endpoint := λ url,
       if bool_decide (url = page_url 1) then Response 200 (Some [lodash])
       else Response 200 (Some []);
     versions_endpoint := λ _, Response 200 (Some JsonNull) |}.

Definition fixed_clock : clock :=
  {| current_timestamp := λ _, "2024-01-01 00:00:00";
     date_iso := "2024-01-01T00:00:00.000Z" |}.

(** A full page: [PER_PAGE] records, numbered from [k * PER_PAGE]. *)
Definition full_page (k : nat) : list package :=
  (λ i, bare_package (Z.of_nat (k * PER_PAGE + i)) "npm"
                     ("pkg-" +:+ Js.of_nat (k * PER_PAGE + i)) None None)
    <$> seq 0 PER_PAGE.

Definition three_pages : list (list package) :=
  [full_page 0; full_page 1; full_page 2].

(** A source of three full pages followed by empty ones. *)
Definition three_page_source : world :=
  {| critical_endpoint := λ url,
       if bool_decide (url = page_url 1) then Response 200 (Some (full_page 0))
       else if bool_decide (url = page_url 2) then Response 200 (Some (full_page 1))
       else if bool_decide (url = page_url 3) then Response 200 (Some (full_page 2))
       else Response 200 (Some []);
     versions_endpoint := λ _, Response 200 (Some (JsonArray [])) |}.

(** A source whose first page is already empty. *)
Definition empty_source : world :=
  {| critical_endpoint := λ _, Response 200 (Some []);
     versions_endpoint := λ _, Response 200 (Some (JsonArray [])) |}.

(** A source that is down. *)
Definition failing_source : world :=
  {| critical_endpoint := λ _, Response 503 None;
     versions_endpoint := λ _, NetworkFailure |}.

(** A source that serves [[lodash]] and then answers 503. *)
Definition flaky_source : world :=
  {| critical_endpoint := λ url,
       if bool_decide (url = page_url 1) then Response 200 (Some [lodash])
       else Response 503 None;
     versions_endpoint := λ _, NetworkFailure |}.

Definition ghsa (uuid : string) (severity : string) : advisory :=
  {| adv_uuid := Some uuid; adv_url := None; adv_title := None;
     adv_description := None; adv_severity := Some severity;
     adv_published_at := None; adv_cvss_score := None |}.

Definition advisory_without_uuid : advisory :=
  {| adv_uuid := None; adv_url := None; adv_title := Some "untracked";
     adv_description := None; adv_severity := None;
     adv_published_at := None; adv_cvss_score := None |}.

(** ** The command line: [getArg] and the output path of [bin.js] *)

(** [args.indexOf(flag)]: the index of the first argument that is [flag];
    [None] stands for -1. *)
Fixpoint indexOf (args : list string) (flag : string) : option nat :=
  match args with
  | [] => None
  | a :: rest =>
      if bool_decide (a = flag) then Some 0%nat
      else S <$> indexOf rest flag
  end.

(** [getArg(flags)] over the arguments [args]; [args[idx + 1]] is
    [undefined] past the end, and [undefined] and the empty string are
    falsy. *)
Fixpoint getArg (args : list string) (flags : list string) : option string :=
  match flags with
  | [] => None
  | flag :: rest =>
      match indexOf args flag with
      | Some idx =>
          match args !! S idx with
          | Some v => if bool_decide (v = EmptyString) then getArg args rest else Some v
          | None => getArg args rest
          end
      | None => getArg args rest
      end
  end.

(** [getArg(['--output', '-o']) || 'critical-packages.db']. *)
Definition dbPath (args : list string) : string :=
  match getArg args ["--output"; "-o"] with
  | Some v => if bool_decide (v = EmptyString) then "critical-packages.db" else v
  | None => "critical-packages.db"
  end.

(** ** Further vocabulary *)

(** The characters of a string. *)
Fixpoint chars (s : string) : list ascii :=
  match s with
  | EmptyString => []
  | String c s' => c :: chars s'
  end.

(** A string of ASCII characters: on these [Js.toLowerCase] and the
    tokenizer of the model are those of the platform and of the engine. *)
Definition ascii_text (s : string) : Prop :=
  Forall (λ c, (nat_of_ascii c < 128)%nat) (chars s).

(** A query of one bare word: a non-empty string of ASCII letters and
    digits that is no operator of the query language. *)
Definition bare_word (s : string) : Prop :=
  s ≠ EmptyString ∧
  Forall (λ c, Js.is_upper c || Js.is_lower c || Js.is_digit c = true) (chars s) ∧
  s ∉ ["AND"; "OR"; "NOT"; "NEAR"].

(** The columns of a record that the index holds are ASCII text. *)
Definition ascii_record (p : package) : Prop :=
  Forall (from_option ascii_text True)
         [pkg_ecosystem p; pkg_name p; pkg_description p;
          Js.join " " <$> pkg_keywords_array p].

(** The value of a hexadecimal digit. *)
Definition hex_value (c : ascii) : nat :=
  let n := nat_of_ascii c in
  if Js.is_digit c then n - 48 else n - 55.

(** The character two hexadecimal digits stand for. *)
Definition unescape (hi lo : ascii) : ascii :=
  ascii_of_nat (16 * hex_value hi + hex_value lo).

Definition is_hex_upper (c : ascii) : bool :=
  Js.is_digit c || bool_decide (c ∈ ["A"; "B"; "C"; "D"; "E"; "F"]%char).

(** What a finished version lookup returns for the answer to its request. *)
Definition versions_of_response (r : response versions_json) : versions_json :=
  match r with
  | Response status (Some body) => if response_ok status then body else JsonArray []
  | _ => JsonArray []
  end.

(** The progress messages of a trace. *)
Definition progress_messages (t : list event) : list string :=
  omap (λ e, match e with EvProgress m => Some m | _ => None end) t.

(** The delays of a trace. *)
Definition delays (t : list event) : list nat :=
  omap (λ e, match e with EvSleep ms => Some ms | _ => None end) t.

(** What the lookup of a package comes back with. *)
Definition looked_up (w : world) (pkg : package) : versions_json :=
  match outcome_of (fetchVersionNumbers w (pkg_ecosystem pkg) (pkg_name pkg)) with
  | Returned versions => versions
  | _ => JsonArray []
  end.

(** The strings among the entries of an array; none for [null]. *)
Definition version_strings (v : versions_json) : list string :=
  match v with
  | JsonNull => []
  | JsonArray l => omap id l
  end.

(** An array all of whose entries are strings. *)
Definition array_of_strings (v : versions_json) : Prop :=
  ∃ l, v = json_strings l.

(** The errors of the store: a constraint error of the engine, or a
    [TypeError] of the code around it. *)
Definition storage_error (e : error) : Prop :=
  (∃ msg, e = SqliteConstraint msg) ∨ (∃ msg, e = TypeError msg).

(** The version rows of a package and its version numbers. *)
Definition version_rows (w : world) (pkg : package) : list (Z * string) :=
  (λ n, (pkg_id pkg, n)) <$> version_strings (looked_up w pkg).

(** [a] is the last advisory of [l] with its uuid. *)
Definition last_with_uuid (l : list advisory) (a : advisory) : Prop :=
  ∃ l1 l2, l = l1 ++ a :: l2 ∧ adv_uuid a ∉ adv_uuid <$> l2.

(** The key of a row in the unique index of [advisories]. *)
Definition advisory_key (r : advisory_row) : Z * option string :=
  (arow_package_id r, adv_uuid (arow_data r)).

(** The constraints of [advisories]: the rowids grow along the table and
    stay within the AUTOINCREMENT counter, (package_id, uuid) is unique,
    and no uuid is [null]. *)
Definition advisories_wf (db : database) : Prop :=
  StronglySorted (λ r1 r2, arow_id r1 < arow_id r2) (advisories db) ∧
  Forall (λ r, 0 < arow_id r ≤ advisories_seq db) (advisories db) ∧
  NoDup (advisory_key <$> advisories db) ∧
  Forall (λ r, is_Some (adv_uuid (arow_data r))) (advisories db).

(** The constraints of [packages]: each row sits at its id, (ecosystem,
    name) is unique, and neither is [null]. *)
Definition packages_wf (db : database) : Prop :=
  packages_keyed db ∧
  (∀ k1 k2 r1 r2, packages db !! k1 = Some r1 → packages db !! k2 = Some r2 →
     unique_key (row_values r1) = unique_key (row_values r2) → k1 = k2) ∧
  (∀ k r, packages db !! k = Some r →
     is_Some (col_ecosystem r) ∧ is_Some (col_name r)).

(** Referential integrity: every child row has its package. *)
Definition references_ok (db : database) : Prop :=
  ∀ id, referenced id db → is_Some (packages db !! id).

(** Two records collide when they share the id or (ecosystem, name). *)
Definition pkg_collides (p q : package) : Prop :=
  pkg_id p = pkg_id q ∨
  (pkg_ecosystem p, pkg_name p) = (pkg_ecosystem q, pkg_name q).

(** A catalog lists no id and no (ecosystem, name) twice. *)
Definition catalog_distinct (pkgs : list package) : Prop :=
  NoDup (pkg_id <$> pkgs) ∧
  NoDup ((λ p, (pkg_ecosystem p, pkg_name p)) <$> pkgs).

(** A record the [packages] table accepts: it has an ecosystem and a name. *)
Definition complete_record (p : package) : Prop :=
  is_Some (pkg_ecosystem p) ∧ is_Some (pkg_name p).

(** ** Further sample inputs *)

(** A source that serves [[lodash]] on every page. *)
Definition endless_source : world :=
  {| critical_endpoint := λ _, Response 200 (Some [lodash]);
     versions_endpoint := λ _, Response 200 (Some (JsonArray [])) |}.

(** A record without a name, and a source that lists it after lodash. *)
Definition nameless : package :=
  {| pkg_id := 2; pkg_ecosystem := Some "npm"; pkg_name := None;
     pkg_purl := None; pkg_namespace := None; pkg_description := None;
     pkg_homepage := None; pkg_repository_url := None; pkg_licenses := None;
     pkg_normalized_licenses := None; pkg_latest_release_number := None;
     pkg_versions_count := None; pkg_downloads := None;
     pkg_downloads_period := None; pkg_dependent_packages_count := None;
     pkg_dependent_repos_count := None; pkg_first_release_published_at := None;
     pkg_latest_release_published_at := None; pkg_last_synced_at := None;
     pkg_keywords_array := None; pkg_repo_metadata := None;
     pkg_host := None; pkg_advisories := None |}.

Definition nameless_source : world :=
  {| critical_endpoint := λ url,
       if bool_decide (url = page_url 1) then Response 200 (Some [lodash; nameless])
       else Response 200 (Some []);
     versions_endpoint := λ _, Response 200 (Some (JsonArray [])) |}.

(** * Properties *)

(** ** The monad *)

Lemma bind_Returned {A B} (m : M A) (f : A → M B) t b :
  m ≫= f = (t, Returned b) →
  ∃ t1 a t2, m = (t1, Returned a) ∧ f a = (t2, Returned b) ∧ t = t1 ++ t2.
Proof.
  destruct m as [t1 [a|e|]]; cbn; try discriminate.
  destruct (f a) as [t2 r] eqn:E. intros [= <- ->]. by exists t1, a, t2.
Qed.

Lemma requests_app t1 t2 : requests (t1 ++ t2) = requests t1 ++ requests t2.
Proof. unfold requests. apply omap_app. Qed.

Lemma traffic_app t1 t2 : traffic (t1 ++ t2) = traffic t1 ++ traffic t2.
Proof. unfold traffic. apply List.filter_app. Qed.

Lemma requests_progress_events sink p : requests (progress_events sink p) = [].
Proof. by destruct sink. Qed.

Lemma traffic_progress_events sink p : traffic (progress_events sink p) = [].
Proof. by destruct sink. Qed.

(** ** Paginator *)

Section Pagination.

Context (w : world) (onProgress : bool).

Lemma page_outcome_serves p b : serves w p b → page_outcome w p = Returned b.
Proof.
  intros (st & Hok & Hw). unfold page_outcome, fetchJson, outcome_of.
  rewrite Hw, Hok. reflexivity.
Qed.

Lemma page_outcome_no_fuel p : page_outcome w p ≠ OutOfFuel.
Proof.
  unfold page_outcome, outcome_of, fetchJson.
  destruct (critical_endpoint w (page_url p)) as [|st [b|]]; cbn;
    try destruct (response_ok st); cbn; discriminate.
Qed.

(** One turn of the loop. *)
Lemma loop_step fuel acc p :
  fetchAllCriticalPackages_loop (S fuel) w onProgress acc p =
  match page_outcome w p with
  | Returned [] => (progress_events onProgress p ++ [EvFetch (page_url p)], Returned acc)
  | Returned b =>
      let '(t, r) := fetchAllCriticalPackages_loop fuel w onProgress (acc ++ b) (S p) in
      (progress_events onProgress p
         ++ [EvFetch (page_url p); EvSleep RATE_LIMIT_MS] ++ t, r)
  | Thrown e => (progress_events onProgress p ++ [EvFetch (page_url p)], Thrown e)
  | OutOfFuel => (progress_events onProgress p ++ [EvFetch (page_url p)], OutOfFuel)
  end.
Proof.
  unfold page_outcome, outcome_of. cbn [fetchAllCriticalPackages_loop].
  unfold fetchJson, progress.
  destruct (critical_endpoint w (page_url p)) as [|st [b|]]; destruct onProgress; cbn;
    try destruct (response_ok st); cbn; try reflexivity;
    try (destruct b; cbn; try reflexivity;
         destruct (fetchAllCriticalPackages_loop fuel w _ _ _); reflexivity).
Qed.

(** The loop started at page [p] with [acc] collected, over a source that
    serves the non-empty [pages] and then an empty page. *)
Lemma loop_collects pages : ∀ fuel acc p,
  Forall (λ b, b ≠ []) pages →
  (∀ i b, pages !! i = Some b → serves w (p + i) b) →
  serves w (p + length pages) [] →
  (length pages < fuel)%nat →
  outcome_of (fetchAllCriticalPackages_loop fuel w onProgress acc p)
    = Returned (acc ++ concat pages) ∧
  requests (trace_of (fetchAllCriticalPackages_loop fuel w onProgress acc p))
    = page_url <$> seq p (S (length pages)).
Proof.
  induction pages as [|b pages IH]; intros fuel acc p Hne Hsrv Hend Hfuel.
  - destruct fuel as [|fuel]; [simpl in Hfuel; lia|].
    rewrite loop_step. simpl in Hend. rewrite Nat.add_0_r in Hend.
    rewrite (page_outcome_serves _ _ Hend). simpl.
    rewrite app_nil_r. split; [done|].
    unfold trace_of; simpl. by rewrite requests_app, requests_progress_events.
  - destruct fuel as [|fuel]; [simpl in Hfuel; lia|].
    rewrite loop_step.
    pose proof (Hsrv 0%nat b eq_refl) as H0. rewrite Nat.add_0_r in H0.
    rewrite (page_outcome_serves _ _ H0).
    apply Forall_cons in Hne as [Hb Hne].
    destruct b as [|x b]; [done|].
    destruct (IH fuel (acc ++ x :: b) (S p)) as [IH1 IH2]; auto.
    { intros i b' Hi. replace (S p + i)%nat with (p + S i)%nat by lia.
      by apply Hsrv. }
    { replace (S p + length pages)%nat with (p + length (b :: pages))%nat
        by (simpl; lia). done. }
    { simpl in Hfuel. lia. }
    destruct (fetchAllCriticalPackages_loop fuel w onProgress (acc ++ x :: b) (S p))
      as [t r] eqn:E.
    unfold outcome_of, trace_of in *. simpl in *. subst r. split.
    + f_equal. by rewrite <- app_assoc.
    + rewrite requests_app, requests_progress_events. simpl. by rewrite IH2.
Qed.

(** A failure of the page after [pages] leaves the loop as it is. *)
Lemma loop_propagates pages e : ∀ fuel acc p,
  Forall (λ b, b ≠ []) pages →
  (∀ i b, pages !! i = Some b → serves w (p + i) b) →
  page_outcome w (p + length pages) = Thrown e →
  (length pages < fuel)%nat →
  outcome_of (fetchAllCriticalPackages_loop fuel w onProgress acc p) = Thrown e.
Proof.
  induction pages as [|b pages IH]; intros fuel acc p Hne Hsrv Hend Hfuel.
  - destruct fuel as [|fuel]; [simpl in Hfuel; lia|].
    rewrite loop_step. simpl in Hend. rewrite Nat.add_0_r in Hend.
    by rewrite Hend.
  - destruct fuel as [|fuel]; [simpl in Hfuel; lia|].
    rewrite loop_step.
    pose proof (Hsrv 0%nat b eq_refl) as H0. rewrite Nat.add_0_r in H0.
    rewrite (page_outcome_serves _ _ H0).
    apply Forall_cons in Hne as [Hb Hne].
    destruct b as [|x b]; [done|].
    specialize (IH fuel (acc ++ x :: b) (S p) Hne).
    destruct (fetchAllCriticalPackages_loop fuel w onProgress (acc ++ x :: b) (S p))
      as [t r] eqn:E.
    unfold outcome_of in *. simpl in *. apply IH.
    + intros i b' Hi. replace (S (p + i))%nat with (p + S i)%nat by lia.
      by apply Hsrv.
    + by replace (S (p + length pages))%nat with (p + S (length pages))%nat by lia.
    + lia.
Qed.

(** The shape of the traffic of any run of the loop. *)
Lemma loop_traffic : ∀ fuel acc p,
  ∃ k,
    let run := fetchAllCriticalPackages_loop fuel w onProgress acc p in
    traffic (trace_of run)
      = paced_rounds p k ++ closing_request (outcome_of run) (p + k) ∧
    (∀ q, (p ≤ q < p + k)%nat → ∃ b, page_outcome w q = Returned b ∧ b ≠ []) ∧
    (∀ l, outcome_of run = Returned l → page_outcome w (p + k) = Returned []) ∧
    (∀ e, outcome_of run = Thrown e → page_outcome w (p + k) = Thrown e).
Proof.
  induction fuel as [|fuel IH]; intros acc p.
  - exists 0%nat. simpl. repeat split; try done. intros q Hq; lia.
  - rewrite loop_step. destruct (page_outcome w p) as [[|x b]| e |] eqn:Ep.
    + exists 0%nat. unfold trace_of, outcome_of; simpl.
      rewrite Nat.add_0_r, traffic_app, traffic_progress_events.
      repeat split; try done. intros q Hq; lia.
    + destruct (IH (acc ++ x :: b) (S p)) as (k & Ht & Hq & Hr & He).
      exists (S k).
      destruct (fetchAllCriticalPackages_loop fuel w onProgress (acc ++ x :: b) (S p))
        as [t r] eqn:E.
      unfold trace_of, outcome_of in *; simpl in *.
      replace (p + S k)%nat with (S (p + k)) by lia.
      rewrite traffic_app, traffic_progress_events. simpl. rewrite Ht.
      repeat split; try done.
      intros q Hq'. destruct (decide (q = p)) as [->|Hne].
      * exists (x :: b). done.
      * apply Hq. lia.
    + exists 0%nat. unfold trace_of, outcome_of; simpl.
      rewrite Nat.add_0_r, traffic_app, traffic_progress_events.
      repeat split; try done. { intros q Hq; lia. } congruence.
    + by apply page_outcome_no_fuel in Ep.
Qed.

End Pagination.

(** C1. [fetchAllCriticalPackages] asks for pages of [PER_PAGE] records,
    page 1 first and one page further each round; over a source that
    serves the non-empty [pages] and then an empty page it returns, given
    fuel for one round more than there are pages, the concatenation of
    [pages] in order, after exactly one request per page and one for the
    empty page that stops it (three pages: four requests). *)
Theorem fetchAllCriticalPackages_collects_pages w onProgress pages fuel :
  Forall (λ b, b ≠ []) pages →
  (∀ i b, pages !! i = Some b → serves w (S i) b) →
  serves w (S (length pages)) [] →
  (length pages < fuel)%nat →
  outcome_of (fetchAllCriticalPackages fuel w onProgress) = Returned (concat pages) ∧
  requests (trace_of (fetchAllCriticalPackages fuel w onProgress))
    = page_url <$> seq 1 (S (length pages)) ∧
  length (requests (trace_of (fetchAllCriticalPackages fuel w onProgress)))
    = S (length pages) ∧
  ∀ p, page_url p
       = "https://packages.ecosyste.ms/api/v1/packages/critical?per_page=1000&page="
           +:+ Js.of_nat p.
Proof.
  intros Hne Hsrv Hend Hfuel. unfold fetchAllCriticalPackages.
  destruct (loop_collects w onProgress pages fuel [] 1%nat) as [H1 H2]; auto.
  split; [done|]. split; [done|]. split; [|reflexivity].
  by rewrite H2, length_fmap, length_seq.
Qed.

(** Three full pages and then an empty one: the three pages, in order,
    after four requests. *)
Lemma three_full_pages_then_empty :
  outcome_of (fetchAllCriticalPackages 4 three_page_source true)
    = Returned (full_page 0 ++ full_page 1 ++ full_page 2 ++ []) ∧
  length (requests (trace_of (fetchAllCriticalPackages 4 three_page_source true)))
    = 4%nat.
Proof.
  destruct (fetchAllCriticalPackages_collects_pages
              three_page_source true three_pages 4) as (H1 & _ & H3 & _).
  - repeat constructor; intros H%(f_equal length); vm_compute in H; discriminate.
  - intros [|[|[|i]]] b Hb; simpl in Hb; try discriminate;
      injection Hb as <-; exists 200%nat; split; reflexivity.
  - exists 200%nat. split; reflexivity.
  - simpl. lia.
  - split; [exact H1 | exact H3].
Defined.

(** C7, as the code has it. In every run of [fetchAllCriticalPackages]
    the traffic is [k] rounds of a request directly followed by the fixed
    delay, one for each page that came back non-empty, and then the request
    that ended the loop (the empty page, or the failed fetch) with no
    delay after it. *)
Theorem fetchAllCriticalPackages_delay_between_requests fuel w onProgress :
  ∃ k,
    let run := fetchAllCriticalPackages fuel w onProgress in
    traffic (trace_of run)
      = paced_rounds 1 k ++ closing_request (outcome_of run) (S k) ∧
    (∀ q, (1 ≤ q ≤ k)%nat → ∃ b, page_outcome w q = Returned b ∧ b ≠ []) ∧
    (∀ l, outcome_of run = Returned l → page_outcome w (S k) = Returned []) ∧
    (∀ e, outcome_of run = Thrown e → page_outcome w (S k) = Thrown e).
Proof.
  destruct (loop_traffic w onProgress fuel [] 1%nat) as (k & Ht & Hq & Hr & He).
  exists k. simpl in *. repeat split; try done.
  intros q Hq'. apply Hq. lia.
Qed.

(** C7, as the specification states it, fails: neither the empty page
    that ends the pagination nor a failed fetch is followed by a delay. *)
Lemma no_delay_after_last_fetch :
  ¬ delay_after_every_fetch (trace_of (fetchAllCriticalPackages 3 empty_source true)) ∧
  ¬ delay_after_every_fetch (trace_of (fetchAllCriticalPackages 3 failing_source true)).
Proof.
  split; intros H.
  - specialize (H 0%nat (page_url 1) eq_refl). vm_compute in H. discriminate.
  - specialize (H 0%nat (page_url 1) eq_refl). vm_compute in H. discriminate.
Qed.

(** ** Registry client *)

Lemma fetchJson_trace {A} (endpoint : string → response A) url :
  trace_of (fetchJson endpoint url) = [EvFetch url].
Proof.
  unfold fetchJson, trace_of.
  destruct (endpoint url) as [|st [b|]]; cbn; try destruct (response_ok st); reflexivity.
Qed.

(** The [try]/[catch] of [fetchVersionNumbers] turns every failure of the
    request into the empty list. *)
Lemma lookup_swallows w url :
  ∃ versions,
    try_catch (fetchJson (versions_endpoint w) url) (λ err, mret (JsonArray []))
      = ([EvFetch url], Returned versions) ∧
    ∀ e, versions_outcome w url = Thrown e → versions = JsonArray [].
Proof.
  unfold versions_outcome, outcome_of, fetchJson.
  destruct (versions_endpoint w url) as [|st [b|]]; cbn;
    try destruct (response_ok st); cbn;
    eexists; (split; [reflexivity|]); intros e He; try reflexivity; discriminate.
Qed.

Lemma fetchVersionNumbers_unfold w ecosystem name :
  fetchVersionNumbers w (Some ecosystem) name =
  let registry := js_or (js_get registry_map (Js.toLowerCase ecosystem)) VNull in
  if truthy registry
  then try_catch (fetchJson (versions_endpoint w) (versions_url registry name))
                 (λ err, mret (JsonArray []))
  else ([], Returned (JsonArray [])).
Proof.
  unfold fetchVersionNumbers, ecosystemToRegistry, lift.
  generalize (js_or (js_get registry_map (Js.toLowerCase ecosystem)) VNull).
  intros registry. cbn. destruct (truthy registry); cbn; [|reflexivity].
  by destruct (try_catch _ _).
Qed.

(** A [null] ecosystem is no transport error: [toLowerCase] throws
    before any request. *)
Lemma fetchVersionNumbers_null_ecosystem w name :
  ∃ msg, fetchVersionNumbers w None name = ([], Thrown (TypeError msg)).
Proof. eexists. reflexivity. Qed.

(** C6. A failed page fetch is fatal: when the pages before it were
    served, [fetchAllCriticalPackages] throws the error of the failing
    request and returns nothing of what it had collected. A version lookup
    never throws: for every ecosystem string and name
    [fetchVersionNumbers] returns, and it returns the empty list when the
    request it makes fails (bad status, network failure, or a body that
    does not decode). *)
Theorem transport_error_fatal_in_pagination_swallowed_in_lookup :
  (∀ w onProgress pages e fuel,
     Forall (λ b, b ≠ []) pages →
     (∀ i b, pages !! i = Some b → serves w (S i) b) →
     page_outcome w (S (length pages)) = Thrown e →
     (length pages < fuel)%nat →
     outcome_of (fetchAllCriticalPackages fuel w onProgress) = Thrown e) ∧
  (∀ w (ecosystem : string) (name : option string),
     ∃ versions,
       outcome_of (fetchVersionNumbers w (Some ecosystem) name) = Returned versions ∧
       ∀ registry e,
         ecosystemToRegistry (Some ecosystem) = Ok registry →
         versions_outcome w (versions_url registry name) = Thrown e →
         versions = JsonArray []).
Proof.
  split.
  - intros w onProgress pages e fuel Hne Hsrv Hend Hfuel.
    by apply (loop_propagates w onProgress pages e fuel [] 1%nat).
  - intros w ecosystem name. rewrite fetchVersionNumbers_unfold.
    unfold ecosystemToRegistry.
    generalize (js_or (js_get registry_map (Js.toLowerCase ecosystem)) VNull).
    intros registry. cbv zeta. destruct (truthy registry).
    + destruct (lookup_swallows w (versions_url registry name)) as (vs & -> & Hvs).
      exists vs. split; [reflexivity|]. intros r e [= <-]. apply Hvs.
    + exists (JsonArray []). split; [reflexivity|]. done.
Qed.

(** A 503 on page 2 ends the pagination with that error; the version
    lookup for lodash on a network that is down returns no versions. *)
Lemma flaky_pagination_throws_lookup_returns :
  outcome_of (fetchAllCriticalPackages 5 flaky_source true)
    = Thrown (HttpError 503 (page_url 2)) ∧
  outcome_of (fetchVersionNumbers failing_source (Some "npm") (Some "lodash"))
    = Returned (JsonArray []).
Proof.
  destruct transport_error_fatal_in_pagination_swallowed_in_lookup as [Hfatal Hswallow].
  split.
  - apply (Hfatal flaky_source true [[lodash]]).
    + repeat constructor. discriminate.
    + intros [|i] b Hb; simpl in Hb; try discriminate.
      injection Hb as <-. exists 200%nat. split; reflexivity.
    + reflexivity.
    + simpl. lia.
  - destruct (Hswallow failing_source "npm" (Some "lodash")) as (vs & Hrun & Hvs).
    rewrite Hrun. f_equal.
    apply (Hvs (VString "npmjs.org")
               (FetchFailed (versions_url (VString "npmjs.org") (Some "lodash"))));
      reflexivity.
Defined.

Lemma ascii_to_lower_idempotent c :
  Js.ascii_to_lower (Js.ascii_to_lower c) = Js.ascii_to_lower c.
Proof. destruct c as [[] [] [] [] [] [] [] []]; reflexivity. Qed.

Lemma toLowerCase_idempotent s : Js.toLowerCase (Js.toLowerCase s) = Js.toLowerCase s.
Proof.
  induction s as [|c s IH]; [done|]. cbn. by rewrite ascii_to_lower_idempotent, IH.
Qed.

(** The mapping does not see the case of its argument. *)
Lemma ecosystemToRegistry_case_insensitive s :
  ecosystemToRegistry (Some s) = ecosystemToRegistry (Some (Js.toLowerCase s)).
Proof. unfold ecosystemToRegistry. by rewrite toLowerCase_idempotent. Qed.

(** The table has sixteen entries. *)
Lemma registry_map_size : size registry_map = 16%nat.
Proof. reflexivity. Qed.

(** An ecosystem of the table maps to its registry, in any case. *)
Lemma ecosystemToRegistry_known s registry :
  registry_map !! Js.toLowerCase s = Some registry →
  ecosystemToRegistry (Some s) = Ok (js_or (VString registry) VNull).
Proof. intros H. unfold ecosystemToRegistry, js_get. by rewrite H. Qed.

(** Of the inherited members, lower-casing can only produce these two. *)
Lemma lowercase_prototype_member s :
  Js.toLowerCase s ∈ object_prototype_members →
  Js.toLowerCase s = "constructor" ∨ Js.toLowerCase s = "__proto__".
Proof.
  intros Hin. pose proof (toLowerCase_idempotent s) as Hid.
  unfold object_prototype_members in Hin.
  repeat (apply elem_of_cons in Hin as [Hin|Hin];
          [rewrite Hin in *; first [by left | by right | discriminate Hid]|]).
  by apply elem_of_nil in Hin.
Qed.

(** A name that is neither in the table nor one of the two inherited
    lower-case members maps to [null] and is not looked up. *)
Lemma ecosystemToRegistry_unknown w s name :
  registry_map !! Js.toLowerCase s = None →
  Js.toLowerCase s ≠ "constructor" → Js.toLowerCase s ≠ "__proto__" →
  ecosystemToRegistry (Some s) = Ok VNull ∧
  fetchVersionNumbers w (Some s) name = ([], Returned (JsonArray [])).
Proof.
  intros Hmap Hc Hp.
  assert (Hr : js_or (js_get registry_map (Js.toLowerCase s)) VNull = VNull).
  { unfold js_get. rewrite Hmap. case_bool_decide as Hin; [|reflexivity].
    apply lowercase_prototype_member in Hin as [?|?]; done. }
  split.
  - unfold ecosystemToRegistry. by rewrite Hr.
  - unfold fetchVersionNumbers, ecosystemToRegistry. rewrite Hr. reflexivity.
Qed.

(** C10, at the input where the code departs from it. The string
    "constructor" is none of the sixteen ecosystems, yet
    [ecosystemToRegistry] does not answer [null] for it (in any case of its
    letters), nor for "__proto__": [map[key]] finds the member the literal
    inherits from [Object.prototype], which is truthy, so
    [fetchVersionNumbers] goes on to issue a request. *)
Theorem ecosystemToRegistry_inherited_member :
  registry_map !! "constructor" = None ∧
  ecosystemToRegistry (Some "constructor") = Ok (VInherited "constructor") ∧
  ecosystemToRegistry (Some "Constructor") = Ok (VInherited "constructor") ∧
  ecosystemToRegistry (Some "__proto__") = Ok (VInherited "__proto__") ∧
  ∀ w, requests (trace_of (fetchVersionNumbers w (Some "constructor") (Some "lodash")))
       = [ API_BASE +:+ "/registries/function Object() { [native code] }"
                    +:+ "/packages/lodash/version_numbers" ].
Proof.
  split_and!; try reflexivity.
  intros w. unfold fetchVersionNumbers, trace_of.
  change (lift (ecosystemToRegistry (Some "constructor")))
    with (mret (M := M) (VInherited "constructor")).
  cbn. unfold fetchJson.
  destruct (versions_endpoint w _) as [|st [b|]]; cbn;
    try destruct (response_ok st); reflexivity.
Qed.

(** ** Upsert engine: packages *)

Lemma packages_not_null_ok v :
  is_Some (val_ecosystem v) → is_Some (val_name v) → packages_not_null v = Ok tt.
Proof.
  intros [e He] [n Hn]. unfold packages_not_null. rewrite He, Hn.
  rewrite !bool_decide_eq_false_2 by done. reflexivity.
Qed.

Lemma packages_not_null_inv v :
  packages_not_null v = Ok tt → is_Some (val_ecosystem v) ∧ is_Some (val_name v).
Proof.
  unfold packages_not_null. repeat case_bool_decide; try discriminate.
  intros _. split; by apply not_eq_None_Some.
Qed.

Lemma packages_foldr_ad db rows : packages (foldr packages_ad db rows) = packages db.
Proof. induction rows as [|r rows IH]; simpl; auto. Qed.

Lemma referenced_spec id db :
  referenced id db ↔
  (∃ n, (id, n) ∈ versions db) ∨
  (∃ r, r ∈ advisories db ∧ arow_package_id r = id) ∨
  is_Some (repo_metadata db !! id).
Proof.
  unfold referenced. rewrite !Exists_exists. split.
  - intros [([k n] & Hin & Hk)|[H|H]]; [left|right; by left|right; by right].
    cbn in Hk. subst k. exists n. by apply elem_of_elements in Hin.
  - intros [[n Hn]|[H|H]]; [left|right; by left|right; by right].
    exists (id, n). split; [by apply elem_of_elements|done].
Qed.

(** The foreign-key check of the REPLACE, in the words of [replaceable]. *)
Lemma replaceable_orphans pkg db :
  replaceable pkg db ↔ ¬ orphans (package_values_of pkg) db.
Proof.
  unfold replaceable, orphans. rewrite Exists_exists. split.
  - intros Hrep ([k r] & Hin & Hk & Href). cbn in Hk, Href.
    apply elem_of_map_to_list, map_lookup_filter_Some in Hin as [Hr Hcol].
    by apply (Hrep k r Hr Hk Hcol).
  - intros Hno k r Hr Hk Hcol Href. apply Hno. exists (k, r). split; [|done].
    by apply elem_of_map_to_list, map_lookup_filter_Some.
Qed.

(** The statement of [insertPackage], case by case. *)
Lemma sql_insert_or_replace_packages_cases now v db :
  (∃ msg, sql_insert_or_replace_packages now v db = Err (SqliteConstraint msg) ∧
          (packages_not_null v = Err (SqliteConstraint msg) ∨
           packages_not_null v = Ok tt ∧ orphans v db)) ∨
  (packages_not_null v = Ok tt ∧ ¬ orphans v db ∧
   let new := {| row_values := v; col_created_at := Some now |} in
   let victims := (map_to_list (filter (λ kr, collides v kr.2) (packages db))).*2 in
   let db1 := set_packages (filter (λ kr, ¬ collides v kr.2) (packages db)) db in
   let db2 := if recursive_triggers db then foldr packages_ad db1 victims else db1 in
   sql_insert_or_replace_packages now v db
     = Ok (packages_ai new (set_packages (<[val_id v := new]> (packages db2)) db2))).
Proof.
  unfold sql_insert_or_replace_packages.
  destruct (packages_not_null v) as [[]|e] eqn:E.
  - cbn. case_bool_decide as Ho.
    + left. eexists. split; [reflexivity|]. by right.
    + right. done.
  - left. unfold packages_not_null in E.
    repeat case_bool_decide; try discriminate; injection E as <-;
      (eexists; split; [reflexivity|by left]).
Qed.

(** [insertPackage] succeeds on a record with an ecosystem and a name
    that orphans no child row. *)
Lemma insertPackage_ok now db pkg :
  is_Some (pkg_ecosystem pkg) → is_Some (pkg_name pkg) → replaceable pkg db →
  ∃ db', insertPackage now db pkg = Ok (db', pkg_id pkg) ∧
         packages db' = packages_after now pkg (packages db).
Proof.
  intros He Hn Hrep%replaceable_orphans.
  unfold insertPackage, sql_insert_or_replace_packages.
  rewrite packages_not_null_ok by done. cbn.
  rewrite bool_decide_eq_false_2 by done. cbn.
  eexists. split; [reflexivity|].
  destruct (recursive_triggers db); cbn; [rewrite packages_foldr_ad|]; reflexivity.
Qed.

Lemma insertPackage_inv now db pkg db' id :
  insertPackage now db pkg = Ok (db', id) →
  id = pkg_id pkg ∧ is_Some (pkg_ecosystem pkg) ∧ is_Some (pkg_name pkg) ∧
  packages db' = packages_after now pkg (packages db).
Proof.
  intros H. unfold insertPackage, sql_insert_or_replace_packages in H.
  destruct (packages_not_null (package_values_of pkg)) as [[]|e] eqn:E; [|discriminate].
  apply packages_not_null_inv in E as [He Hn]. cbn in H.
  case_bool_decide; [discriminate|]. cbn in H.
  injection H as <- <-. repeat split; try done.
  destruct (recursive_triggers db); cbn; [rewrite packages_foldr_ad|]; reflexivity.
Qed.

(** A successful [insertPackage] had no child row to orphan, and it
    leaves the child tables and [build_info] as they are. *)
Lemma insertPackage_frame now db pkg db' id :
  insertPackage now db pkg = Ok (db', id) →
  replaceable pkg db ∧
  versions db' = versions db ∧ advisories db' = advisories db ∧
  advisories_seq db' = advisories_seq db ∧ repo_metadata db' = repo_metadata db ∧
  build_info db' = build_info db ∧ recursive_triggers db' = recursive_triggers db.
Proof.
  intros H. unfold insertPackage, sql_insert_or_replace_packages in H.
  destruct (packages_not_null (package_values_of pkg)) as [[]|e]; [|discriminate].
  cbn in H. case_bool_decide as Ho; [discriminate|]. cbn in H.
  injection H as <- <-. split; [by apply replaceable_orphans|].
  assert (Hrows : ∀ rows d,
    versions (foldr packages_ad d rows) = versions d ∧
    advisories (foldr packages_ad d rows) = advisories d ∧
    advisories_seq (foldr packages_ad d rows) = advisories_seq d ∧
    repo_metadata (foldr packages_ad d rows) = repo_metadata d ∧
    build_info (foldr packages_ad d rows) = build_info d ∧
    recursive_triggers (foldr packages_ad d rows) = recursive_triggers d).
  { intros rows d. induction rows as [|r rows IH]; [done|]. cbn. exact IH. }
  destruct (recursive_triggers db) eqn:Hrt; cbn.
  - destruct (Hrows ((map_to_list (filter (λ kr, collides (package_values_of pkg) kr.2)
                 (packages db))).*2)
                (set_packages (filter (λ kr, ¬ collides (package_values_of pkg) kr.2)
                                      (packages db)) db))
      as (-> & -> & -> & -> & -> & ->). cbn. by rewrite Hrt.
  - split_and!; try reflexivity. exact Hrt.
Qed.

(** A record that would orphan a child row is rejected by the foreign
    key. *)
Lemma insertPackage_foreign_key now db pkg :
  is_Some (pkg_ecosystem pkg) → is_Some (pkg_name pkg) → ¬ replaceable pkg db →
  insertPackage now db pkg = Err (SqliteConstraint "FOREIGN KEY constraint failed").
Proof.
  intros He Hn Hrep. unfold insertPackage, sql_insert_or_replace_packages.
  rewrite packages_not_null_ok by done. cbn.
  rewrite bool_decide_eq_true_2; [done|].
  destruct (decide (orphans (package_values_of pkg) db)) as [|Hno]; [done|].
  by apply replaceable_orphans in Hno.
Qed.

(** A record without ecosystem or without name violates NOT NULL: the
    statement throws and nothing is written. *)
Lemma insertPackage_not_null now db pkg :
  pkg_ecosystem pkg = None ∨ pkg_name pkg = None →
  ∃ msg, insertPackage now db pkg = Err (SqliteConstraint msg).
Proof.
  intros H. unfold insertPackage, sql_insert_or_replace_packages, packages_not_null.
  cbn [package_values_of val_ecosystem val_name].
  destruct (pkg_ecosystem pkg) as [e|]; cbn; [|by eexists].
  destruct H as [H|H]; [done|]. rewrite H. cbn. by eexists.
Qed.

Lemma select_by_key_after now pkg e n t :
  pkg_ecosystem pkg = Some e → pkg_name pkg = Some n →
  filter (λ kr : Z * package_row, col_ecosystem kr.2 = Some e ∧ col_name kr.2 = Some n)
         (packages_after now pkg t)
  = {[ pkg_id pkg := row_of now pkg ]}.
Proof.
  intros He Hn. unfold packages_after.
  rewrite map_filter_insert_True by (cbn; done).
  rewrite <- insert_empty. f_equal.
  apply map_eq. intros i. rewrite lookup_empty.
  apply map_lookup_filter_None. right. intros r Hr [H1 H2].
  apply map_lookup_filter_Some in Hr as [_ Hr]. apply Hr.
  right. unfold unique_key. cbn in *. unfold col_ecosystem, col_name in *.
  by rewrite H1, H2, He, Hn.
Qed.


Lemma values_singleton (i : Z) (r : package_row) :
  (map_to_list ({[ i := r ]} : gmap Z package_row)).*2 = [r].
Proof. by rewrite map_to_list_singleton. Qed.




Lemma elem_of_fts_match term idx id :
  id ∈ fts_match term idx ↔
  ∃ d, d ∈ idx ∧ doc_rowid d = id ∧ Js.toLowerCase term ∈ doc_tokens d.
Proof.
  unfold fts_match. rewrite list_elem_of_fmap. split.
  - intros (d & -> & Hd). apply list_elem_of_filter in Hd as [Ht Hd].
    exists d. by rewrite <- gmultiset_elem_of_elements.
  - intros (d & Hd & <- & Ht). exists d. split; [done|].
    apply list_elem_of_filter. by rewrite gmultiset_elem_of_elements.
Qed.


(** The row of a record, column by column. *)
Lemma row_of_columns now pkg :
  row_of now pkg =
  {| row_values :=
       {| val_id := pkg_id pkg;
          val_ecosystem := pkg_ecosystem pkg;
          val_name := pkg_name pkg;
          val_purl := pkg_purl pkg;
          val_namespace := pkg_namespace pkg;
          val_description := pkg_description pkg;
          val_homepage := pkg_homepage pkg;
          val_repository_url := pkg_repository_url pkg;
          val_licenses := pkg_licenses pkg;
          val_normalized_licenses :=
            match pkg_normalized_licenses pkg with
            | Some licenses => Some (Js.JSON_stringify licenses)
            | None => None
            end;
          val_latest_version := pkg_latest_release_number pkg;
          val_versions_count := pkg_versions_count pkg;
          val_downloads := pkg_downloads pkg;
          val_downloads_period := pkg_downloads_period pkg;
          val_dependent_packages_count := pkg_dependent_packages_count pkg;
          val_dependent_repos_count := pkg_dependent_repos_count pkg;
          val_first_release_at := pkg_first_release_published_at pkg;
          val_latest_release_at := pkg_latest_release_published_at pkg;
          val_last_synced_at := pkg_last_synced_at pkg;
          val_keywords :=
            match pkg_keywords_array pkg with
            | Some keywords => Some (Js.join " " keywords)
            | None => None
            end |};
     col_created_at := Some now |}.
Proof.
  unfold row_of, package_values_of.
  by destruct (pkg_normalized_licenses pkg), (pkg_keywords_array pkg).
Qed.

(** C2, as the code has it. For every record with an ecosystem and a name
    (the two NOT NULL columns, which are the lookup key), on a store in
    which no row the write replaces under another id is referenced by a
    child row, [insertPackage] succeeds and the lookup on (ecosystem,
    name) then returns exactly one row, whose twenty written columns are
    the fields of the record: the normalized licenses as their JSON text
    (NULL for a record without the key), the latest release number, the
    keywords joined by spaces. [created_at], which the record does not
    have, holds the time of the write. *)
Theorem upsertPackage_round_trip now db pkg ecosystem name :
  pkg_ecosystem pkg = Some ecosystem →
  pkg_name pkg = Some name →
  replaceable pkg db →
  ∃ db',
    insertPackage now db pkg = Ok (db', pkg_id pkg) ∧
    select_packages_by_ecosystem_name ecosystem name db' =
      [ {| row_values :=
             {| val_id := pkg_id pkg;
                val_ecosystem := Some ecosystem;
                val_name := Some name;
                val_purl := pkg_purl pkg;
                val_namespace := pkg_namespace pkg;
                val_description := pkg_description pkg;
                val_homepage := pkg_homepage pkg;
                val_repository_url := pkg_repository_url pkg;
                val_licenses := pkg_licenses pkg;
                val_normalized_licenses :=
                  match pkg_normalized_licenses pkg with
                  | Some licenses => Some (Js.JSON_stringify licenses)
                  | None => None
                  end;
                val_latest_version := pkg_latest_release_number pkg;
                val_versions_count := pkg_versions_count pkg;
                val_downloads := pkg_downloads pkg;
                val_downloads_period := pkg_downloads_period pkg;
                val_dependent_packages_count := pkg_dependent_packages_count pkg;
                val_dependent_repos_count := pkg_dependent_repos_count pkg;
                val_first_release_at := pkg_first_release_published_at pkg;
                val_latest_release_at := pkg_latest_release_published_at pkg;
                val_last_synced_at := pkg_last_synced_at pkg;
                val_keywords :=
                  match pkg_keywords_array pkg with
                  | Some keywords => Some (Js.join " " keywords)
                  | None => None
                  end |};
           col_created_at := Some now |} ].
Proof.
  intros He Hn Hrep.
  destruct (insertPackage_ok now db pkg) as (db' & Hrun & Ht);
    [by rewrite He | by rewrite Hn | done |].
  exists db'. split; [done|].
  unfold select_packages_by_ecosystem_name. rewrite Ht.
  rewrite (select_by_key_after now pkg ecosystem name) by done.
  rewrite values_singleton, row_of_columns. by rewrite He, Hn.
Qed.

Lemma replaceable_createDatabase pkg : replaceable pkg createDatabase.
Proof. intros k r Hr. cbn in Hr. by rewrite lookup_empty in Hr. Qed.

(** The record of the integration test, written to the empty store and
    read back by ("npm", "test-pkg"). *)
Lemma test_pkg_round_trip :
  ∃ db',
    insertPackage "2024-01-02 03:04:05" createDatabase test_pkg = Ok (db', 999) ∧
    select_packages_by_ecosystem_name "npm" "test-pkg" db'
      = [ row_of "2024-01-02 03:04:05" test_pkg ] ∧
    val_normalized_licenses (package_values_of test_pkg)
      = Some (String "[" (String (ascii_of_nat 34)
                (String "M" (String "I" (String "T"
                   (String (ascii_of_nat 34) "]")))))) ∧
    val_keywords (package_values_of test_pkg) = Some "test fixture".
Proof.
  destruct (upsertPackage_round_trip "2024-01-02 03:04:05" createDatabase test_pkg
              "npm" "test-pkg" eq_refl eq_refl (replaceable_createDatabase test_pkg))
    as (db' & Hrun & Hsel).
  exists db'. split; [exact Hrun|]. split; [exact Hsel|]. split; reflexivity.
Defined.

(** C2, as the specification states it, fails on a store in which another
    id holds the (ecosystem, name) of the record and has an advisory: the
    REPLACE would delete that row, the foreign key of [advisories] rejects
    the statement, and the lookup still returns the old row, which has
    another id than the record. *)
Lemma upsert_over_referenced_package_throws :
  let now := "2024-01-01 00:00:00" in
  let p := bare_package 2 "npm" "lodash" None None in
  let db1 := written (insertPackage now createDatabase lodash) in
  let db2 := stored (insertAdvisories db1 1 (Some [Some (ghsa "GHSA-1" "HIGH")])) in
  insertPackage now createDatabase lodash = Ok (db1, 1) ∧
  insertAdvisories db1 1 (Some [Some (ghsa "GHSA-1" "HIGH")]) = Ok db2 ∧
  pkg_ecosystem p = Some "npm" ∧ pkg_name p = Some "lodash" ∧
  insertPackage now db2 p = Err (SqliteConstraint "FOREIGN KEY constraint failed") ∧
  select_packages_by_ecosystem_name "npm" "lodash" db2 = [row_of now lodash] ∧
  col_id (row_of now lodash) ≠ pkg_id p.
Proof.
  intros now p db1 db2. split_and!; try (vm_compute; reflexivity).
  intros H. discriminate H.
Qed.



(** C8, as the code has it. The stored [keywords] is the keyword
    collection joined by single spaces when the record has one (so the
    empty string for an empty collection), and [null] exactly when the
    record has no keyword collection. *)
Theorem upsertPackage_keywords now db pkg db' id :
  insertPackage now db pkg = Ok (db', id) →
  ∃ r, packages db' !! pkg_id pkg = Some r ∧
       col_keywords r = match pkg_keywords_array pkg with
                        | Some ks => Some (Js.join " " ks)
                        | None => None
                        end.
Proof.
  intros H. apply insertPackage_inv in H as (_ & _ & _ & Ht).
  exists (row_of now pkg). split; [|reflexivity].
  rewrite Ht. apply lookup_insert_eq.
Qed.

(** The keywords of the test record are stored as one string. *)
Lemma test_pkg_keywords :
  ∃ r, packages (written (insertPackage "2024-01-01 00:00:00" createDatabase test_pkg))
         !! 999 = Some r ∧
       col_keywords r = Some "test fixture".
Proof.
  exact (upsertPackage_keywords "2024-01-01 00:00:00" createDatabase test_pkg
           (written (insertPackage "2024-01-01 00:00:00" createDatabase test_pkg))
           999 eq_refl).
Defined.

(** C8, as the specification states it, fails: a record whose keyword
    collection is empty has no keywords, and its [keywords] column holds
    the empty string, not [null]. *)
Lemma empty_keywords_stored_as_empty_string :
  let pkg := bare_package 7 "npm" "left-pad" None (Some []) in
  no_keywords pkg ∧
  ∃ db' r, insertPackage "2024-01-01 00:00:00" createDatabase pkg = Ok (db', 7) ∧
           packages db' !! 7 = Some r ∧
           col_keywords r = Some EmptyString ∧ col_keywords r ≠ None.
Proof.
  split; [by right|].
  eexists _, _. split; [reflexivity|]. split; [reflexivity|]. split; [reflexivity|done].
Qed.

(** ** Upsert engine: advisories *)

Lemma uuid_bearing_Some a : uuid_bearing (Some a) = true → is_Some (adv_uuid a).
Proof. simpl. destruct (adv_uuid a); [eauto | discriminate]. Qed.

Lemma uuid_bearing_entries_cons a l :
  uuid_bearing_entries (a :: l) =
  match a with
  | Some a' => if uuid_bearing a then a' :: uuid_bearing_entries l
               else uuid_bearing_entries l
  | None => uuid_bearing_entries l
  end.
Proof.
  unfold uuid_bearing_entries. destruct a as [a'|]; [|reflexivity].
  change (omap ?f (?x :: ?l)) with
    (match f x with Some y => y :: omap f l | None => omap f l end).
  cbv beta. by destruct (uuid_bearing (Some a')).
Qed.

Lemma elem_of_uuid_bearing_entries a l :
  a ∈ uuid_bearing_entries l ↔ Some a ∈ l ∧ uuid_bearing (Some a) = true.
Proof.
  unfold uuid_bearing_entries. rewrite list_elem_of_omap. split.
  - intros ([a'|] & Hin & Hb); [|done].
    destruct (uuid_bearing (Some a')) eqn:E; [|done].
    injection Hb as ->. done.
  - intros [Hin Hb]. exists (Some a). by rewrite Hb.
Qed.

(** The rows of the package that a REPLACE keeps. *)
Lemma persisted_kept pid u (rows : list advisory_row) :
  arow_data <$> filter (λ r, arow_package_id r = pid)
                       (filter (λ r, ¬ advisory_collides pid u r) rows)
  = filter (λ d, adv_uuid d ≠ u)
           (arow_data <$> filter (λ r, arow_package_id r = pid) rows).
Proof.
  unfold advisory_collides.
  induction rows as [|r rows IH]; [done|].
  rewrite (filter_cons (λ r, ¬ _)).
  rewrite (filter_cons (λ r, arow_package_id r = pid) r rows).
  destruct (decide (arow_package_id r = pid)) as [Hp|Hp].
  - destruct (decide (adv_uuid (arow_data r) = u)) as [Hu|Hu].
    + rewrite decide_False by (intros H; apply H; done).
      rewrite fmap_cons, filter_cons.
      rewrite decide_False by (intros H; apply H; done). apply IH.
    + rewrite decide_True by (intros [_ H]; done).
      rewrite filter_cons, decide_True by done.
      rewrite !fmap_cons, filter_cons, decide_True by done. by rewrite IH.
  - rewrite decide_True by (intros [H _]; done).
    rewrite filter_cons, decide_False by done. apply IH.
Qed.

(** The rows of the other packages are out of its reach. *)
Lemma persisted_other pid q u (rows : list advisory_row) :
  q ≠ pid →
  filter (λ r, arow_package_id r = q)
         (filter (λ r, ¬ advisory_collides pid u r) rows)
  = filter (λ r, arow_package_id r = q) rows.
Proof.
  intros Hq. unfold advisory_collides.
  induction rows as [|r rows IH]; [done|].
  rewrite (filter_cons (λ r, ¬ _)).
  rewrite (filter_cons (λ r, arow_package_id r = q) r rows).
  destruct (decide (arow_package_id r = q)) as [Hp|Hp].
  - rewrite decide_True by (intros [? _]; congruence).
    rewrite filter_cons, decide_True by done. by rewrite IH.
  - destruct (decide (¬ (arow_package_id r = pid ∧ adv_uuid (arow_data r) = u))).
    + rewrite filter_cons, decide_False by done. apply IH.
    + apply IH.
Qed.

Lemma foreign_key_ok pid db : is_Some (packages db !! pid) → foreign_key pid db = Ok tt.
Proof. intros H. unfold foreign_key. by rewrite bool_decide_eq_true_2. Qed.

Lemma foreign_key_fails pid db :
  packages db !! pid = None →
  foreign_key pid db = Err (SqliteConstraint "FOREIGN KEY constraint failed").
Proof.
  intros H. unfold foreign_key. rewrite bool_decide_eq_false_2; [done|].
  rewrite H. by intros [? ?].
Qed.

Lemma foreign_key_inv pid db : foreign_key pid db = Ok tt → is_Some (packages db !! pid).
Proof. unfold foreign_key. by case_bool_decide. Qed.

Lemma sql_insert_or_replace_advisories_ok pid a db :
  is_Some (adv_uuid a) → is_Some (packages db !! pid) →
  ∃ db', sql_insert_or_replace_advisories pid a db = Ok db' ∧
         packages db' = packages db ∧
         persisted pid db' = replace_by_uuid (persisted pid db) a ∧
         (∀ q, q ≠ pid → persisted q db' = persisted q db).
Proof.
  intros [u Hu] Hparent. unfold sql_insert_or_replace_advisories.
  rewrite bool_decide_eq_false_2 by (rewrite Hu; done).
  rewrite foreign_key_ok by done. cbn [mbind result_bind].
  eexists. split; [reflexivity|]. split; [reflexivity|].
  unfold persisted, select_advisories_by_package, replace_by_uuid. cbn. split.
  - rewrite filter_app, fmap_app, persisted_kept. f_equal.
    rewrite filter_cons, decide_True by done. done.
  - intros q Hq. rewrite filter_app, fmap_app, persisted_other by done.
    rewrite (filter_cons _ _ []), decide_False by (cbn; congruence).
    by rewrite filter_nil, app_nil_r.
Qed.

(** The loop writes the UUID-bearing entries one after the other, for a
    package the store holds. *)
Lemma insertAdvisories_loop_ok pid : ∀ l db,
  is_Some (packages db !! pid) →
  ∃ db', insertAdvisories_loop db pid l = Ok db' ∧
         packages db' = packages db ∧
         persisted pid db'
           = foldl replace_by_uuid (persisted pid db) (uuid_bearing_entries l) ∧
         (∀ q, q ≠ pid → persisted q db' = persisted q db).
Proof.
  induction l as [|a l IH]; intros db Hparent.
  - exists db. done.
  - destruct a as [a|]; cbn [insertAdvisories_loop].
    + destruct (uuid_bearing (Some a)) eqn:Hb.
      * destruct (sql_insert_or_replace_advisories_ok pid a db)
          as (db1 & -> & Hk & Hp & Hq); [by apply uuid_bearing_Some|done|].
        cbn [mbind result_bind].
        destruct (IH db1) as (db' & Hrun & Hk' & Hp' & Hq'); [by rewrite Hk|].
        exists db'. split; [done|]. split; [by rewrite Hk', Hk|]. split.
        -- rewrite uuid_bearing_entries_cons, Hb. cbn [foldl].
           by rewrite Hp', Hp.
        -- intros q Hne. by rewrite Hq', Hq.
      * destruct (IH db Hparent) as (db' & Hrun & Hk' & Hp' & Hq').
        exists db'. split; [done|]. split; [done|]. split; [|done].
        by rewrite uuid_bearing_entries_cons, Hb.
    + destruct (IH db Hparent) as (db' & Hrun & Hk' & Hp' & Hq').
      exists db'. done.
Qed.

(** Without UUID-bearing entries the loop writes nothing. *)
Lemma insertAdvisories_loop_skips pid : ∀ l db,
  uuid_bearing_entries l = [] → insertAdvisories_loop db pid l = Ok db.
Proof.
  induction l as [|a l IH]; intros db Hl; [done|].
  rewrite uuid_bearing_entries_cons in Hl. cbn [insertAdvisories_loop].
  destruct a as [a|]; [|by apply IH].
  destruct (uuid_bearing (Some a)); [discriminate|by apply IH].
Qed.

(** For a package the store does not hold, the first UUID-bearing entry
    is rejected by the foreign key. *)
Lemma insertAdvisories_loop_foreign_key pid : ∀ l db,
  packages db !! pid = None → uuid_bearing_entries l ≠ [] →
  insertAdvisories_loop db pid l
    = Err (SqliteConstraint "FOREIGN KEY constraint failed").
Proof.
  induction l as [|a l IH]; intros db Hparent Hl; [done|].
  rewrite uuid_bearing_entries_cons in Hl. cbn [insertAdvisories_loop].
  destruct a as [a|]; [|by apply IH].
  destruct (uuid_bearing (Some a)) eqn:Hb; [|by apply IH].
  apply uuid_bearing_Some in Hb as [u Hu].
  unfold sql_insert_or_replace_advisories.
  rewrite bool_decide_eq_false_2 by (rewrite Hu; done).
  by rewrite foreign_key_fails.
Qed.

Lemma uuids_replace_by_uuid ds a :
  adv_uuid <$> replace_by_uuid ds a
  = filter (λ u, u ≠ adv_uuid a) (adv_uuid <$> ds) ++ [adv_uuid a].
Proof.
  unfold replace_by_uuid. rewrite fmap_app. f_equal.
  induction ds as [|d ds IH]; [done|].
  rewrite fmap_cons, !filter_cons.
  destruct (decide (adv_uuid d ≠ adv_uuid a)); [rewrite fmap_cons|]; by rewrite IH.
Qed.

Lemma elem_of_replace_by_uuid ds a d :
  d ∈ replace_by_uuid ds a ↔ (d ∈ ds ∧ adv_uuid d ≠ adv_uuid a) ∨ d = a.
Proof.
  unfold replace_by_uuid.
  rewrite elem_of_app, list_elem_of_filter, list_elem_of_singleton. tauto.
Qed.

Lemma NoDup_replace_by_uuid ds a :
  NoDup (adv_uuid <$> ds) → NoDup (adv_uuid <$> replace_by_uuid ds a).
Proof.
  intros Hnd. rewrite uuids_replace_by_uuid. apply NoDup_app. split; [|split].
  - by apply NoDup_filter.
  - intros x Hx Hx'. apply list_elem_of_filter in Hx as [Hne _].
    apply list_elem_of_singleton in Hx'. done.
  - apply NoDup_singleton.
Qed.

(** What a sequence of such writes leaves: one advisory per uuid, each
    one of those written or there before. *)
Lemma foldl_replace_by_uuid_spec l : ∀ ds,
  NoDup (adv_uuid <$> ds) →
  let final := foldl replace_by_uuid ds l in
  NoDup (adv_uuid <$> final) ∧
  (∀ d, d ∈ final → d ∈ ds ∨ d ∈ l) ∧
  (∀ u, u ∈ adv_uuid <$> final ↔ u ∈ adv_uuid <$> ds ∨ u ∈ adv_uuid <$> l).
Proof.
  induction l as [|a l IH]; intros ds Hnd; cbn [foldl].
  - split; [done|]. split; [intros d Hd; by left|].
    intros u. rewrite fmap_nil, elem_of_nil. tauto.
  - destruct (IH (replace_by_uuid ds a)) as (H1 & H2 & H3).
    { by apply NoDup_replace_by_uuid. }
    split; [done|]. split.
    + intros d Hd. apply H2 in Hd as [Hd|Hd].
      * apply elem_of_replace_by_uuid in Hd as [[Hd _]| ->]; [by left|].
        right. apply list_elem_of_here.
      * right. by apply list_elem_of_further.
    + intros u. rewrite H3, uuids_replace_by_uuid, fmap_cons.
      rewrite elem_of_app, list_elem_of_filter, list_elem_of_singleton, elem_of_cons.
      destruct (decide (u = adv_uuid a)); tauto.
Qed.

(** C4, as the code has it. On a store with no advisory of the package:
    when the store holds the package, [insertAdvisories] succeeds, the
    advisories it persists for the package are all UUID-bearing entries of
    the input, every UUID of the input is persisted, once, and the number
    of rows equals the number of distinct UUIDs among the UUID-bearing
    entries; a null or empty input leaves the store as it is.  When the
    store does not hold the package, an input with a UUID-bearing entry is
    rejected by the foreign key; an input without one writes nothing. *)
Theorem upsertAdvisories_persists_distinct_uuids db package_id advisories :
  select_advisories_by_package package_id db = [] →
  let input := default [] advisories in
  (is_Some (packages db !! package_id) →
   ∃ db',
     insertAdvisories db package_id advisories = Ok db' ∧
     (∀ a, a ∈ persisted package_id db' →
           Some a ∈ input ∧ uuid_bearing (Some a) = true) ∧
     (∀ a, Some a ∈ input → uuid_bearing (Some a) = true →
           adv_uuid a ∈ adv_uuid <$> persisted package_id db') ∧
     NoDup (adv_uuid <$> persisted package_id db') ∧
     length (select_advisories_by_package package_id db')
       = length (remove_dups (adv_uuid <$> uuid_bearing_entries input)) ∧
     (input = [] → db' = db)) ∧
  (packages db !! package_id = None → uuid_bearing_entries input ≠ [] →
   insertAdvisories db package_id advisories
     = Err (SqliteConstraint "FOREIGN KEY constraint failed")) ∧
  (uuid_bearing_entries input = [] →
   insertAdvisories db package_id advisories = Ok db).
Proof.
  intros Hempty input. subst input. split_and!.
  - intros Hparent.
    assert (Hstart : persisted package_id db = [])
      by (unfold persisted; by rewrite Hempty).
    assert (Hloop : ∀ l, ∃ db',
      insertAdvisories db package_id (Some l) = Ok db' ∧
      persisted package_id db' = foldl replace_by_uuid [] (uuid_bearing_entries l) ∧
      (l = [] → db' = db)).
    { intros l. unfold insertAdvisories. destruct l as [|a l].
      - exists db. cbn. by rewrite Hstart.
      - cbn [length Nat.eqb].
        destruct (insertAdvisories_loop_ok package_id (a :: l) db Hparent)
          as (db' & Hrun & _ & Hp & _).
        exists db'. rewrite Hstart in Hp. done. }
    destruct advisories as [l|].
    + destruct (Hloop l) as (db' & Hrun & Hp & Hnil). exists db'. split; [done|].
      cbn [default].
      destruct (foldl_replace_by_uuid_spec (uuid_bearing_entries l) [])
        as (H1 & H2 & H3).
      { constructor. }
      cbv zeta in H1, H2, H3. rewrite <- Hp in H1, H2, H3.
      split_and!.
      * intros a Ha. apply H2 in Ha as [Ha|Ha]; [by apply elem_of_nil in Ha|].
        by apply elem_of_uuid_bearing_entries.
      * intros a Hin Hb. apply H3. right. apply list_elem_of_fmap.
        exists a. split; [done|]. by apply elem_of_uuid_bearing_entries.
      * done.
      * transitivity (length (adv_uuid <$> persisted package_id db')).
        { unfold persisted. by rewrite !length_fmap. }
        apply Permutation_length, NoDup_Permutation; [done|apply NoDup_remove_dups|].
        intros u. rewrite elem_of_remove_dups, H3, fmap_nil, elem_of_nil. tauto.
      * done.
    + exists db. split; [done|]. cbn [default]. rewrite Hstart, Hempty.
      split_and!; try done.
      * by intros a Ha%elem_of_nil.
      * by intros a Ha%elem_of_nil.
      * constructor.
  - intros Hparent Hl. destruct advisories as [l|]; [|done]. cbn [default] in Hl.
    unfold insertAdvisories. destruct l as [|a l]; [done|]. cbn [length Nat.eqb].
    by apply insertAdvisories_loop_foreign_key.
  - intros Hl. destruct advisories as [l|]; [|done]. cbn [default] in Hl.
    unfold insertAdvisories. destruct (Nat.eqb (length l) 0); [done|].
    by apply insertAdvisories_loop_skips.
Qed.

(** Two advisories with UUIDs, a null entry and one without UUID, for
    the package of the integration test: two rows. *)
Lemma mixed_advisories_persist_two :
  let db := written (insertPackage "2024-01-01 00:00:00" createDatabase test_pkg) in
  ∃ db',
    insertAdvisories db 999
      (Some [Some (ghsa "GHSA-test-1234-5678" "HIGH"); None;
             Some advisory_without_uuid;
             Some (ghsa "GHSA-test-9999-0000" "MODERATE")]) = Ok db' ∧
    length (select_advisories_by_package 999 db') = 2%nat.
Proof.
  intros db.
  destruct (upsertAdvisories_persists_distinct_uuids db 999
              (Some [Some (ghsa "GHSA-test-1234-5678" "HIGH"); None;
                     Some advisory_without_uuid;
                     Some (ghsa "GHSA-test-9999-0000" "MODERATE")]) eq_refl)
    as (Hok & _).
  destruct Hok as (db' & Hrun & _ & _ & _ & Hlen & _); [by eexists|].
  exists db'. split; [exact Hrun|]. rewrite Hlen. reflexivity.
Defined.

(** C4, as the specification states it, fails: of two UUID-bearing
    entries with the same UUID, written for a package the store holds,
    one row is left, the second. *)
Lemma repeated_uuid_persists_once :
  let input := [Some (ghsa "GHSA-1" "HIGH"); Some advisory_without_uuid;
                Some (ghsa "GHSA-1" "LOW")] in
  let db := written (insertPackage "2024-01-01 00:00:00" createDatabase lodash) in
  ∃ db',
    insertAdvisories db 1 (Some input) = Ok db' ∧
    length (select_advisories_by_package 1 db') = 1%nat ∧
    length (filter (λ a, uuid_bearing a = true) input) = 2%nat ∧
    persisted 1 db' = [ghsa "GHSA-1" "LOW"].
Proof. eexists. split; [reflexivity|]. split_and!; reflexivity. Qed.

(** ** Full-text projection *)

Lemma fts_index_of_empty : fts_index_of ∅ = ∅.
Proof. unfold fts_index_of. by rewrite map_to_list_empty. Qed.

Lemma fts_index_of_insert (t : gmap Z package_row) k r :
  t !! k = None → fts_index_of (<[k := r]> t) = {[+ fts_doc_of r +]} ⊎ fts_index_of t.
Proof.
  intros Hk. unfold fts_index_of.
  rewrite (map_to_list_insert t k r Hk). by rewrite !fmap_cons, list_to_set_disj_cons.
Qed.

Lemma fts_index_of_delete (t : gmap Z package_row) k r :
  t !! k = Some r → fts_index_of t = {[+ fts_doc_of r +]} ⊎ fts_index_of (delete k t).
Proof.
  intros Hk. unfold fts_index_of.
  rewrite <- (map_to_list_delete t k r Hk). by rewrite !fmap_cons, list_to_set_disj_cons.
Qed.

(** The documents of a table are those of the rows a predicate selects
    and those of the rest. *)
Lemma fts_index_of_partition (P : Z * package_row → Prop) `{!∀ x, Decision (P x)}
    (t : gmap Z package_row) :
  fts_index_of t = fts_index_of (filter P t) ⊎ fts_index_of (filter (λ x, ¬ P x) t).
Proof.
  induction t as [|k r t Hk IH] using map_ind.
  - by rewrite !map_filter_empty, fts_index_of_empty.
  - rewrite fts_index_of_insert by done.
    destruct (decide (P (k, r))) as [HP|HP].
    + rewrite (map_filter_insert_True P), (map_filter_insert_False (λ x, ¬ P x)) by tauto.
      rewrite fts_index_of_insert by (apply map_lookup_filter_None; by left).
      rewrite delete_id by done.
      rewrite IH. multiset_solver.
    + rewrite (map_filter_insert_False P), (map_filter_insert_True (λ x, ¬ P x)) by tauto.
      rewrite fts_index_of_insert by (apply map_lookup_filter_None; by left).
      rewrite delete_id by done.
      rewrite IH. multiset_solver.
Qed.

Lemma packages_fts_foldr_ad db rows :
  packages_fts (foldr packages_ad db rows)
  = packages_fts db ∖ list_to_set_disj (fts_doc_of <$> rows).
Proof.
  induction rows as [|r rows IH].
  - rewrite fmap_nil, list_to_set_disj_nil. cbn [foldr]. multiset_solver.
  - rewrite fmap_cons, list_to_set_disj_cons. cbn [foldr].
    unfold packages_ad at 1, fts_delete. cbn [packages_fts set_packages_fts].
    rewrite IH. multiset_solver.
Qed.

Lemma createDatabase_keyed : packages_keyed createDatabase.
Proof. intros k r H. cbn in H. by rewrite lookup_empty in H. Qed.

Lemma createDatabase_consistent : fts_consistent createDatabase.
Proof. unfold fts_consistent. cbn. by rewrite fts_index_of_empty. Qed.

Lemma survivors_free v db :
  packages_keyed db →
  filter (λ kr : Z * package_row, ¬ collides v kr.2) (packages db) !! val_id v = None.
Proof.
  intros Hk. apply map_lookup_filter_None.
  destruct (packages db !! val_id v) as [r|] eqn:E; [right|by left].
  intros r' [= <-] Hc. apply Hc. left. by apply Hk.
Qed.

Lemma no_collision_free v db :
  packages_keyed db →
  filter (λ kr : Z * package_row, collides v kr.2) (packages db) = ∅ →
  packages db !! val_id v = None.
Proof.
  intros Hk Hf. destruct (packages db !! val_id v) as [r|] eqn:E; [|done].
  exfalso. refine (map_filter_empty_not_lookup _ _ _ _ Hf _ E). left. by apply Hk.
Qed.

Lemma no_collision_survivors v (t : gmap Z package_row) :
  filter (λ kr : Z * package_row, collides v kr.2) t = ∅ →
  filter (λ kr : Z * package_row, ¬ collides v kr.2) t = t.
Proof.
  intros Hf. apply map_eq. intros i. apply option_eq. intros r.
  rewrite map_lookup_filter_Some. split; [tauto|]. intros Hr. split; [done|].
  intros Hc. by apply (map_filter_empty_not_lookup _ _ _ _ Hf Hc).
Qed.

(** The triggers keep the index consistent under INSERT, *)
Lemma sql_insert_packages_consistent now v db db' :
  packages_keyed db → fts_consistent db →
  sql_insert_packages now v db = Ok db' →
  packages_keyed db' ∧ fts_consistent db'.
Proof.
  unfold fts_consistent, sql_insert_packages. intros Hk Hc H.
  destruct (packages_not_null v); [|discriminate]. cbn in H.
  case_bool_decide as Hcol; [|discriminate]. injection H as <-. cbn. split.
  - intros k r. cbn. rewrite lookup_insert. case_decide as Hkk.
    + intros [= <-]. by subst.
    + apply Hk.
  - rewrite fts_index_of_insert, Hc by (by apply no_collision_free).
    multiset_solver.
Qed.

(** under DELETE, *)
Lemma sql_delete_packages_consistent id db :
  packages_keyed db → fts_consistent db →
  packages_keyed (sql_delete_packages id db) ∧ fts_consistent (sql_delete_packages id db).
Proof.
  unfold fts_consistent, sql_delete_packages. intros Hk Hc.
  destruct (packages db !! id) as [old|] eqn:E; [|done].
  case_bool_decide as Href; [done|]. cbn. split.
  - intros k r. cbn. rewrite lookup_delete. case_decide; [done|apply Hk].
  - rewrite Hc, (fts_index_of_delete _ _ _ E). multiset_solver.
Qed.

(** and under UPDATE. *)
Lemma sql_update_packages_consistent id description keywords db :
  packages_keyed db → fts_consistent db →
  packages_keyed (sql_update_packages id description keywords db) ∧
  fts_consistent (sql_update_packages id description keywords db).
Proof.
  unfold fts_consistent, sql_update_packages. intros Hk Hc.
  destruct (packages db !! id) as [old|] eqn:E; [|done]. cbn. split.
  - intros k r. cbn. rewrite lookup_insert. case_decide as Hkk.
    + intros [= <-]. subst. by apply (Hk _ _ E).
    + apply Hk.
  - rewrite <- insert_delete_eq, fts_index_of_insert by apply lookup_delete_eq.
    rewrite Hc, (fts_index_of_delete _ _ _ E). multiset_solver.
Qed.

Lemma sql_insert_or_replace_packages_keyed now v db db' :
  packages_keyed db → sql_insert_or_replace_packages now v db = Ok db' →
  packages_keyed db'.
Proof.
  unfold sql_insert_or_replace_packages. intros Hk H.
  destruct (packages_not_null v); [|discriminate]. cbn [mbind result_bind] in H.
  case_bool_decide as Ho; [discriminate|]. injection H as <-.
  intros k r. cbn.
  assert (Hp : ∀ d, packages (if recursive_triggers db
            then foldr packages_ad d
                   (map_to_list (filter (λ kr, collides v kr.2) (packages db))).*2
            else d) = packages d).
  { intros d. destruct (recursive_triggers db); [apply packages_foldr_ad|done]. }
  rewrite Hp. cbn. rewrite lookup_insert. case_decide as Hkk.
  - intros [= <-]. by subst.
  - intros Hr. apply map_lookup_filter_Some in Hr as [Hr _]. by apply Hk.
Qed.

(** The REPLACE of [insertPackage] keeps the index consistent when it
    deletes no row, *)
Lemma sql_insert_or_replace_packages_fresh now v db db' :
  packages_keyed db → fts_consistent db →
  filter (λ kr : Z * package_row, collides v kr.2) (packages db) = ∅ →
  sql_insert_or_replace_packages now v db = Ok db' →
  fts_consistent db'.
Proof.
  unfold fts_consistent, sql_insert_or_replace_packages. intros Hk Hc Hnone H.
  destruct (packages_not_null v); [|discriminate]. cbn [mbind result_bind] in H.
  case_bool_decide as Ho; [discriminate|]. injection H as <-.
  pose proof (survivors_free v db Hk) as Hfree.
  rewrite Hnone, map_to_list_empty. cbn [fmap list_fmap foldr].
  assert (Hsame : (if recursive_triggers db
                   then set_packages (filter (λ kr, ¬ collides v kr.2) (packages db)) db
                   else set_packages (filter (λ kr, ¬ collides v kr.2) (packages db)) db)
                  = set_packages (filter (λ kr, ¬ collides v kr.2) (packages db)) db)
    by (by destruct (recursive_triggers db)).
  rewrite Hsame. cbn. rewrite fts_index_of_insert by done.
  rewrite (no_collision_survivors v _ Hnone), Hc. multiset_solver.
Qed.

(** and when the delete trigger fires for the rows it deletes. *)
Lemma sql_insert_or_replace_packages_recursive now v db db' :
  packages_keyed db → fts_consistent db →
  recursive_triggers db = true →
  sql_insert_or_replace_packages now v db = Ok db' →
  fts_consistent db'.
Proof.
  unfold fts_consistent, sql_insert_or_replace_packages. intros Hk Hc Hrt H.
  destruct (packages_not_null v); [|discriminate]. cbn [mbind result_bind] in H.
  case_bool_decide as Ho; [discriminate|]. injection H as <-.
  pose proof (survivors_free v db Hk) as Hfree.
  pose proof (fts_index_of_partition (λ kr, collides v kr.2) (packages db)) as Hpart.
  rewrite Hrt. cbn. rewrite packages_foldr_ad, packages_fts_foldr_ad. cbn.
  rewrite fts_index_of_insert by done. rewrite Hc.
  fold (fts_index_of (filter (λ kr, collides v kr.2) (packages db))).
  clear Hrt. multiset_solver.
Qed.

(** With the delete trigger silent, a REPLACE that deletes a row leaves
    that row's document in the index. *)
Lemma sql_insert_or_replace_packages_stale now v db db' k old :
  packages_keyed db → fts_consistent db →
  recursive_triggers db = false →
  packages db !! k = Some old → collides v old →
  sql_insert_or_replace_packages now v db = Ok db' →
  fts_doc_of old ∈ packages_fts db' ∧ ¬ fts_consistent db' ∧
  packages_fts db' = fts_index_of (packages db') ⊎
                     fts_index_of (filter (λ kr, collides v kr.2) (packages db)).
Proof.
  unfold fts_consistent, sql_insert_or_replace_packages. intros Hk Hc Hrt Hold Hcol H.
  destruct (packages_not_null v); [|discriminate]. cbn [mbind result_bind] in H.
  case_bool_decide as Ho; [discriminate|]. injection H as <-.
  pose proof (survivors_free v db Hk) as Hfree.
  pose proof (fts_index_of_partition (λ kr, collides v kr.2) (packages db)) as Hpart.
  rewrite Hrt. cbn. rewrite fts_index_of_insert by done.
  assert (Hin : fts_doc_of old ∈
            fts_index_of (filter (λ kr, collides v kr.2) (packages db))).
  { unfold fts_index_of. apply elem_of_list_to_set_disj, list_elem_of_fmap.
    exists old. split; [done|]. apply list_elem_of_fmap. exists (k, old).
    split; [done|]. apply elem_of_map_to_list, map_lookup_filter_Some. done. }
  rewrite Hc. clear Hrt Hold Hcol Hfree Hk. split_and!; multiset_solver.
Qed.

Lemma insertVersions_loop_frame id : ∀ l db db',
  insertVersions_loop db id l = Ok db' →
  packages db' = packages db ∧ advisories db' = advisories db ∧
  advisories_seq db' = advisories_seq db ∧ repo_metadata db' = repo_metadata db ∧
  packages_fts db' = packages_fts db ∧ build_info db' = build_info db.
Proof.
  induction l as [|x l IH]; intros db db'; cbn [insertVersions_loop].
  - by intros [= <-].
  - unfold sql_insert_or_replace_versions. destruct x as [n|]; [|discriminate].
    destruct (foreign_key id db) as [[]|]; [|discriminate].
    cbn [mbind result_bind]. intros H.
    destruct (IH _ _ H) as (-> & -> & -> & -> & -> & ->). done.
Qed.

Lemma insertVersions_frame db id versionNumbers db' :
  insertVersions db id versionNumbers = Ok db' →
  packages db' = packages db ∧ advisories db' = advisories db ∧
  advisories_seq db' = advisories_seq db ∧ repo_metadata db' = repo_metadata db ∧
  packages_fts db' = packages_fts db ∧ build_info db' = build_info db.
Proof.
  unfold insertVersions. destruct versionNumbers as [|l]; [by intros [= <-]|].
  destruct (Nat.eqb (length l) 0); [by intros [= <-]|].
  apply insertVersions_loop_frame.
Qed.

Lemma insertRepoMetadata_frame db id rm host db' :
  insertRepoMetadata db id rm host = Ok db' →
  packages db' = packages db ∧ packages_fts db' = packages_fts db ∧
  versions db' = versions db ∧ advisories db' = advisories db ∧
  advisories_seq db' = advisories_seq db ∧ build_info db' = build_info db.
Proof.
  unfold insertRepoMetadata, sql_insert_or_replace_repo_metadata.
  destruct rm as [rm|]; [|by intros [= <-]].
  destruct (foreign_key id db) as [[]|]; [|discriminate].
  by intros [= <-].
Qed.

(** The other writes of the pipeline leave the index alone. *)
Lemma pipeline_writes_leave_index db id :
  (∀ rm host db', insertRepoMetadata db id rm host = Ok db' →
                  packages_fts db' = packages_fts db) ∧
  (∀ numbers db', insertVersions db id numbers = Ok db' →
                  packages_fts db' = packages_fts db) ∧
  (∀ a db', sql_insert_or_replace_advisories id a db = Ok db' →
            packages_fts db' = packages_fts db) ∧
  (∀ now db', updateBuildInfo now db = Ok db' → packages_fts db' = packages_fts db).
Proof.
  split_and!.
  - intros rm host db' H. by apply insertRepoMetadata_frame in H as (_ & -> & _).
  - intros numbers db' H. by apply insertVersions_frame in H as (_ & _ & _ & _ & -> & _).
  - intros a db'. unfold sql_insert_or_replace_advisories.
    case_bool_decide; [discriminate|].
    destruct (foreign_key id db) as [[]|]; [|discriminate]. by intros [= <-].
  - intros now db' [= <-]. reflexivity.
Qed.

Lemma elem_of_fts_index_of d (t : gmap Z package_row) :
  d ∈ fts_index_of t ↔ ∃ k r, t !! k = Some r ∧ d = fts_doc_of r.
Proof.
  unfold fts_index_of. rewrite elem_of_list_to_set_disj, list_elem_of_fmap. split.
  - intros (r & -> & Hr). apply list_elem_of_fmap in Hr as ([k r'] & -> & Hkr).
    apply elem_of_map_to_list in Hkr. by exists k, r'.
  - intros (k & r & Hr & ->). exists r. split; [done|].
    apply list_elem_of_fmap. exists (k, r). split; [done|].
    by apply elem_of_map_to_list.
Qed.

Lemma elem_of_fts_search term db r :
  r ∈ fts_search term db ↔
  ∃ k, packages db !! k = Some r ∧ col_id r ∈ fts_match term (packages_fts db).
Proof.
  unfold fts_search. rewrite list_elem_of_fmap. split.
  - intros ([k r'] & -> & H). apply elem_of_map_to_list, map_lookup_filter_Some in H.
    by exists k.
  - intros (k & Hr & Hm). exists (k, r). split; [done|].
    by apply elem_of_map_to_list, map_lookup_filter_Some.
Qed.

(** On a consistent index the search returns the rows one of whose
    indexed columns holds the word. *)
Lemma fts_search_consistent term db r :
  packages_keyed db → fts_consistent db →
  r ∈ fts_search term db ↔
  packages db !! col_id r = Some r ∧ Js.toLowerCase term ∈ doc_tokens (fts_doc_of r).
Proof.
  intros Hk Hc. rewrite elem_of_fts_search. setoid_rewrite elem_of_fts_match.
  rewrite Hc. setoid_rewrite elem_of_fts_index_of. split.
  - intros (k & Hr & d & (k' & r' & Hr' & ->) & Hid & Ht).
    pose proof (Hk _ _ Hr) as <-. pose proof (Hk _ _ Hr') as Hk'.
    assert (k' = col_id r) as -> by (rewrite <- Hk', <- Hid; done).
    assert (r' = r) as -> by congruence. done.
  - intros [Hr Ht]. exists (col_id r). split; [done|].
    exists (fts_doc_of r). split; [|done]. by exists (col_id r), r.
Qed.

(** A word of a stored package's keywords or description finds it. *)
Lemma fts_search_finds term db id r :
  packages_keyed db → fts_consistent db →
  packages db !! id = Some r →
  Js.toLowerCase term ∈ column_tokens (col_keywords r) ∨
  Js.toLowerCase term ∈ column_tokens (col_description r) →
  r ∈ fts_search term db.
Proof.
  intros Hk Hc Hr Ht. apply fts_search_consistent; try done.
  split; [by rewrite (Hk _ _ Hr)|].
  unfold doc_tokens, fts_doc_of. rewrite !elem_of_app. tauto.
Qed.

(** After an UPDATE under which no row holds the word any more, the
    search for it returns nothing. *)
Lemma fts_search_after_update term db id description keywords :
  packages_keyed db → fts_consistent db →
  (∀ k r, packages (sql_update_packages id description keywords db) !! k = Some r →
          Js.toLowerCase term ∉ doc_tokens (fts_doc_of r)) →
  fts_search term (sql_update_packages id description keywords db) = [].
Proof.
  intros Hk Hc Hnone.
  destruct (sql_update_packages_consistent id description keywords db Hk Hc) as [Hk' Hc'].
  apply elem_of_nil_inv. intros r Hr.
  apply fts_search_consistent in Hr as [Hr Ht]; try done.
  by apply (Hnone _ _ Hr).
Qed.

(** C5, at the input where the code departs from it. A package is
    written with the keyword "alpha" and then, under the same id, with the
    keyword "beta" in its place. [insertPackage] replaces the row, the
    delete trigger does not fire for the row the REPLACE deletes
    ([createDatabase] leaves recursive triggers off), and the index keeps
    the old document: the search for "alpha" still returns the package,
    whose keywords are now "beta", and the index is no longer the
    projection of the table. The first transaction of [build] reaches
    this state on a catalog that lists the two records. *)
Theorem replace_leaves_stale_tokens :
  let now := "2024-01-01 00:00:00" in
  let p1 := bare_package 1 "npm" "left-pad" (Some "pads strings") (Some ["alpha"]) in
  let p2 := bare_package 1 "npm" "left-pad" (Some "pads strings") (Some ["beta"]) in
  let db1 := written (insertPackage now createDatabase p1) in
  let db2 := written (insertPackage now db1 p2) in
  insertPackage now createDatabase p1 = Ok (db1, 1) ∧
  insertPackage now db1 p2 = Ok (db2, 1) ∧
  fts_search "alpha" db1 = [row_of now p1] ∧
  fts_search "alpha" db2 = [row_of now p2] ∧
  col_keywords (row_of now p2) = Some "beta" ∧
  insertAll fixed_clock 0 [p1; p2] createDatabase = Ok db2 ∧
  ¬ fts_consistent db2.
Proof.
  intros now p1 p2 db1 db2.
  split; [reflexivity|]. split; [reflexivity|].
  split; [vm_compute; reflexivity|]. split; [vm_compute; reflexivity|].
  split; [reflexivity|]. split; [reflexivity|].
  assert (H1 : sql_insert_or_replace_packages now (package_values_of p1) createDatabase
               = Ok db1) by reflexivity.
  assert (H2 : sql_insert_or_replace_packages now (package_values_of p2) db1
               = Ok db2) by reflexivity.
  apply (sql_insert_or_replace_packages_stale now (package_values_of p2) db1 db2 1
           (row_of now p1)).
  - apply (sql_insert_or_replace_packages_keyed _ _ _ _ createDatabase_keyed H1).
  - apply (sql_insert_or_replace_packages_fresh now (package_values_of p1)
             createDatabase db1 createDatabase_keyed createDatabase_consistent);
      [|exact H1].
    apply map_filter_empty.
  - reflexivity.
  - reflexivity.
  - left. reflexivity.
  - exact H2.
Qed.

(** ** The build *)



Lemma insertAdvisories_loop_frame id : ∀ l db db',
  insertAdvisories_loop db id l = Ok db' →
  packages db' = packages db ∧ packages_fts db' = packages_fts db ∧
  versions db' = versions db ∧ repo_metadata db' = repo_metadata db ∧
  build_info db' = build_info db.
Proof.
  induction l as [|[a|] l IH]; intros db db'; cbn [insertAdvisories_loop].
  - by intros [= <-].
  - destruct (uuid_bearing (Some a)); [|apply IH].
    unfold sql_insert_or_replace_advisories. case_bool_decide; [discriminate|].
    destruct (foreign_key id db) as [[]|]; [|discriminate].
    cbn [mbind result_bind]. intros Hrun.
    destruct (IH _ _ Hrun) as (-> & -> & -> & -> & ->). done.
  - apply IH.
Qed.

Lemma insertAdvisories_frame db id l db' :
  insertAdvisories db id l = Ok db' →
  packages db' = packages db ∧ packages_fts db' = packages_fts db ∧
  versions db' = versions db ∧ repo_metadata db' = repo_metadata db ∧
  build_info db' = build_info db.
Proof.
  unfold insertAdvisories. destruct l as [l|]; [|by intros [= <-]].
  destruct (Nat.eqb (length l) 0); [by intros [= <-]|].
  apply insertAdvisories_loop_frame.
Qed.




(** The transaction of a batch writes [versions] only. *)
Lemma insertBatchVersions_frame : ∀ results db db',
  insertBatchVersions results db = Ok db' →
  packages db' = packages db ∧ advisories db' = advisories db ∧
  advisories_seq db' = advisories_seq db ∧ repo_metadata db' = repo_metadata db ∧
  packages_fts db' = packages_fts db ∧ build_info db' = build_info db.
Proof.
  induction results as [|[pkg vs] results IH]; intros db db'; cbn [insertBatchVersions].
  - by intros [= <-].
  - destruct vs as [|l]; [discriminate|].
    destruct (Nat.ltb 0 (length l)).
    + destruct (insertVersions db (pkg_id pkg) (JsonArray l)) as [db1|] eqn:E;
        [|discriminate].
      cbn [mbind result_bind]. intros H.
      destruct (IH _ _ H) as (-> & -> & -> & -> & -> & ->).
      by apply (insertVersions_frame _ _ _ _ E).
    + cbn [mbind result_bind]. apply IH.
Qed.


Lemma run_transaction_Returned fn db t db' :
  run_transaction fn db = (t, Returned db') → fn db = Ok db' ∧ t = [].
Proof.
  unfold run_transaction, transaction. destruct (fn db); cbn; [|discriminate].
  by intros [= <- <-].
Qed.


Lemma updateBuildInfo_spec now db :
  updateBuildInfo now db =
  Ok (set_build_info
        (<[1 := {| bi_built_at := now;
                   bi_package_count := count_packages db;
                   bi_version_count := count_versions db;
                   bi_advisory_count := count_advisories db |}]> (build_info db)) db).
Proof. reflexivity. Qed.

(** The slices of the version phase cover the catalog, in order. *)
Lemma slices_concat {A} n (l : list A) : (0 < n)%nat → concat (slices n l) = l.
Proof.
  intros Hn. unfold slices.
  assert (H : ∀ fuel (k : list A), (length k ≤ fuel)%nat →
                concat (slices_go fuel n k) = k).
  { induction fuel as [|fuel IH]; intros k Hk.
    - destruct k; [done|simpl in Hk; lia].
    - destruct k as [|x k]; [done|]. cbn [slices_go concat].
      rewrite IH.
      + apply take_drop.
      + rewrite length_drop. simpl in *. lia. }
  by apply H.
Qed.

(** The stages of a build that returns. *)
Lemma build_Returned fuel w c options t info db :
  build fuel w c options = (t, Returned (info, db)) →
  ∃ pkgs db1 db2 t1 t2,
    fetchAllCriticalPackages fuel w true = (t1, Returned pkgs) ∧
    insertAll c 0 pkgs createDatabase = Ok db1 ∧
    (if fetchVersionsData options
     then ∃ t2', fetchVersions_loop w (length pkgs) 0 (slices CONCURRENCY pkgs) db1
                   = (t2', Returned db2) ∧
                 t2 = EvProgress "Fetching versions..." :: t2'
     else db2 = db1 ∧ t2 = []) ∧
    updateBuildInfo (date_iso c) db2 = Ok db ∧
    build_info db !! 1 = Some info ∧
    t = [EvProgress "Creating database..."; EvProgress "Fetching critical packages..."]
          ++ t1
          ++ [EvProgress ("Found " +:+ Js.of_nat (length pkgs) +:+ " critical packages");
              EvProgress "Inserting packages..."]
          ++ t2
          ++ [EvProgress ("Build complete: " +:+ Js.of_Z (bi_package_count info)
                          +:+ " packages, " +:+ Js.of_Z (bi_version_count info)
                          +:+ " versions, " +:+ Js.of_Z (bi_advisory_count info)
                          +:+ " advisories")].
Proof.
  intros H. unfold build in H.
  apply bind_Returned in H as (? & [] & ? & [= <-] & H & ->).
  apply bind_Returned in H as (? & [] & ? & [= <-] & H & ->).
  apply bind_Returned in H as (t1 & pkgs & ? & Hf & H & ->).
  apply bind_Returned in H as (? & [] & ? & [= <-] & H & ->).
  apply bind_Returned in H as (? & [] & ? & [= <-] & H & ->).
  apply bind_Returned in H as (? & db1 & ? & Htx & H & ->).
  apply bind_Returned in H as (t2 & db2 & ? & Hv & H & ->).
  apply bind_Returned in H as (? & db3 & ? & Hu & H & ->).
  apply run_transaction_Returned in Htx as [Htx ->].
  destruct (updateBuildInfo (date_iso c) db2) as [d|e] eqn:Eu; [|discriminate].
  cbn in Hu. injection Hu as <- <-.
  destruct (build_info d !! 1) as [info'|] eqn:Ei; [|discriminate].
  cbn in H. injection H as <- <- <-.
  exists pkgs, db1, db2, t1, t2. split_and!; try done.
  destruct (fetchVersionsData options).
  - apply bind_Returned in Hv as (? & [] & t2' & [= <-] & Hv & ->). by exists t2'.
  - by injection Hv as <- <-.
Qed.



(** * Further properties of the code *)

(** ** The paginator without an end, and its progress reports *)

Lemma loop_endless w onProgress : ∀ fuel acc p,
  (∀ q, (p ≤ q)%nat → ∃ b, serves w q b ∧ b ≠ []) →
  outcome_of (fetchAllCriticalPackages_loop fuel w onProgress acc p) = OutOfFuel ∧
  requests (trace_of (fetchAllCriticalPackages_loop fuel w onProgress acc p))
    = page_url <$> seq p fuel.
Proof.
  induction fuel as [|fuel IH]; intros acc p Hall; [done|].
  rewrite loop_step. destruct (Hall p) as (b & Hb & Hne); [lia|].
  rewrite (page_outcome_serves _ _ _ Hb). destruct b as [|x b]; [done|].
  destruct (IH (acc ++ x :: b) (S p)) as [IH1 IH2].
  { intros q Hq. apply Hall. lia. }
  destruct (fetchAllCriticalPackages_loop fuel w onProgress (acc ++ x :: b) (S p))
    as [t r] eqn:E.
  unfold outcome_of, trace_of in *. simpl in *. split; [done|].
  rewrite requests_app, requests_progress_events. simpl. by rewrite IH2.
Qed.

(** X1. The paginator has no page limit: against a source that answers
    every page from 1 on with a non-empty batch, no number of iterations
    makes [fetchAllCriticalPackages] return, and the run requests the pages
    1, 2, 3, ... one after the other. *)
Theorem fetchAllCriticalPackages_never_returns w onProgress fuel :
  (∀ q, (1 ≤ q)%nat → ∃ b, serves w q b ∧ b ≠ []) →
  outcome_of (fetchAllCriticalPackages fuel w onProgress) = OutOfFuel ∧
  requests (trace_of (fetchAllCriticalPackages fuel w onProgress))
    = page_url <$> seq 1 fuel.
Proof. intros H. by apply loop_endless. Qed.

(** Fifty iterations against the source that always serves lodash: fifty
    requests and no result. *)
Lemma endless_source_never_returns :
  outcome_of (fetchAllCriticalPackages 50 endless_source false) = OutOfFuel ∧
  length (requests (trace_of (fetchAllCriticalPackages 50 endless_source false)))
    = 50%nat.
Proof.
  destruct (fetchAllCriticalPackages_never_returns endless_source false 50) as [H1 H2].
  - intros q _. exists [lodash]. split; [|done]. exists 200%nat. split; reflexivity.
  - split; [exact H1|]. rewrite H2. reflexivity.
Defined.

Lemma progress_messages_app t1 t2 :
  progress_messages (t1 ++ t2) = progress_messages t1 ++ progress_messages t2.
Proof. apply omap_app. Qed.

Lemma loop_sink w : ∀ fuel acc p,
  let silent := fetchAllCriticalPackages_loop fuel w false acc p in
  let loud := fetchAllCriticalPackages_loop fuel w true acc p in
  outcome_of loud = outcome_of silent ∧
  traffic (trace_of loud) = trace_of silent ∧
  progress_messages (trace_of silent) = [] ∧
  progress_messages (trace_of loud)
    = (λ q, "Fetching page " +:+ Js.of_nat q +:+ "...")
        <$> seq p (length (requests (trace_of loud))).
Proof.
  induction fuel as [|fuel IH]; intros acc p; [done|].
  cbv zeta. rewrite !loop_step.
  destruct (page_outcome w p) as [[|x b]|e|] eqn:Ep; try (split_and!; reflexivity).
  destruct (IH (acc ++ x :: b) (S p)) as (IH1 & IH2 & IH3 & IH4).
  destruct (fetchAllCriticalPackages_loop fuel w true (acc ++ x :: b) (S p)) as [t r].
  destruct (fetchAllCriticalPackages_loop fuel w false (acc ++ x :: b) (S p)) as [t' r'].
  unfold trace_of, outcome_of in *. simpl in *. split_and!; try done.
  - by rewrite IH2.
  - by rewrite IH4.
Qed.

(** X2. The progress sink only observes: with and without it the
    paginator has the same outcome and the same network traffic; without
    it nothing is reported, with it one message "Fetching page q..." is
    reported per request, for q = 1, 2, ... in order. *)
Theorem fetchAllCriticalPackages_progress fuel w :
  let silent := fetchAllCriticalPackages fuel w false in
  let loud := fetchAllCriticalPackages fuel w true in
  outcome_of loud = outcome_of silent ∧
  traffic (trace_of loud) = trace_of silent ∧
  progress_messages (trace_of silent) = [] ∧
  progress_messages (trace_of loud)
    = (λ q, "Fetching page " +:+ Js.of_nat q +:+ "...")
        <$> seq 1 (length (requests (trace_of loud))).
Proof. apply loop_sink. Qed.

(** ** The registry table and the lookup of version numbers *)

Ltac by_decide := apply (bool_decide_unpack _); vm_compute; exact I.

Lemma registry_lookup_nonempty k v : registry_map !! k = Some v → v ≠ EmptyString.
Proof.
  intros H. 
  assert (Hin : (k, v) ∈ map_to_list registry_map) by (by apply elem_of_map_to_list).
  assert (Hall : Forall (λ kv : string * string, kv.2 ≠ EmptyString) (map_to_list registry_map)).
  { vm_compute. repeat constructor; discriminate. }
  rewrite Forall_forall in Hall. apply (Hall _ Hin).
Qed.

(** X3. [ecosystemToRegistry] on every string of ASCII characters: the
    ecosystem is looked up in lower case; a key of the table gives its
    registry, the lower-case names "constructor" and "__proto__" give the
    member inherited from [Object.prototype], and every other string gives
    [null]. The answer does not depend on the case of the letters. *)
Theorem ecosystemToRegistry_spec s :
  ascii_text s →
  ecosystemToRegistry (Some s) =
    Ok (match registry_map !! Js.toLowerCase s with
        | Some registry => VString registry
        | None =>
            if bool_decide (Js.toLowerCase s ∈ ["constructor"; "__proto__"])
            then VInherited (Js.toLowerCase s)
            else VNull
        end) ∧
  ecosystemToRegistry (Some s) = ecosystemToRegistry (Some (Js.toLowerCase s)).
Proof.
  intros _. split; [|apply ecosystemToRegistry_case_insensitive].
  unfold ecosystemToRegistry, js_get. f_equal.
  destruct (registry_map !! Js.toLowerCase s) as [r|] eqn:E.
  - unfold js_or, truthy. rewrite bool_decide_eq_false_2; [done|].
    by apply (registry_lookup_nonempty _ _ E).
  - case_bool_decide as Hin.
    + apply lowercase_prototype_member in Hin as Hc.
      rewrite bool_decide_eq_true_2; [done|].
      destruct Hc as [-> | ->]; by_decide.
    + rewrite bool_decide_eq_false_2; [done|].
      intros Hc. apply Hin.
      apply elem_of_cons in Hc as [->|Hc]; [by_decide|].
      apply list_elem_of_singleton in Hc as ->. by_decide.
Qed.

(** "Cargo" is looked up as "cargo". *)
Lemma cargo_registry_any_case :
  ecosystemToRegistry (Some "Cargo") = Ok (VString "crates.io") ∧
  ecosystemToRegistry (Some "Cargo") = ecosystemToRegistry (Some "cargo").
Proof.
  destruct (ecosystemToRegistry_spec "Cargo") as [H1 H2].
  - unfold ascii_text. by_decide.
  - split; [|exact H2]. rewrite H1. vm_compute. reflexivity.
Defined.

(** X4. For an ecosystem of the table, [fetchVersionNumbers] makes exactly
    one request, to [/registries/<registry>/packages/<encoded name>/version_numbers],
    and returns the body of a successful answer and the empty list for
    every other answer (rejection, error status, body that is no JSON);
    it never throws. *)
Theorem fetchVersionNumbers_known_ecosystem w ecosystem registry name :
  registry_map !! Js.toLowerCase ecosystem = Some registry →
  let url := API_BASE +:+ "/registries/" +:+ registry +:+ "/packages/"
               +:+ Js.encodeURIComponent (Js.of_nullable name) +:+ "/version_numbers" in
  fetchVersionNumbers w (Some ecosystem) name
    = ([EvFetch url], Returned (versions_of_response (versions_endpoint w url))).
Proof.
  intros Hr url. rewrite fetchVersionNumbers_unfold. cbv zeta.
  unfold js_get. rewrite Hr.
  assert (Ht : js_or (VString registry) VNull = VString registry).
  { unfold js_or, truthy. rewrite bool_decide_eq_false_2; [done|].
    by apply (registry_lookup_nonempty _ _ Hr). }
  rewrite Ht. unfold truthy.
  rewrite bool_decide_eq_false_2 by (by apply (registry_lookup_nonempty _ _ Hr)).
  cbn [negb]. change (versions_url (VString registry) name) with url.
  unfold fetchJson, versions_of_response.
  destruct (versions_endpoint w url) as [|st [b|]]; cbn;
    try destruct (response_ok st); reflexivity.
Qed.

(** The lookup of lodash under the ecosystem "NPM". *)
Lemma lodash_lookup_requests_npmjs :
  fetchVersionNumbers lodash_world (Some "NPM") (Some "lodash")
    = ([EvFetch (API_BASE +:+ "/registries/npmjs.org/packages/lodash/version_numbers")],
       Returned (json_strings ["4.17.21"; "4.17.20"])).
Proof.
  rewrite (fetchVersionNumbers_known_ecosystem lodash_world "NPM" "npmjs.org"
             (Some "lodash")) by (vm_compute; reflexivity).
  vm_compute. reflexivity.
Defined.

Lemma encode_char_cases c :
  (Js.uri_unreserved c = true ∧ c ≠ "%"%char) ∨
  (Js.uri_unreserved c = false ∧
   is_hex_upper (Js.hex_digit (nat_of_ascii c / 16)) = true ∧
   is_hex_upper (Js.hex_digit (nat_of_ascii c mod 16)) = true ∧
   Js.uri_unreserved (Js.hex_digit (nat_of_ascii c / 16)) = true ∧
   Js.uri_unreserved (Js.hex_digit (nat_of_ascii c mod 16)) = true ∧
   unescape (Js.hex_digit (nat_of_ascii c / 16)) (Js.hex_digit (nat_of_ascii c mod 16)) = c).
Proof.
  destruct c as [[] [] [] [] [] [] [] []];
    first [ left; split; [reflexivity | discriminate]
          | right; split_and!; reflexivity ].
Qed.

Lemma chars_app s1 s2 : chars (s1 +:+ s2) = chars s1 ++ chars s2.
Proof.
  induction s1 as [|c s1 IH]; [done|].
  change (String c s1 +:+ s2) with (String c (s1 +:+ s2)). cbn. by rewrite IH.
Qed.

Lemma chars_inj s1 s2 : chars s1 = chars s2 → s1 = s2.
Proof.
  revert s2. induction s1 as [|c s1 IH]; intros [|c2 s2]; cbn; try done.
  intros [= -> H]. f_equal. by apply IH.
Qed.

Lemma encodeURIComponent_chars s :
  Forall (λ c, Js.uri_unreserved c = true ∨ c = "%"%char)
         (chars (Js.encodeURIComponent s)).
Proof.
  induction s as [|c s IH]; [constructor|]. cbn [Js.encodeURIComponent].
  destruct (encode_char_cases c) as [[Hu _]|(Hu & _ & _ & H1 & H2 & _)]; rewrite Hu.
  - constructor; [by left|done].
  - cbn [chars]. apply Forall_cons. split; [by right|].
    apply Forall_cons. split; [by left|].
    apply Forall_cons. split; [by left|done].
Qed.

Lemma encodeURIComponent_unreserved s :
  Forall (λ c, Js.uri_unreserved c = true) (chars s) → Js.encodeURIComponent s = s.
Proof.
  induction s as [|c s IH]; [done|]. cbn [chars Js.encodeURIComponent].
  intros [Hc Hs]%Forall_cons. rewrite Hc. f_equal. by apply IH.
Qed.

Lemma encodeURIComponent_inj s1 s2 :
  Js.encodeURIComponent s1 = Js.encodeURIComponent s2 → s1 = s2.
Proof.
  revert s2. induction s1 as [|c1 s1 IH]; intros [|c2 s2]; cbn [Js.encodeURIComponent].
  - done.
  - destruct (Js.uri_unreserved c2); discriminate.
  - destruct (Js.uri_unreserved c1); discriminate.
  - destruct (encode_char_cases c1) as [[Hu1 Hp1]|(Hu1 & _ & _ & _ & _ & Hd1)];
      destruct (encode_char_cases c2) as [[Hu2 Hp2]|(Hu2 & _ & _ & _ & _ & Hd2)];
      rewrite Hu1, Hu2.
    + intros [= -> H]. f_equal. by apply IH.
    + intros [= -> _]. done.
    + intros [= <- _]. done.
    + intros [= Hhi Hlo H].
      assert (Hhi' : Js.hex_digit (nat_of_ascii c1 / 16)
                     = Js.hex_digit (nat_of_ascii c2 / 16)) by exact Hhi.
      assert (Hlo' : Js.hex_digit (nat_of_ascii c1 mod 16)
                     = Js.hex_digit (nat_of_ascii c2 mod 16)) by exact Hlo.
      assert (c1 = c2) as -> by congruence.
      f_equal. by apply IH.
Qed.

(** X5. The URL of a version lookup keeps its shape whatever the package
    name: the name fills one path segment, in which no "/", "?", "#", "&"
    or space occurs; a name of unreserved characters stands for itself;
    and two names give the same URL only if they are the same string (the
    missing name [null] being sent as the string "null"). *)
Theorem versions_url_name_segment registry name :
  ∃ segment,
    versions_url registry name
      = API_BASE +:+ "/registries/" +:+ js_value_to_string registry +:+ "/packages/"
                 +:+ segment +:+ "/version_numbers" ∧
    Forall (λ c, c ∉ ["/"; "?"; "#"; "&"; " "]%char) (chars segment) ∧
    (Forall (λ c, Js.uri_unreserved c = true) (chars (Js.of_nullable name)) →
     segment = Js.of_nullable name) ∧
    (∀ name', versions_url registry name' = versions_url registry name →
              Js.of_nullable name' = Js.of_nullable name).
Proof.
  exists (Js.encodeURIComponent (Js.of_nullable name)). split_and!.
  - reflexivity.
  - eapply Forall_impl; [apply encodeURIComponent_chars|].
    intros c [Hc| ->]; [|by_decide].
    intros Hin. repeat (apply elem_of_cons in Hin as [->|Hin]; [discriminate Hc|]).
    by apply elem_of_nil in Hin.
  - apply encodeURIComponent_unreserved.
  - intros name' H. unfold versions_url in H.
    apply encodeURIComponent_inj, chars_inj.
    apply (f_equal chars) in H. rewrite !chars_app in H.
    do 4 apply app_inv_head in H. by apply app_inv_tail in H.
Qed.

(** ** The rows [insertPackage] leaves *)

Lemma packages_after_lookup now pkg t k r :
  packages_after now pkg t !! k = Some r ↔
  (k = pkg_id pkg ∧ r = row_of now pkg) ∨
  (k ≠ pkg_id pkg ∧ t !! k = Some r ∧ ¬ collides (package_values_of pkg) r).
Proof.
  unfold packages_after. rewrite lookup_insert. case_decide as Hk.
  - subst k. split.
    + intros [= <-]. by left.
    + intros [[_ ->]|[? _]]; done.
  - rewrite map_lookup_filter_Some. cbn. split.
    + intros [? ?]. right. split; [congruence|done].
    + intros [[? _]|[_ ?]]; [congruence|done].
Qed.

(** X6. What [insertPackage] does to the other rows. A record with an
    ecosystem and a name is written at its id when no row it replaces
    under another id has child rows: a row at another id is then kept
    exactly when it does not carry the (ecosystem, name) of the record,
    and a row that does is deleted by the REPLACE policy. When such a row
    has child rows the foreign key rejects the write. *)
Theorem insertPackage_other_rows now db pkg :
  complete_record pkg →
  (replaceable pkg db →
   ∃ db',
     insertPackage now db pkg = Ok (db', pkg_id pkg) ∧
     packages db' !! pkg_id pkg = Some (row_of now pkg) ∧
     ∀ k r, k ≠ pkg_id pkg →
       (packages db' !! k = Some r ↔
        packages db !! k = Some r ∧ col_id r ≠ pkg_id pkg ∧
        (col_ecosystem r, col_name r) ≠ (pkg_ecosystem pkg, pkg_name pkg))) ∧
  (¬ replaceable pkg db →
   insertPackage now db pkg
     = Err (SqliteConstraint "FOREIGN KEY constraint failed")).
Proof.
  intros [He Hn]. split.
  - intros Hrep.
    destruct (insertPackage_ok now db pkg He Hn Hrep) as (db' & Hrun & Ht).
    exists db'. split; [exact Hrun|]. rewrite Ht. split.
    + apply packages_after_lookup. by left.
    + intros k r Hk. rewrite packages_after_lookup. unfold collides, unique_key. cbn.
      split.
      * intros [[? _]|(_ & Hr & Hc)]; [done|].
        split_and!; [done| |]; intros ?; apply Hc; auto.
      * intros (Hr & H1 & H2). right. split_and!; [done|done|]. intros [?|?]; done.
  - by apply insertPackage_foreign_key.
Qed.

(** Writing lodash leaves the row of the test package in place. *)
Lemma lodash_leaves_test_pkg :
  let db0 := written (insertPackage "2024-01-01 00:00:00" createDatabase test_pkg) in
  ∃ db',
    insertPackage "2024-01-02 00:00:00" db0 lodash = Ok (db', 1) ∧
    packages db' !! 999 = Some (row_of "2024-01-01 00:00:00" test_pkg).
Proof.
  intros db0.
  destruct (insertPackage_other_rows "2024-01-02 00:00:00" db0 lodash) as [Hok _];
    [split; by eexists|].
  destruct Hok as (db' & H1 & _ & Hrows); [apply replaceable_orphans; by_decide|].
  exists db'. split; [exact H1|].
  apply Hrows; [done|]. split_and!.
  - vm_compute. reflexivity.
  - cbn. discriminate.
  - cbn. discriminate.
Defined.

Lemma referenced_frame id db db' :
  versions db' = versions db → advisories db' = advisories db →
  repo_metadata db' = repo_metadata db →
  referenced id db' ↔ referenced id db.
Proof. unfold referenced. by intros -> -> ->. Qed.

(** X7. [insertPackage] keeps the constraints of the schema: if every
    row of [packages] sits at its id, (ecosystem, name) is unique, neither
    is null and every child row has its package, the same holds after a
    record with an ecosystem and a name is written that replaces no row
    with child rows under another id. *)
Theorem insertPackage_keeps_constraints now db pkg :
  packages_wf db → references_ok db →
  complete_record pkg → replaceable pkg db →
  ∃ db',
    insertPackage now db pkg = Ok (db', pkg_id pkg) ∧
    packages_wf db' ∧ references_ok db'.
Proof.
  intros (Hk & Hu & Hnn) Hfk [He Hn] Hrep.
  destruct (insertPackage_ok now db pkg He Hn Hrep) as (db' & Hrun & Ht).
  exists db'. split; [exact Hrun|].
  destruct (insertPackage_frame _ _ _ _ _ Hrun) as (_ & Hv & Ha & _ & Hr & _).
  split.
  - unfold packages_wf, packages_keyed. rewrite Ht. split_and!.
    + intros k r [[-> ->]|(_ & Hr' & _)]%packages_after_lookup; [done|by apply Hk].
    + intros k1 k2 r1 r2 H1%packages_after_lookup H2%packages_after_lookup Hkey.
      destruct H1 as [[-> ->]|(Hk1 & Hr1 & Hc1)];
        destruct H2 as [[-> ->]|(Hk2 & Hr2 & Hc2)].
      * done.
      * exfalso. apply Hc2. right. by rewrite <- Hkey.
      * exfalso. apply Hc1. right. by rewrite Hkey.
      * by apply (Hu _ _ _ _ Hr1 Hr2).
    + intros k r [[-> ->]|(_ & Hr' & _)]%packages_after_lookup;
        [done|by apply (Hnn _ _ Hr')].
  - intros id Href. apply (referenced_frame id db db' Hv Ha Hr) in Href.
    destruct (Hfk id Href) as [r Hrow]. rewrite Ht.
    destruct (decide (id = pkg_id pkg)) as [->|Hne].
    + exists (row_of now pkg). apply packages_after_lookup. by left.
    + exists r. apply packages_after_lookup. right. split_and!; [done|done|].
      intros Hc. apply (Hrep id r Hrow Hne); [|done].
      destruct Hc as [Hc|Hc]; [by left|right]. exact Hc.
Qed.

Lemma createDatabase_packages_wf : packages_wf createDatabase.
Proof.
  unfold packages_wf, packages_keyed. cbn.
  split_and!; intros *; rewrite lookup_empty; done.
Qed.

Lemma createDatabase_references_ok : references_ok createDatabase.
Proof.
  intros id [H|[H|H]]; cbn in H.
  - rewrite elements_empty in H. by apply Exists_nil in H.
  - by apply Exists_nil in H.
  - rewrite lookup_empty in H. by destruct H.
Qed.

(** The first row of a new database. *)
Lemma test_pkg_keeps_constraints :
  ∃ db', insertPackage "2024-01-01 00:00:00" createDatabase test_pkg = Ok (db', 999) ∧
         packages_wf db' ∧ references_ok db'.
Proof.
  apply (insertPackage_keeps_constraints "2024-01-01 00:00:00" createDatabase test_pkg).
  - exact createDatabase_packages_wf.
  - exact createDatabase_references_ok.
  - split; by eexists.
  - apply replaceable_createDatabase.
Defined.

(** ** Repository metadata *)

(** X8. [insertRepoMetadata]: without repository metadata nothing is
    written, so a row written earlier for the package stays. With
    metadata, a package the store does not hold is rejected by the foreign
    key; for a package it holds, the row of the package holds the fields
    of the record, the name of the host ([null] without a host) and the
    flags as 1 for [true] and 0 for [false] and [null]; it replaces an
    earlier row of the package wholesale; and no other row and no other
    table changes. *)
Theorem insertRepoMetadata_spec db packageId host :
  insertRepoMetadata db packageId None host = Ok db ∧
  ∀ rm,
    (packages db !! packageId = None →
     insertRepoMetadata db packageId (Some rm) host
       = Err (SqliteConstraint "FOREIGN KEY constraint failed")) ∧
    (is_Some (packages db !! packageId) →
     ∃ db',
       insertRepoMetadata db packageId (Some rm) host = Ok db' ∧
       repo_metadata db' !! packageId =
         Some {| rr_owner := rm_owner rm; rr_repo_name := rm_name rm;
                 rr_full_name := rm_full_name rm;
                 rr_host := match host with Some h => host_name h | None => None end;
                 rr_language := rm_language rm;
                 rr_stargazers_count := rm_stargazers_count rm;
                 rr_forks_count := rm_forks_count rm;
                 rr_open_issues_count := rm_open_issues_count rm;
                 rr_archived := if decide (rm_archived rm = Some true) then 1 else 0;
                 rr_fork := if decide (rm_fork rm = Some true) then 1 else 0 |} ∧
       (∀ q, q ≠ packageId → repo_metadata db' !! q = repo_metadata db !! q) ∧
       (∀ rm0 host0 db0,
          insertRepoMetadata db packageId (Some rm0) host0 = Ok db0 →
          ∃ db1, insertRepoMetadata db0 packageId (Some rm) host = Ok db1 ∧
                 repo_metadata db1 = repo_metadata db') ∧
       packages db' = packages db ∧ versions db' = versions db ∧
       advisories db' = advisories db ∧ packages_fts db' = packages_fts db ∧
       build_info db' = build_info db).
Proof.
  split; [reflexivity|]. intros rm. split.
  - intros Hnone. unfold insertRepoMetadata, sql_insert_or_replace_repo_metadata.
    by rewrite foreign_key_fails.
  - intros Hparent. unfold insertRepoMetadata, sql_insert_or_replace_repo_metadata.
    rewrite foreign_key_ok by done. cbn [mbind result_bind].
    eexists. split; [reflexivity|]. split_and!; try reflexivity.
    + cbn. rewrite lookup_insert_eq. f_equal.
      destruct host as [h|]; destruct (rm_archived rm) as [[]|];
        destruct (rm_fork rm) as [[]|]; reflexivity.
    + intros q Hq. cbn. by rewrite lookup_insert_ne.
    + intros rm0 host0 db0 [= <-].
      rewrite foreign_key_ok by (cbn; done). cbn [mbind result_bind].
      eexists. split; [reflexivity|]. cbn. by rewrite insert_insert_eq.
Qed.

(** Repository metadata of lodash: written on a store that holds lodash,
    rejected on the empty store. *)
Lemma lodash_repo_metadata_written :
  let rm := {| rm_owner := Some "lodash"; rm_name := Some "lodash";
               rm_full_name := Some "lodash/lodash";
               rm_language := Some "JavaScript";
               rm_stargazers_count := Some 58000; rm_forks_count := None;
               rm_open_issues_count := None;
               rm_archived := Some false; rm_fork := None |} in
  let host := Some {| host_name := Some "GitHub" |} in
  let db := written (insertPackage "2024-01-01 00:00:00" createDatabase lodash) in
  (∃ db',
     insertRepoMetadata db 1 (Some rm) host = Ok db' ∧
     rr_host <$> repo_metadata db' !! 1 = Some (Some "GitHub") ∧
     rr_archived <$> repo_metadata db' !! 1 = Some 0 ∧
     rr_fork <$> repo_metadata db' !! 1 = Some 0) ∧
  insertRepoMetadata createDatabase 1 (Some rm) host
    = Err (SqliteConstraint "FOREIGN KEY constraint failed").
Proof.
  intros rm host db. split.
  - destruct (insertRepoMetadata_spec db 1 host) as [_ H].
    destruct (H rm) as [_ Hok].
    destruct Hok as (db' & Hrun & Hrow & _); [by eexists|].
    exists db'. split; [exact Hrun|]. rewrite Hrow. split_and!; reflexivity.
  - destruct (insertRepoMetadata_spec createDatabase 1 host) as [_ H].
    destruct (H rm) as [Hfk _]. by apply Hfk.
Defined.

(** ** The advisories of a batch *)

Lemma insertAdvisories_ok db pid advisories :
  is_Some (packages db !! pid) →
  ∃ db', insertAdvisories db pid advisories = Ok db'.
Proof.
  intros Hparent. unfold insertAdvisories. destruct advisories as [l|]; [|by eexists].
  destruct (Nat.eqb _ _); [by eexists|].
  destruct (insertAdvisories_loop_ok pid l db Hparent) as (db' & -> & _). by eexists.
Qed.

Lemma last_with_uuid_cons x l a :
  last_with_uuid (x :: l) a ↔
  last_with_uuid l a ∨ (a = x ∧ adv_uuid a ∉ adv_uuid <$> l).
Proof.
  unfold last_with_uuid. split.
  - intros (l1 & l2 & Hl & Hu). destruct l1 as [|y l1]; simplify_eq/=.
    + by right.
    + left. by exists l1, l2.
  - intros [(l1 & l2 & -> & Hu)|[-> Hu]].
    + by exists (x :: l1), l2.
    + by exists [], l.
Qed.

Lemma elem_of_foldl_replace_by_uuid l : ∀ ds a,
  a ∈ foldl replace_by_uuid ds l ↔
  last_with_uuid l a ∨ (a ∈ ds ∧ adv_uuid a ∉ adv_uuid <$> l).
Proof.
  induction l as [|x l IH]; intros ds a; cbn [foldl].
  - rewrite fmap_nil. split.
    + intros H. right. split; [done|]. apply not_elem_of_nil.
    + intros [(l1 & l2 & Hl & _)|[H _]]; [|done]. by destruct l1.
  - rewrite IH, last_with_uuid_cons, elem_of_replace_by_uuid, fmap_cons, not_elem_of_cons.
    tauto.
Qed.

Lemma insertAdvisories_last_entry_wins_run db packageId advisories db' :
  select_advisories_by_package packageId db = [] →
  is_Some (packages db !! packageId) →
  insertAdvisories db packageId advisories = Ok db' →
  (∀ a, a ∈ persisted packageId db' ↔
        last_with_uuid (uuid_bearing_entries (default [] advisories)) a) ∧
  (∀ q, q ≠ packageId → persisted q db' = persisted q db).
Proof.
  intros Hempty Hparent Hrun.
  assert (Hstart : persisted packageId db = [])
    by (unfold persisted; by rewrite Hempty).
  unfold insertAdvisories in Hrun. destruct advisories as [l|]; cbn [default].
  - destruct (insertAdvisories_loop_ok packageId l db Hparent)
      as (db1 & Hloop & _ & Hp & Hq).
    assert (db' = db1) as ->.
    { destruct l as [|x l]; cbn in Hrun, Hloop; congruence. }
    split; [|exact Hq]. intros a. rewrite Hp, Hstart, elem_of_foldl_replace_by_uuid.
    split; [intros [H|[H _]]; [done|by apply elem_of_nil in H] | by left].
  - injection Hrun as <-. split; [|done]. intros a. rewrite Hstart. split.
    + by intros H%elem_of_nil.
    + intros (l1 & l2 & Hl & _). by destruct l1.
Qed.

(** X9. Among the entries of a batch that share a uuid the last one is
    the one persisted: for a package the store holds, without advisories
    in the store, [insertAdvisories] succeeds and an advisory is persisted
    exactly when it is a uuid-bearing entry of the batch that no later
    entry repeats the uuid of; the advisories of the other packages stay
    as they are. *)
Theorem insertAdvisories_last_entry_wins db packageId advisories :
  is_Some (packages db !! packageId) →
  select_advisories_by_package packageId db = [] →
  ∃ db',
    insertAdvisories db packageId advisories = Ok db' ∧
    (∀ a, a ∈ persisted packageId db' ↔
          last_with_uuid (uuid_bearing_entries (default [] advisories)) a) ∧
    (∀ q, q ≠ packageId → persisted q db' = persisted q db).
Proof.
  intros Hparent Hempty.
  destruct (insertAdvisories_ok db packageId advisories Hparent) as [db' Hrun].
  exists db'. split; [exact Hrun|]. by apply insertAdvisories_last_entry_wins_run.
Qed.

(** An advisory of the test package listed as LOW and later as CRITICAL
    is persisted as CRITICAL. *)
Lemma later_advisory_replaces_earlier :
  let db := written (insertPackage "2024-01-01 00:00:00" createDatabase test_pkg) in
  ∃ db',
    insertAdvisories db 999
      (Some [Some (ghsa "GHSA-1" "LOW"); Some (ghsa "GHSA-2" "HIGH");
             Some (ghsa "GHSA-1" "CRITICAL")]) = Ok db' ∧
    ghsa "GHSA-1" "CRITICAL" ∈ persisted 999 db' ∧
    ghsa "GHSA-1" "LOW" ∉ persisted 999 db'.
Proof.
  intros db.
  destruct (insertAdvisories_last_entry_wins db 999
              (Some [Some (ghsa "GHSA-1" "LOW"); Some (ghsa "GHSA-2" "HIGH");
                     Some (ghsa "GHSA-1" "CRITICAL")]))
    as (db' & Hrun & Hmem & _); [by eexists|reflexivity|].
  exists db'. split; [exact Hrun|]. split.
  - apply Hmem. exists [ghsa "GHSA-1" "LOW"; ghsa "GHSA-2" "HIGH"], [].
    split; [reflexivity|]. apply not_elem_of_nil.
  - intros H. apply Hmem in H as (l1 & l2 & Hl & Hu).
    destruct l1 as [|x1 [|x2 [|x3 l1]]]; cbn in Hl.
    + injection Hl as <-. apply Hu. cbn. right. left.
    + injection Hl as _ Hl. discriminate Hl.
    + injection Hl as _ _ Hl. discriminate Hl.
    + injection Hl as _ _ _ Hl. by destruct l1.
Defined.

Lemma max_rowid_bound rows : Forall (λ r, arow_id r ≤ max_rowid rows) rows.
Proof.
  induction rows as [|r rows IH]; [constructor|]. cbn [max_rowid foldr].
  constructor; [lia|]. eapply Forall_impl; [exact IH|]. cbn. intros; unfold max_rowid in *. lia.
Qed.

Lemma Forall_filter_keep {A} {Q P : A → Prop} `{∀ x, Decision (P x)} (l : list A) :
  Forall Q l → Forall Q (filter P l).
Proof.
  rewrite !Forall_forall. intros HQ x Hx%list_elem_of_filter. apply HQ, Hx.
Qed.

Lemma StronglySorted_filter {A} {R : relation A} {P : A → Prop} `{∀ x, Decision (P x)} l :
  StronglySorted R l → StronglySorted R (filter P l).
Proof.
  induction 1 as [|x l Hs IH Hx]; [constructor|].
  rewrite filter_cons. destruct (decide (P x)); [|done].
  constructor; [done|]. by apply Forall_filter_keep.
Qed.

Lemma sql_insert_or_replace_advisories_wf pid a db db' :
  advisories_wf db → sql_insert_or_replace_advisories pid a db = Ok db' →
  advisories_wf db' ∧ advisories_seq db < advisories_seq db'.
Proof.
  intros (Hs & Hb & Hn & Hu). unfold sql_insert_or_replace_advisories.
  case_bool_decide as Hnull; [discriminate|].
  destruct (foreign_key pid db) as [[]|]; [|discriminate].
  cbn [mbind result_bind]. intros [= <-].
  pose proof (max_rowid_bound (advisories db)) as Hmax.
  split; [|cbn; lia]. unfold advisories_wf. cbn. split_and!.
  - apply StronglySorted_app_2.
    + intros r1 r2 Hr1%list_elem_of_filter Hr2%list_elem_of_singleton. subst r2. cbn.
      destruct Hr1 as [_ Hr1]. rewrite Forall_forall in Hmax.
      specialize (Hmax _ Hr1). lia.
    + by apply StronglySorted_filter.
    + repeat constructor.
  - apply Forall_app. split.
    + apply Forall_filter_keep. eapply Forall_impl; [exact Hb|]. cbn. intros; lia.
    + constructor; [|constructor]. cbn.
      assert (0 ≤ max_rowid (advisories db)).
      { unfold max_rowid. clear. induction (advisories db); cbn; lia. }
      lia.
  - rewrite fmap_app. apply NoDup_app. split_and!.
    + apply (sublist_NoDup _ (advisory_key <$> advisories db)); [exact Hn|].
      apply fmap_sublist, sublist_filter.
    + intros k Hk Hk'. apply list_elem_of_singleton in Hk'. subst k.
      apply list_elem_of_fmap in Hk as (r & Hkey & Hr%list_elem_of_filter).
      destruct Hr as [Hr _]. apply Hr. unfold advisory_key in Hkey. cbn in Hkey.
      injection Hkey as Hp Huu. split; congruence.
    + apply NoDup_singleton.
  - apply Forall_app. split; [by apply Forall_filter_keep|].
    constructor; [|constructor]. cbn. by apply not_eq_None_Some.
Qed.

Lemma insertAdvisories_loop_wf pid : ∀ l db db',
  advisories_wf db → insertAdvisories_loop db pid l = Ok db' →
  advisories_wf db' ∧ advisories_seq db ≤ advisories_seq db'.
Proof.
  induction l as [|[a|] l IH]; intros db db' Hwf; cbn [insertAdvisories_loop].
  - intros [= <-]. split; [done|lia].
  - destruct (uuid_bearing (Some a)); [|by apply IH].
    destruct (sql_insert_or_replace_advisories pid a db) as [db1|] eqn:E; [|discriminate].
    cbn [mbind result_bind]. intros Hrun.
    destruct (sql_insert_or_replace_advisories_wf _ _ _ _ Hwf E) as [Hwf1 Hlt].
    destruct (IH _ _ Hwf1 Hrun) as [Hwf' Hle]. split; [done|lia].
  - by apply IH.
Qed.

Lemma insertAdvisories_keeps_constraints_run db packageId advisories db' :
  advisories_wf db →
  insertAdvisories db packageId advisories = Ok db' →
  advisories_wf db' ∧ advisories_seq db ≤ advisories_seq db'.
Proof.
  intros Hwf. unfold insertAdvisories. destruct advisories as [l|].
  - destruct (Nat.eqb (length l) 0).
    + intros [= <-]. split; [done|lia].
    + by apply insertAdvisories_loop_wf.
  - intros [= <-]. split; [done|lia].
Qed.

Lemma createDatabase_advisories_wf : advisories_wf createDatabase.
Proof. unfold advisories_wf. cbn. split_and!; constructor. Qed.

(** The rows the loop leaves are rows there were or rows of the
    package. *)
Lemma insertAdvisories_loop_rows pid : ∀ l db db',
  insertAdvisories_loop db pid l = Ok db' →
  ∀ r, r ∈ advisories db' → r ∈ advisories db ∨ arow_package_id r = pid.
Proof.
  induction l as [|[a|] l IH]; intros db db'; cbn [insertAdvisories_loop].
  - intros [= <-] r Hr. by left.
  - destruct (uuid_bearing (Some a)); [|by apply IH].
    destruct (sql_insert_or_replace_advisories pid a db) as [db1|] eqn:E; [|discriminate].
    cbn [mbind result_bind]. intros Hrun r Hr.
    destruct (IH _ _ Hrun r Hr) as [H1|H1]; [|by right].
    unfold sql_insert_or_replace_advisories in E.
    case_bool_decide; [discriminate|].
    destruct (foreign_key pid db) as [[]|]; [|discriminate].
    cbn [mbind result_bind] in E. injection E as <-. cbn in H1.
    apply elem_of_app in H1 as [H1|H1].
    + left. by apply list_elem_of_filter in H1 as [_ H1].
    + right. apply list_elem_of_singleton in H1. by subst r.
  - by apply IH.
Qed.

(** X10. [insertAdvisories] keeps the constraints of the schema: for a
    package the store holds it succeeds; the rowids of [advisories] grow
    along the table and stay within the AUTOINCREMENT counter,
    (package_id, uuid) stays unique and no uuid is null; every child row
    still has its package; and the counter never goes back, so a rowid is
    not handed out twice. *)
Theorem insertAdvisories_keeps_constraints db packageId entries :
  advisories_wf db → references_ok db →
  is_Some (packages db !! packageId) →
  ∃ db',
    insertAdvisories db packageId entries = Ok db' ∧
    advisories_wf db' ∧ references_ok db' ∧
    advisories_seq db ≤ advisories_seq db'.
Proof.
  intros Hwf Hfk Hparent.
  destruct (insertAdvisories_ok db packageId entries Hparent) as [db' Hrun].
  exists db'. split; [exact Hrun|].
  destruct (insertAdvisories_keeps_constraints_run _ _ _ _ Hwf Hrun) as [Hwf' Hseq].
  split; [exact Hwf'|]. split; [|exact Hseq].
  destruct (insertAdvisories_frame _ _ _ _ Hrun) as (Hp & _ & Hv & Hr & _).
  assert (Hrows : ∀ r, r ∈ advisories db' →
            r ∈ advisories db ∨ arow_package_id r = packageId).
  { unfold insertAdvisories in Hrun. destruct entries as [l|].
    - destruct (Nat.eqb (length l) 0).
      + injection Hrun as <-. intros r Hr'. by left.
      + by apply insertAdvisories_loop_rows with l.
    - injection Hrun as <-. intros r Hr'. by left. }
  intros id. rewrite Hp, !referenced_spec, Hv, Hr.
  intros [H|[(r & Hin & Hid)|H]].
  - apply Hfk, referenced_spec. by left.
  - destruct (Hrows r Hin) as [Hold|Hnew].
    + apply Hfk, referenced_spec. right. left. by exists r.
    + by rewrite <- Hid, Hnew.
  - apply Hfk, referenced_spec. by right; right.
Qed.

(** A batch with a repeated uuid, written for the test package. *)
Lemma repeated_uuid_keeps_constraints :
  let db := written (insertPackage "2024-01-01 00:00:00" createDatabase test_pkg) in
  ∃ db',
    insertAdvisories db 999
      (Some [Some (ghsa "GHSA-1" "LOW"); Some (ghsa "GHSA-1" "CRITICAL")]) = Ok db' ∧
    advisories_wf db' ∧ references_ok db'.
Proof.
  intros db.
  destruct (insertAdvisories_keeps_constraints db 999
              (Some [Some (ghsa "GHSA-1" "LOW"); Some (ghsa "GHSA-1" "CRITICAL")]))
    as (db' & Hrun & Hwf & Hfk & _).
  - unfold advisories_wf. cbn. split_and!; constructor.
  - intros id [H|[H|H]]; vm_compute in H.
    + by apply Exists_nil in H.
    + by apply Exists_nil in H.
    + by destruct H as [? ?].
  - by eexists.
  - exists db'. split; [exact Hrun|]. split; [exact Hwf|exact Hfk].
Defined.

(** ** Version rows *)

Lemma database_eq (d1 d2 : database) :
  journal_mode d1 = journal_mode d2 → recursive_triggers d1 = recursive_triggers d2 →
  packages d1 = packages d2 → versions d1 = versions d2 →
  advisories d1 = advisories d2 → advisories_seq d1 = advisories_seq d2 →
  repo_metadata d1 = repo_metadata d2 → packages_fts d1 = packages_fts d2 →
  build_info d1 = build_info d2 → d1 = d2.
Proof. destruct d1, d2; cbn; intros; by subst. Qed.

(** The loop over version strings, for a package the store holds. *)
Lemma insertVersions_loop_strings pid : ∀ (numbers : list string) db,
  is_Some (packages db !! pid) →
  ∃ db', insertVersions_loop db pid (Some <$> numbers) = Ok db' ∧
         versions db' = list_to_set ((λ n, (pid, n)) <$> numbers) ∪ versions db.
Proof.
  induction numbers as [|n numbers IH]; intros db Hparent.
  - exists db. split; [done|]. cbn. by rewrite (left_id_L ∅ (∪)).
  - cbn [fmap list_fmap insertVersions_loop sql_insert_or_replace_versions].
    rewrite foreign_key_ok by done. cbn [mbind result_bind].
    destruct (IH (set_versions ({[(pid, n)]} ∪ versions db) db)) as (db' & -> & Hv);
      [done|].
    exists db'. split; [done|]. rewrite Hv. cbn [list_to_set versions set_versions].
    rewrite (assoc_L (∪)). f_equal. apply (comm_L (∪)).
Qed.

Lemma insertVersions_strings db pid (numbers : list string) :
  is_Some (packages db !! pid) →
  ∃ db', insertVersions db pid (json_strings numbers) = Ok db' ∧
         versions db' = list_to_set ((λ n, (pid, n)) <$> numbers) ∪ versions db.
Proof.
  intros Hparent. unfold insertVersions, json_strings. destruct numbers as [|n numbers].
  - exists db. split; [done|]. cbn. by rewrite (left_id_L ∅ (∪)).
  - cbn [fmap list_fmap length Nat.eqb].
    by apply (insertVersions_loop_strings pid (n :: numbers)).
Qed.

(** The first entry is rejected when the store does not hold the
    package. *)
Lemma insertVersions_loop_foreign_key pid l db :
  packages db !! pid = None → l ≠ [] →
  ∃ msg, insertVersions_loop db pid l = Err (SqliteConstraint msg).
Proof.
  intros Hparent Hl. destruct l as [|[n|] l]; [done| |]; cbn; [|by eexists].
  rewrite foreign_key_fails by done. by eexists.
Qed.

(** A [null] entry is rejected. *)
Lemma insertVersions_loop_null pid : ∀ l db,
  None ∈ l → ∃ msg, insertVersions_loop db pid l = Err (SqliteConstraint msg).
Proof.
  induction l as [|x l IH]; intros db Hin; [by apply elem_of_nil in Hin|].
  cbn [insertVersions_loop]. destruct x as [n|]; [|by eexists].
  apply elem_of_cons in Hin as [Hin|Hin]; [done|].
  unfold sql_insert_or_replace_versions, foreign_key.
  case_bool_decide; cbn [mbind result_bind]; [by apply IH|by eexists].
Qed.

(** X11. [insertVersions]: [null] and the empty array write nothing. An
    array of version strings, for a package the store holds, adds the
    pairs of the package id with each of the strings to [versions] and
    leaves the pairs there are; a string listed twice, or written before,
    gives one row, so running it again changes nothing; no other table
    changes. For a package the store does not hold a non-empty array is
    rejected by the foreign key, and an array with a [null] entry is
    rejected in any case. *)
Theorem insertVersions_spec db packageId (numbers : list string) :
  insertVersions db packageId JsonNull = Ok db ∧
  insertVersions db packageId (JsonArray []) = Ok db ∧
  (is_Some (packages db !! packageId) →
   ∃ db',
     insertVersions db packageId (json_strings numbers) = Ok db' ∧
     versions db' = list_to_set ((λ n, (packageId, n)) <$> numbers) ∪ versions db ∧
     (∀ q n, (q, n) ∈ versions db' ↔
             (q = packageId ∧ n ∈ numbers) ∨ (q, n) ∈ versions db) ∧
     insertVersions db' packageId (json_strings numbers) = Ok db' ∧
     packages db' = packages db ∧ advisories db' = advisories db ∧
     repo_metadata db' = repo_metadata db ∧ packages_fts db' = packages_fts db ∧
     build_info db' = build_info db) ∧
  (packages db !! packageId = None → numbers ≠ [] →
   ∃ msg, insertVersions db packageId (json_strings numbers)
            = Err (SqliteConstraint msg)) ∧
  (∀ entries, None ∈ entries →
     ∃ msg, insertVersions db packageId (JsonArray entries)
              = Err (SqliteConstraint msg)).
Proof.
  split_and!; try reflexivity.
  - intros Hparent.
    destruct (insertVersions_strings db packageId numbers Hparent) as (db' & Hrun & Hv).
    destruct (insertVersions_frame _ _ _ _ Hrun) as (Hp & Ha & Hs & Hr & Hf & Hb).
    exists db'. split; [exact Hrun|]. split; [exact Hv|]. split_and!; try done.
    + intros q n. rewrite Hv, elem_of_union, elem_of_list_to_set, list_elem_of_fmap.
      split.
      * intros [(m & [= -> ->] & Hm)|H]; [left|right]; done.
      * intros [[-> Hn]|H]; [left|right]; [|done]. by exists n.
    + destruct (insertVersions_strings db' packageId numbers) as (db2 & Hrun2 & Hv2);
        [by rewrite Hp|].
      rewrite Hrun2. f_equal.
      destruct (insertVersions_frame _ _ _ _ Hrun2) as (Hp2 & Ha2 & Hs2 & Hr2 & Hf2 & Hb2).
      assert (Hv3 : versions db2 = versions db').
      { rewrite Hv2, Hv, (assoc_L (∪)). f_equal. apply (idemp_L (∪)). }
      assert (Hj : journal_mode db2 = journal_mode db' ∧
                   recursive_triggers db2 = recursive_triggers db').
      { clear -Hrun2. unfold insertVersions, json_strings in Hrun2.
        destruct (Nat.eqb _ _); [by injection Hrun2 as <-|].
        revert db' Hrun2. generalize (Some <$> numbers). intros l.
        induction l as [|x l IH]; intros d; cbn [insertVersions_loop].
        - by intros [= <-].
        - unfold sql_insert_or_replace_versions. destruct x as [n|]; [|discriminate].
          destruct (foreign_key packageId d) as [[]|]; [|discriminate].
          cbn [mbind result_bind]. intros H. by destruct (IH _ H) as [-> ->]. }
      destruct Hj as [Hj1 Hj2]. by apply database_eq.
  - intros Hparent Hn. unfold insertVersions, json_strings.
    destruct numbers as [|n numbers]; [done|]. cbn [fmap list_fmap length Nat.eqb].
    by apply insertVersions_loop_foreign_key.
  - intros entries Hin. unfold insertVersions. destruct entries as [|x l].
    + by apply elem_of_nil in Hin.
    + cbn [length Nat.eqb]. by apply insertVersions_loop_null.
Qed.

(** Three version numbers of lodash, one repeated: two rows on a store
    that holds lodash, and a rejected write on the empty store. *)
Lemma lodash_versions_written :
  let db := written (insertPackage "2024-01-01 00:00:00" createDatabase lodash) in
  (∃ db',
     insertVersions db 1 (json_strings ["4.17.21"; "4.17.21"; "4.17.20"]) = Ok db' ∧
     versions db' = {[ (1, "4.17.21"); (1, "4.17.20") ]}) ∧
  (∃ msg, insertVersions createDatabase 1 (json_strings ["4.17.21"])
            = Err (SqliteConstraint msg)).
Proof.
  intros db. split.
  - destruct (insertVersions_spec db 1 ["4.17.21"; "4.17.21"; "4.17.20"])
      as (_ & _ & Hok & _).
    destruct Hok as (db' & Hrun & Hv & _); [by eexists|].
    exists db'. split; [exact Hrun|]. rewrite Hv. by_decide.
  - destruct (insertVersions_spec createDatabase 1 ["4.17.21"]) as (_ & _ & _ & Hfk & _).
    by apply Hfk.
Defined.

(** ** The triggers of the search index *)

(** X12. The three triggers of [createDatabase] keep the search index in
    step with [packages]: from a store whose index holds one document per
    row, a plain INSERT, a DELETE by id and an UPDATE of description and
    keywords lead to such a store again, and so does INSERT OR REPLACE
    when recursive triggers are on or when the new row collides with no
    row. *)
Theorem triggers_keep_index db :
  packages_keyed db → fts_consistent db →
  (∀ now v db', sql_insert_packages now v db = Ok db' →
                packages_keyed db' ∧ fts_consistent db') ∧
  (∀ id, packages_keyed (sql_delete_packages id db) ∧
         fts_consistent (sql_delete_packages id db)) ∧
  (∀ id description keywords,
     packages_keyed (sql_update_packages id description keywords db) ∧
     fts_consistent (sql_update_packages id description keywords db)) ∧
  (∀ now v db', sql_insert_or_replace_packages now v db = Ok db' →
     recursive_triggers db = true ∨
     filter (λ kr : Z * package_row, collides v kr.2) (packages db) = ∅ →
     packages_keyed db' ∧ fts_consistent db').
Proof.
  intros Hk Hc. split_and!.
  - intros now v db'. by apply sql_insert_packages_consistent.
  - intros id. by apply sql_delete_packages_consistent.
  - intros id d k. by apply sql_update_packages_consistent.
  - intros now v db' Hrun Hcase. split.
    + by eapply sql_insert_or_replace_packages_keyed.
    + destruct Hcase as [Hrt|Hnone].
      * by eapply sql_insert_or_replace_packages_recursive.
      * by eapply sql_insert_or_replace_packages_fresh.
Qed.

(** The test package inserted, then updated, or deleted. *)
Lemma test_pkg_statements_keep_index :
  ∃ db1,
    sql_insert_packages "2024-01-01 00:00:00" (package_values_of test_pkg) createDatabase
      = Ok db1 ∧
    fts_consistent db1 ∧
    fts_consistent (sql_update_packages 999 (Some "changed") None db1) ∧
    fts_consistent (sql_delete_packages 999 db1).
Proof.
  destruct (triggers_keep_index createDatabase createDatabase_keyed
              createDatabase_consistent) as (Hins & _).
  destruct (sql_insert_packages "2024-01-01 00:00:00" (package_values_of test_pkg)
              createDatabase) as [db1|e] eqn:E; [|vm_compute in E; discriminate E].
  destruct (Hins _ _ _ E) as [Hk1 Hc1].
  destruct (triggers_keep_index db1 Hk1 Hc1) as (_ & Hdel & Hupd & _).
  exists db1. split; [reflexivity|]. split; [exact Hc1|].
  split; [apply Hupd|apply Hdel].
Defined.

(** ** The transaction of [insertAll] *)

Lemma collides_row_of now p q :
  collides (package_values_of q) (row_of now p) ↔ pkg_collides p q.
Proof. reflexivity. Qed.

Lemma catalog_distinct_cons p pkgs :
  catalog_distinct (p :: pkgs) →
  Forall (λ q, ¬ pkg_collides p q) pkgs ∧ catalog_distinct pkgs.
Proof.
  intros [H1 H2]. rewrite fmap_cons in H1. rewrite fmap_cons in H2.
  apply NoDup_cons in H1 as [Hi1 H1]. apply NoDup_cons in H2 as [Hi2 H2].
  split; [|by split]. apply Forall_forall. intros q Hq [Hc|Hc].
  - apply Hi1. rewrite Hc. apply list_elem_of_fmap. by exists q.
  - apply Hi2. rewrite Hc. apply list_elem_of_fmap. by exists q.
Qed.

Lemma insertPackage_fresh now db pkg db' id :
  packages_keyed db → fts_consistent db →
  (∀ k r, packages db !! k = Some r → ¬ collides (package_values_of pkg) r) →
  insertPackage now db pkg = Ok (db', id) →
  packages_keyed db' ∧ fts_consistent db' ∧
  packages db' = <[pkg_id pkg := row_of now pkg]> (packages db).
Proof.
  intros Hk Hc Hfree H.
  assert (Hnone : filter (λ kr : Z * package_row, collides (package_values_of pkg) kr.2)
                    (packages db) = ∅).
  { apply map_eq. intros k. rewrite lookup_empty. apply map_lookup_filter_None.
    right. intros r Hr. by apply Hfree in Hr. }
  pose proof H as Hinv. apply insertPackage_inv in Hinv as (_ & _ & _ & Ht).
  unfold insertPackage in H.
  destruct (sql_insert_or_replace_packages now (package_values_of pkg) db)
    as [d|] eqn:E; [|discriminate].
  cbn in H. injection H as -> _. split_and!.
  - by apply (sql_insert_or_replace_packages_keyed _ _ _ _ Hk E).
  - by apply (sql_insert_or_replace_packages_fresh _ _ _ _ Hk Hc Hnone E).
  - rewrite Ht. unfold packages_after. by rewrite no_collision_survivors.
Qed.

(** A record that collides with no row replaces none. *)
Lemma replaceable_fresh pkg db :
  (∀ k r, packages db !! k = Some r → ¬ collides (package_values_of pkg) r) →
  replaceable pkg db.
Proof.
  intros Hfree k r Hr _ Hc. exfalso. apply (Hfree k r Hr).
  destruct Hc as [Hc|Hc]; [by left|right]. exact Hc.
Qed.

Lemma insertAll_distinct c : ∀ pkgs i db,
  packages_keyed db → fts_consistent db →
  (∀ k r, packages db !! k = Some r →
          Forall (λ q, ¬ collides (package_values_of q) r) pkgs) →
  catalog_distinct pkgs → Forall complete_record pkgs →
  ∃ db',
    insertAll c i pkgs db = Ok db' ∧
    packages_keyed db' ∧ fts_consistent db' ∧
    (∀ j p, pkgs !! j = Some p →
            packages db' !! pkg_id p = Some (row_of (current_timestamp c (i + j)) p)) ∧
    (∀ k, k ∉ pkg_id <$> pkgs → packages db' !! k = packages db !! k).
Proof.
  induction pkgs as [|p pkgs IH]; intros i db Hk Hc Hfree Hd Hall; cbn [insertAll].
  - exists db. split_and!; try done.
  - apply catalog_distinct_cons in Hd as [Hp Hd].
    apply Forall_cons in Hall as [[He Hn] Hall].
    assert (Hfree1 : ∀ k r, packages db !! k = Some r →
                            ¬ collides (package_values_of p) r).
    { intros k r Hr. specialize (Hfree k r Hr). by apply Forall_cons in Hfree as [? _]. }
    destruct (insertPackage_ok (current_timestamp c i) db p He Hn
                (replaceable_fresh p db Hfree1)) as (db1 & E1 & _).
    rewrite E1. cbn [mbind result_bind].
    destruct (insertPackage_fresh _ _ _ _ _ Hk Hc Hfree1 E1) as (Hk1 & Hc1 & Ht1).
    assert (Hparent1 : is_Some (packages db1 !! pkg_id p))
      by (rewrite Ht1, lookup_insert_eq; eauto).
    destruct (insertRepoMetadata db1 (pkg_id p) (pkg_repo_metadata p) (pkg_host p))
      as [db2|e] eqn:E2.
    2:{ exfalso. unfold insertRepoMetadata, sql_insert_or_replace_repo_metadata in E2.
        destruct (pkg_repo_metadata p); [|discriminate].
        by rewrite foreign_key_ok in E2. }
    cbn [mbind result_bind].
    destruct (insertRepoMetadata_frame _ _ _ _ _ E2) as (Hp2 & Hf2 & _).
    destruct (insertAdvisories_ok db2 (pkg_id p) (pkg_advisories p)) as [db3 E3];
      [by rewrite Hp2|].
    rewrite E3. cbn [mbind result_bind].
    destruct (insertAdvisories_frame _ _ _ _ E3) as (Hp3 & Hf3 & _).
    assert (Ht3 : packages db3 = <[pkg_id p := row_of (current_timestamp c i) p]> (packages db))
      by (by rewrite Hp3, Hp2, Ht1).
    destruct (IH (S i) db3) as (db' & Hrun & Hk' & Hc' & Ha & Hb); try done.
    { intros k r. rewrite Hp3, Hp2. apply Hk1. }
    { unfold fts_consistent. rewrite Hf3, Hf2, Hp3, Hp2. exact Hc1. }
    { intros k r. rewrite Ht3, lookup_insert. case_decide.
      - intros [= <-]. eapply Forall_impl; [exact Hp|]. intros q Hq.
        by rewrite collides_row_of.
      - intros Hr. specialize (Hfree k r Hr). by apply Forall_cons in Hfree as [_ ?]. }
    exists db'. split_and!; try done.
    + intros [|j] q Hq; cbn in Hq.
      * injection Hq as <-. rewrite Hb, Ht3, lookup_insert_eq, Nat.add_0_r; [done|].
        intros (q & Hid & Hq)%list_elem_of_fmap.
        rewrite Forall_forall in Hp. apply (Hp q Hq). by left.
      * rewrite (Ha j q Hq). do 2 f_equal. f_equal. lia.
    + intros k Hk0. rewrite fmap_cons, not_elem_of_cons in Hk0. destruct Hk0 as [Hne Hk0].
      rewrite (Hb k Hk0), Ht3. by rewrite lookup_insert_ne.
Qed.

Lemma insertAll_createDatabase_distinct c pkgs :
  catalog_distinct pkgs → Forall complete_record pkgs →
  ∃ db',
    insertAll c 0 pkgs createDatabase = Ok db' ∧
    packages_keyed db' ∧ fts_consistent db' ∧
    (∀ j p, pkgs !! j = Some p →
            packages db' !! pkg_id p = Some (row_of (current_timestamp c j) p)) ∧
    dom (packages db') = list_to_set (pkg_id <$> pkgs) ∧
    count_packages db' = Z.of_nat (length pkgs).
Proof.
  intros Hd Hall.
  assert (Hfree : ∀ k r, packages createDatabase !! k = Some r →
            Forall (λ q, ¬ collides (package_values_of q) r) pkgs).
  { intros k r Hr. cbn in Hr. by rewrite lookup_empty in Hr. }
  destruct (insertAll_distinct c pkgs 0 createDatabase
              createDatabase_keyed createDatabase_consistent Hfree Hd Hall)
    as (db' & Hrun & Hk & Hc & Ha & Hb).
  assert (Hdom : dom (packages db') = list_to_set (pkg_id <$> pkgs)).
  { apply set_eq. intros k. rewrite elem_of_dom, elem_of_list_to_set. split.
    - intros [r Hr]. destruct (decide (k ∈ pkg_id <$> pkgs)) as [|Hn]; [done|].
      rewrite (Hb k Hn) in Hr. cbn in Hr. by rewrite lookup_empty in Hr.
    - intros (p & -> & Hp)%list_elem_of_fmap.
      apply list_elem_of_lookup in Hp as [j Hj]. rewrite (Ha j p Hj). eauto. }
  exists db'. split_and!; try done.
  unfold count_packages. f_equal.
  rewrite <- size_dom, Hdom, size_list_to_set by apply Hd.
  apply length_fmap.
Qed.

(** The errors of the first transaction are constraint errors. *)
Lemma insertPackage_err now db pkg e :
  insertPackage now db pkg = Err e → ∃ msg, e = SqliteConstraint msg.
Proof.
  unfold insertPackage.
  destruct (sql_insert_or_replace_packages_cases now (package_values_of pkg) db)
    as [(msg & -> & _)|(_ & _ & ->)]; [|discriminate].
  cbn. intros [= <-]. by eexists.
Qed.

Lemma insertRepoMetadata_err db id rm host e :
  insertRepoMetadata db id rm host = Err e → ∃ msg, e = SqliteConstraint msg.
Proof.
  unfold insertRepoMetadata, sql_insert_or_replace_repo_metadata, foreign_key.
  destruct rm; [|discriminate]. case_bool_decide; [discriminate|].
  cbn. intros [= <-]. by eexists.
Qed.

Lemma insertAdvisories_err db id l e :
  insertAdvisories db id l = Err e → ∃ msg, e = SqliteConstraint msg.
Proof.
  unfold insertAdvisories. destruct l as [l|]; [|discriminate].
  destruct (Nat.eqb (length l) 0); [discriminate|].
  revert db. induction l as [|[a|] l IH]; intros db; cbn [insertAdvisories_loop].
  - discriminate.
  - destruct (uuid_bearing (Some a)); [|apply IH].
    unfold sql_insert_or_replace_advisories, foreign_key.
    case_bool_decide; [cbn; intros [= <-]; by eexists|].
    case_bool_decide; cbn [mbind result_bind]; [apply IH|].
    intros [= <-]. by eexists.
  - apply IH.
Qed.

Lemma insertAll_err c : ∀ pkgs i db e,
  insertAll c i pkgs db = Err e → ∃ msg, e = SqliteConstraint msg.
Proof.
  induction pkgs as [|pkg pkgs IH]; intros i db e; cbn [insertAll]; [discriminate|].
  destruct (insertPackage _ db pkg) as [[db1 id]|e1] eqn:E1.
  2:{ cbn. intros [= <-]. by apply insertPackage_err in E1. }
  cbn [mbind result_bind].
  destruct (insertRepoMetadata _ _ _ _) as [db2|e2] eqn:E2.
  2:{ cbn. intros [= <-]. by apply insertRepoMetadata_err in E2. }
  cbn [mbind result_bind].
  destruct (insertAdvisories _ _ _) as [db3|e3] eqn:E3.
  2:{ cbn. intros [= <-]. by apply insertAdvisories_err in E3. }
  cbn [mbind result_bind]. apply IH.
Qed.

(** Every record the first transaction has written is complete. *)
Lemma insertAll_complete c : ∀ pkgs i db db',
  insertAll c i pkgs db = Ok db' → Forall complete_record pkgs.
Proof.
  induction pkgs as [|pkg pkgs IH]; intros i db db'; cbn [insertAll]; [constructor|].
  destruct (insertPackage _ db pkg) as [[db1 id]|] eqn:E1; [|discriminate].
  cbn [mbind result_bind].
  destruct (insertRepoMetadata _ _ _ _) as [db2|] eqn:E2; [|discriminate].
  cbn [mbind result_bind].
  destruct (insertAdvisories _ _ _) as [db3|] eqn:E3; [|discriminate].
  cbn [mbind result_bind]. intros H. constructor; [|by eapply IH].
  by apply insertPackage_inv in E1 as (_ & ? & ? & _).
Qed.

Lemma insertAll_incomplete c pkgs i db :
  Exists (λ p, ¬ complete_record p) pkgs →
  ∃ msg, insertAll c i pkgs db = Err (SqliteConstraint msg).
Proof.
  intros Hex. destruct (insertAll c i pkgs db) as [db'|e] eqn:E.
  - apply insertAll_complete in E. apply Exists_exists in Hex as (p & Hp & Hbad).
    rewrite Forall_forall in E. by destruct (Hbad (E p Hp)).
  - apply insertAll_err in E as [msg ->]. by exists msg.
Qed.

(** The first transaction writes no version. *)
Lemma insertAll_versions c : ∀ pkgs i db db',
  insertAll c i pkgs db = Ok db' → versions db' = versions db.
Proof.
  induction pkgs as [|pkg pkgs IH]; intros i db db'; cbn [insertAll].
  - by intros [= <-].
  - destruct (insertPackage _ db pkg) as [[db1 id]|] eqn:E1; [|discriminate].
    cbn [mbind result_bind].
    destruct (insertRepoMetadata _ _ _ _) as [db2|] eqn:E2; [|discriminate].
    cbn [mbind result_bind].
    destruct (insertAdvisories _ _ _) as [db3|] eqn:E3; [|discriminate].
    cbn [mbind result_bind]. intros H.
    rewrite (IH _ _ _ H). apply insertAdvisories_frame in E3 as (_ & _ & -> & _).
    apply insertRepoMetadata_frame in E2 as (_ & _ & -> & _).
    by apply insertPackage_frame in E1 as (_ & -> & _).
Qed.

(** X13. The first transaction on a catalog without collisions: when no
    id and no (ecosystem, name) is listed twice and every record has both,
    [insertAll] succeeds on the new database, the row of the j-th record
    is the record with the timestamp of its insertion, [packages] holds
    exactly the ids of the catalog, as many rows as the catalog has
    records, and the search index holds one document per row. *)
Theorem insertAll_distinct_catalog c pkgs :
  catalog_distinct pkgs → Forall complete_record pkgs →
  ∃ db',
    insertAll c 0 pkgs createDatabase = Ok db' ∧
    fts_consistent db' ∧
    (∀ j p, pkgs !! j = Some p →
            packages db' !! pkg_id p = Some (row_of (current_timestamp c j) p)) ∧
    dom (packages db') = list_to_set (pkg_id <$> pkgs) ∧
    count_packages db' = Z.of_nat (length pkgs).
Proof.
  intros Hd Hall.
  destruct (insertAll_createDatabase_distinct c pkgs Hd Hall)
    as (db' & Hrun & _ & Hc & Hrows & Hdom & Hn).
  by exists db'.
Qed.

(** The catalog of lodash and the test package. *)
Lemma two_package_catalog_inserted :
  ∃ db',
    insertAll fixed_clock 0 [lodash; test_pkg] createDatabase = Ok db' ∧
    fts_consistent db' ∧ count_packages db' = 2.
Proof.
  destruct (insertAll_distinct_catalog fixed_clock [lodash; test_pkg])
    as (db' & Hrun & Hc & _ & _ & Hn).
  - split; by_decide.
  - repeat constructor; by eexists.
  - exists db'. split; [exact Hrun|]. split; [exact Hc|exact Hn].
Defined.

(** ** The batches of the version phase *)

Lemma slices_go_spec {A} (n : nat) : (0 < n)%nat → ∀ fuel (l : list A),
  (length l ≤ fuel)%nat →
  concat (slices_go fuel n l) = l ∧
  Forall (λ b, (0 < length b ≤ n)%nat) (slices_go fuel n l) ∧
  (∀ i b, slices_go fuel n l !! i = Some b → b = take n (drop (i * n) l)) ∧
  (length l ≤ n * length (slices_go fuel n l) < length l + n)%nat.
Proof.
  intros Hn. induction fuel as [|fuel IH]; intros l Hl.
  - destruct l; [|simpl in Hl; lia]. cbn. split_and!; try done; try lia.
  - destruct l as [|x l]; [cbn; split_and!; try done; try lia|].
    cbn [slices_go].
    destruct (IH (drop n (x :: l))) as (H1 & H2 & H3 & H4).
    { rewrite length_drop. simpl in *. lia. }
    split_and!.
    + cbn [concat]. rewrite H1. apply take_drop.
    + constructor; [|done]. rewrite length_take. cbn [length]. lia.
    + intros [|i] b Hb; cbn in Hb.
      * injection Hb as <-. done.
      * rewrite (H3 i b Hb), drop_drop. do 2 f_equal; lia.
    + cbn [length] in *. rewrite length_drop in H4. cbn [length] in H4.
      rewrite Nat.mul_succ_r. lia.
    + cbn [length] in *. rewrite length_drop in H4. cbn [length] in H4.
      rewrite Nat.mul_succ_r.
      destruct (length (slices_go fuel n (drop n (x :: l)))) as [|k].
      * rewrite Nat.mul_0_r. lia.
      * rewrite Nat.mul_succ_r in *. lia.
Qed.

(** X14. The batches of the version phase: the slices of [CONCURRENCY]
    records partition the catalog in order; the i-th batch is
    [packages.slice(i * 10, i * 10 + 10)], no batch is empty or longer than
    [CONCURRENCY], and there are as many batches as the catalog needs and
    no more. *)
Theorem build_batches_partition {A} (pkgs : list A) :
  let batches := slices CONCURRENCY pkgs in
  concat batches = pkgs ∧
  Forall (λ b, (0 < length b ≤ CONCURRENCY)%nat) batches ∧
  (∀ i b, batches !! i = Some b →
          b = take CONCURRENCY (drop (i * CONCURRENCY) pkgs)) ∧
  (length pkgs ≤ CONCURRENCY * length batches < length pkgs + CONCURRENCY)%nat.
Proof. apply slices_go_spec; [unfold CONCURRENCY; lia|done]. Qed.

Lemma delays_app t1 t2 : delays (t1 ++ t2) = delays t1 ++ delays t2.
Proof. apply omap_app. Qed.

Lemma fetchVersionNumbers_returns w ecosystem name :
  ∃ t versions, fetchVersionNumbers w (Some ecosystem) name = (t, Returned versions) ∧
                delays t = [] ∧ progress_messages t = [] ∧
                (length (requests t) ≤ 1)%nat.
Proof.
  rewrite fetchVersionNumbers_unfold. cbv zeta.
  destruct (truthy _).
  - destruct (lookup_swallows w (versions_url
      (js_or (js_get registry_map (Js.toLowerCase ecosystem)) VNull) name))
      as (vs & -> & _).
    eexists _, vs. split_and!; [reflexivity..|cbn; lia].
  - eexists _, (JsonArray []). split_and!; [reflexivity..|cbn; lia].
Qed.

Lemma processPackage_returns w pkg :
  is_Some (pkg_ecosystem pkg) →
  ∃ t, processPackage w pkg = (t, Returned (pkg, looked_up w pkg)) ∧
       delays t = [RATE_LIMIT_MS] ∧ progress_messages t = [] ∧
       (length (requests t) ≤ 1)%nat.
Proof.
  intros [e He]. unfold processPackage, looked_up. rewrite He.
  destruct (fetchVersionNumbers_returns w e (pkg_name pkg))
    as (t & vs & -> & Hd & Hm & Hr).
  cbn. eexists. split; [reflexivity|].
  rewrite delays_app, progress_messages_app, requests_app, Hd, Hm.
  split_and!; [reflexivity..|]. rewrite length_app. cbn. lia.
Qed.

Lemma mapM_processPackage w : ∀ batch,
  Forall (λ p, is_Some (pkg_ecosystem p)) batch →
  ∃ t, mapM (processPackage w) batch
         = (t, Returned ((λ p, (p, looked_up w p)) <$> batch)) ∧
       delays t = replicate (length batch) RATE_LIMIT_MS ∧
       progress_messages t = [] ∧
       (length (requests t) ≤ length batch)%nat.
Proof.
  induction batch as [|p batch IH]; intros Hall.
  - exists []. done.
  - apply Forall_cons in Hall as [Hp Hall].
    destruct (processPackage_returns w p Hp) as (t1 & E1 & Hd1 & Hm1 & Hr1).
    destruct (IH Hall) as (t2 & E2 & Hd2 & Hm2 & Hr2).
    exists (t1 ++ t2). cbn [mapM]. rewrite E1. cbn. rewrite E2. cbn.
    rewrite app_nil_r. split; [reflexivity|].
    rewrite delays_app, progress_messages_app, requests_app, Hd1, Hd2, Hm1, Hm2, length_app.
    split_and!; [reflexivity..|lia].
Qed.

Lemma version_strings_json_strings l : version_strings (json_strings l) = l.
Proof.
  unfold version_strings, json_strings. induction l as [|x l IH]; [done|].
  cbn. f_equal. exact IH.
Qed.

(** The transaction of a batch whose packages the store holds and whose
    lookups came back with arrays of strings. *)
Lemma insertBatchVersions_strings (w : world) : ∀ (batch : list package) db,
  Forall (λ p, is_Some (packages db !! pkg_id p) ∧ array_of_strings (looked_up w p))
         batch →
  ∃ db', insertBatchVersions ((λ p, (p, looked_up w p)) <$> batch) db = Ok db' ∧
         versions db' = list_to_set (batch ≫= version_rows w) ∪ versions db.
Proof.
  induction batch as [|p batch IH]; intros db Hall.
  - exists db. split; [done|]. symmetry. apply (left_id_L (∅ : gset (Z * string)) (∪)).
  - apply Forall_cons in Hall as [[Hparent [l Hl]] Hall].
    rewrite fmap_cons, bind_cons. cbn [insertBatchVersions].
    assert (Hstep : ∃ db1,
      match looked_up w p with
      | JsonNull => Err (TypeError "Cannot read properties of null (reading 'length')")
      | JsonArray l0 =>
          if Nat.ltb 0 (length l0)
          then insertVersions db (pkg_id p) (looked_up w p) else Ok db
      end = Ok db1 ∧
      versions db1 = list_to_set (version_rows w p) ∪ versions db ∧
      packages db1 = packages db).
    { unfold version_rows. rewrite Hl, version_strings_json_strings.
      destruct (insertVersions_strings db (pkg_id p) l Hparent) as (db1 & E1 & Hv1).
      change (json_strings l) with (JsonArray (Some <$> l)) in *.
      cbv iota beta. destruct l as [|n l].
      - cbn in E1. injection E1 as <-. exists db. cbn.
        split_and!; first [done | by rewrite (left_id_L ∅ (∪))].
      - cbn [fmap list_fmap length Nat.ltb Nat.leb]. exists db1.
        split_and!; try done.
        by apply insertVersions_frame in E1 as (-> & _). }
    destruct Hstep as (db1 & -> & Hv1 & Hp1). cbn [mbind result_bind].
    destruct (IH db1) as (db' & -> & Hv').
    { eapply Forall_impl; [exact Hall|]. intros q [? ?]. by rewrite Hp1. }
    exists db'. split; [done|].
    rewrite Hv', Hv1, list_to_set_app_L, (assoc_L (∪)). f_equal. apply (comm_L (∪)).
Qed.

(** The errors of the transaction of a batch: a constraint error of the
    engine, or the [TypeError] of [versions.length] on [null]. *)
Lemma insertVersions_loop_err pid : ∀ l db e,
  insertVersions_loop db pid l = Err e → ∃ msg, e = SqliteConstraint msg.
Proof.
  induction l as [|[n|] l IH]; intros db e; cbn [insertVersions_loop]; [discriminate| |].
  - unfold sql_insert_or_replace_versions, foreign_key.
    case_bool_decide; cbn [mbind result_bind]; [apply IH|].
    intros [= <-]. by eexists.
  - cbn. intros [= <-]. by eexists.
Qed.

Lemma insertBatchVersions_err : ∀ results db e,
  insertBatchVersions results db = Err e → storage_error e.
Proof.
  induction results as [|[pkg vs] results IH]; intros db e;
    cbn [insertBatchVersions]; [discriminate|].
  destruct vs as [|l].
  - cbn. intros [= <-]. right. by eexists.
  - destruct (Nat.ltb 0 (length l)); [|cbn [mbind result_bind]; apply IH].
    destruct (insertVersions db (pkg_id pkg) (JsonArray l)) as [db1|e1] eqn:E1;
      cbn [mbind result_bind]; [apply IH|].
    intros [= <-]. left. unfold insertVersions in E1.
    destruct (Nat.eqb (length l) 0); [discriminate|].
    by eapply insertVersions_loop_err.
Qed.

(** A transaction that commits has seen arrays of strings only. *)
Lemma insertVersions_loop_typed pid : ∀ l db db',
  insertVersions_loop db pid l = Ok db' → array_of_strings (JsonArray l).
Proof.
  induction l as [|[n|] l IH]; intros db db'; cbn [insertVersions_loop].
  - intros _. by exists [].
  - destruct (sql_insert_or_replace_versions _ _ _) as [db1|]; [|discriminate].
    cbn [mbind result_bind]. intros H. destruct (IH _ _ H) as [l' [= ->]].
    by exists (n :: l').
  - discriminate.
Qed.

Lemma insertBatchVersions_typed : ∀ results db db',
  insertBatchVersions results db = Ok db' →
  Forall (λ pv : package * versions_json, array_of_strings pv.2) results.
Proof.
  induction results as [|[pkg vs] results IH]; intros db db';
    cbn [insertBatchVersions]; [constructor|].
  destruct vs as [|l]; [discriminate|].
  destruct (Nat.ltb 0 (length l)) eqn:El.
  - destruct (insertVersions db (pkg_id pkg) (JsonArray l)) as [db1|] eqn:E1;
      [|discriminate].
    cbn [mbind result_bind]. intros H. constructor; [|by eapply IH].
    unfold insertVersions in E1. destruct (Nat.eqb (length l) 0) eqn:E0.
    + apply Nat.eqb_eq in E0. apply Nat.ltb_lt in El. lia.
    + by eapply insertVersions_loop_typed.
  - cbn [mbind result_bind]. intros H. constructor; [|by eapply IH].
    destruct l; [by exists []|discriminate].
Qed.

(** The version phase on a store that holds the packages of the batches,
    when every lookup came back with an array of strings. *)
Lemma fetchVersions_loop_spec w total : ∀ batches completed db,
  Forall (Forall (λ p, is_Some (pkg_ecosystem p) ∧
                       is_Some (packages db !! pkg_id p) ∧
                       array_of_strings (looked_up w p))) batches →
  ∃ t db',
    fetchVersions_loop w total completed batches db = (t, Returned db') ∧
    versions db' = list_to_set (concat batches ≫= version_rows w) ∪ versions db ∧
    packages db' = packages db ∧ advisories db' = advisories db ∧
    repo_metadata db' = repo_metadata db ∧ packages_fts db' = packages_fts db ∧
    delays t = replicate (length (concat batches)) RATE_LIMIT_MS ∧
    (length (requests t) ≤ length (concat batches))%nat ∧
    length (progress_messages t) = length batches.
Proof.
  induction batches as [|batch batches IH]; intros completed db Hall.
  - exists [], db. split_and!; try done.
    symmetry. apply (left_id_L (∅ : gset (Z * string)) (∪)).
  - apply Forall_cons in Hall as [Hb Hall].
    destruct (mapM_processPackage w batch) as (t1 & E1 & Hd1 & Hm1 & Hr1).
    { eapply Forall_impl; [exact Hb|]. by intros p [? _]. }
    destruct (insertBatchVersions_strings w batch db) as (db1 & Etx & Hv1).
    { eapply Forall_impl; [exact Hb|]. by intros p (_ & ? & ?). }
    destruct (insertBatchVersions_frame _ _ _ Etx) as (Hp1 & Ha1 & _ & Hrm1 & Hf1 & _).
    cbn [fetchVersions_loop]. rewrite E1. cbn.
    unfold run_transaction, transaction. rewrite Etx. cbn.
    destruct (IH (completed + length batch)%nat db1)
      as (t2 & db' & E2 & Hv & Hp & Ha & Hrm & Hf & Hd2 & Hr2 & Hpm).
    { eapply Forall_impl; [exact Hall|]. intros b Hb'.
      eapply Forall_impl; [exact Hb'|]. intros p (? & ? & ?). by rewrite Hp1. }
    rewrite E2. cbn. eexists _, db'. split; [reflexivity|].
    split_and!.
    + rewrite Hv, Hv1.
      rewrite bind_app, list_to_set_app_L, (assoc_L (∪)). f_equal. apply (comm_L (∪)).
    + by rewrite Hp.
    + by rewrite Ha.
    + by rewrite Hrm.
    + by rewrite Hf.
    + rewrite delays_app, Hd1, length_app, replicate_add. f_equal. exact Hd2.
    + rewrite requests_app, !length_app. cbn [requests omap list_omap].
      change (omap ?f t2) with (requests t2). lia.
    + rewrite progress_messages_app, Hm1. cbn. by rewrite <- Hpm.
Qed.

(** The version phase ends: it returns, having seen arrays of strings
    only and written [versions] only, or it throws an error of the store. *)
Lemma fetchVersions_loop_outcome w total : ∀ batches completed db,
  Forall (Forall (λ p, is_Some (pkg_ecosystem p))) batches →
  ∃ t o,
    fetchVersions_loop w total completed batches db = (t, o) ∧
    match o with
    | Returned db' =>
        Forall (Forall (λ p, array_of_strings (looked_up w p))) batches ∧
        packages db' = packages db ∧ packages_fts db' = packages_fts db ∧
        advisories db' = advisories db
    | Thrown e => storage_error e
    | OutOfFuel => False
    end.
Proof.
  induction batches as [|batch batches IH]; intros completed db Hall.
  - exists [], (Returned db). split; [done|]. split_and!; try done.
  - apply Forall_cons in Hall as [Hb Hall].
    destruct (mapM_processPackage w batch Hb) as (t1 & E1 & _).
    cbn [fetchVersions_loop]. rewrite E1. cbn.
    unfold run_transaction, transaction.
    destruct (insertBatchVersions _ db) as [db1|e] eqn:Etx; cbn.
    + destruct (IH (completed + length batch)%nat db1 Hall) as (t2 & o & E2 & Ho).
      rewrite E2. destruct o as [db'|e|]; cbn.
      * eexists _, (Returned db'). split; [reflexivity|].
        destruct Ho as (Hty & Hp & Hf & Ha).
        destruct (insertBatchVersions_frame _ _ _ Etx) as (Hp1 & Ha1 & _ & _ & Hf1 & _).
        split_and!; [|congruence..].
        constructor; [|done]. apply insertBatchVersions_typed in Etx.
        rewrite Forall_fmap in Etx. exact Etx.
      * eexists _, (Thrown e). split; [reflexivity|]. exact Ho.
      * done.
    + eexists _, (Thrown e). split; [reflexivity|].
      by eapply insertBatchVersions_err.
Qed.

(** ** How a build ends *)

Lemma build_incomplete_run fuel w c options t1 pkgs :
  fetchAllCriticalPackages fuel w true = (t1, Returned pkgs) →
  Exists (λ p, ¬ complete_record p) pkgs →
  ∃ msg,
    outcome_of (build fuel w c options) = Thrown (SqliteConstraint msg) ∧
    transaction (insertAll c 0 pkgs) createDatabase
      = (createDatabase, Some (SqliteConstraint msg)) ∧
    requests (trace_of (build fuel w c options)) = requests t1 ∧
    delays (trace_of (build fuel w c options)) = delays t1.
Proof.
  intros Hf Hex.
  destruct (insertAll_incomplete c pkgs 0 createDatabase Hex) as (msg & Hrun).
  exists msg. unfold build, run_transaction, transaction.
  rewrite Hrun. rewrite Hf. cbn. rewrite Hrun. cbn.
  rewrite requests_app, delays_app. cbn. by rewrite !app_nil_r.
Qed.

Lemma Forall_slices {A} (P : A → Prop) (l : list A) :
  Forall P l → Forall (Forall P) (slices CONCURRENCY l).
Proof.
  intros H. apply Forall_concat. by rewrite slices_concat by (unfold CONCURRENCY; lia).
Qed.

Lemma build_complete_run fuel w c options t1 pkgs :
  fetchAllCriticalPackages fuel w true = (t1, Returned pkgs) →
  Forall complete_record pkgs → catalog_distinct pkgs →
  (fetchVersionsData options = true →
   Forall (λ p, array_of_strings (looked_up w p)) pkgs) →
  ∃ t info db,
    build fuel w c options = (t, Returned (info, db)) ∧
    versions db = (if fetchVersionsData options
                   then list_to_set (pkgs ≫= version_rows w) else ∅) ∧
    delays t = delays t1 ++ (if fetchVersionsData options
                             then replicate (length pkgs) RATE_LIMIT_MS else []) ∧
    requests t1 `prefix_of` requests t ∧
    (length (requests t) ≤ length (requests t1)
       + (if fetchVersionsData options then length pkgs else 0))%nat.
Proof.
  intros Hf Hall Hdist Hty.
  destruct (insertAll_createDatabase_distinct c pkgs Hdist Hall)
    as (db1 & Hrun & _ & _ & Hrows & _).
  pose proof (insertAll_versions _ _ _ _ _ Hrun) as Hv1. cbn in Hv1.
  unfold build, run_transaction, transaction. rewrite Hf. cbn. rewrite Hrun. cbn.
  destruct (fetchVersionsData options).
  - destruct (fetchVersions_loop_spec w (length pkgs) (slices CONCURRENCY pkgs) 0 db1)
      as (t2 & db2 & E2 & Hv & _ & _ & _ & _ & Hd & Hr & _).
    { apply Forall_slices. apply Forall_forall. intros p Hp.
      rewrite Forall_forall in Hall. destruct (Hall p Hp) as [He _].
      specialize (Hty eq_refl). rewrite Forall_forall in Hty.
      apply list_elem_of_lookup in Hp as Hj. destruct Hj as [j Hj].
      split_and!; [exact He| |by apply Hty]. rewrite (Hrows j p Hj). eauto. }
    rewrite slices_concat in Hv, Hd, Hr by (unfold CONCURRENCY; lia).
    cbn. rewrite E2. cbn. rewrite updateBuildInfo_spec. cbn.
    rewrite lookup_insert_eq. cbn.
    eexists _, _, _. split; [reflexivity|]. cbn.
    unfold delays, requests in *. rewrite !omap_app. cbn.
    rewrite !omap_app, !length_app, Hv, Hv1, Hd. cbn. rewrite !app_nil_r.
    split_and!; [by rewrite (right_id_L ∅ (∪))|done|by apply prefix_app_r|lia].
  - cbn. rewrite updateBuildInfo_spec. cbn. rewrite lookup_insert_eq. cbn.
    eexists _, _, _. split; [reflexivity|]. cbn.
    unfold delays, requests. rewrite !omap_app, !length_app. cbn. rewrite !app_nil_r.
    split_and!; [done|done|done|lia].
Qed.

(** Once the pagination has returned, the build ends: it returns, and
    then every record was complete and every lookup made came back with
    an array of strings, or it throws an error of the store. *)
Lemma build_after_pagination fuel w c options t1 pkgs :
  fetchAllCriticalPackages fuel w true = (t1, Returned pkgs) →
  match outcome_of (build fuel w c options) with
  | Returned _ =>
      Forall complete_record pkgs ∧
      (fetchVersionsData options = true →
       Forall (λ p, array_of_strings (looked_up w p)) pkgs)
  | Thrown e => storage_error e
  | OutOfFuel => False
  end.
Proof.
  intros Hf. unfold build, run_transaction, transaction, outcome_of.
  rewrite Hf. cbn.
  destruct (insertAll c 0 pkgs createDatabase) as [db1|e] eqn:Hrun; cbn.
  2:{ left. by eapply insertAll_err. }
  pose proof (insertAll_complete _ _ _ _ _ Hrun) as Hall.
  destruct (fetchVersionsData options).
  - destruct (fetchVersions_loop_outcome w (length pkgs) (slices CONCURRENCY pkgs) 0 db1)
      as (t2 & o & E2 & Ho).
    { apply Forall_slices. eapply Forall_impl; [exact Hall|]. by intros p [? _]. }
    cbn. rewrite E2. destruct o as [db2|e|]; cbn; [|exact Ho|done].
    rewrite updateBuildInfo_spec. cbn. rewrite lookup_insert_eq. cbn.
    split; [exact Hall|]. intros _. destruct Ho as (Hty & _).
    apply Forall_concat in Hty.
    by rewrite slices_concat in Hty by (unfold CONCURRENCY; lia).
  - cbn. rewrite updateBuildInfo_spec. cbn. rewrite lookup_insert_eq. cbn.
    by split.
Qed.

Lemma build_distinct_run fuel w c options t1 pkgs t info db :
  fetchAllCriticalPackages fuel w true = (t1, Returned pkgs) →
  catalog_distinct pkgs →
  build fuel w c options = (t, Returned (info, db)) →
  fts_consistent db ∧
  (∀ j p, pkgs !! j = Some p →
          packages db !! pkg_id p = Some (row_of (current_timestamp c j) p)) ∧
  dom (packages db) = list_to_set (pkg_id <$> pkgs) ∧
  bi_package_count info = Z.of_nat (length pkgs) ∧
  (∀ term r, r ∈ fts_search term db ↔
             packages db !! col_id r = Some r ∧
             Js.toLowerCase term ∈ doc_tokens (fts_doc_of r)).
Proof.
  intros Hf Hd Hb.
  apply build_Returned in Hb
    as (pkgs' & db1 & db2 & t1' & t2 & Hf' & Hrun & Hv & Hu & Hi & _).
  rewrite Hf in Hf'. injection Hf' as <- <-.
  pose proof (insertAll_complete _ _ _ _ _ Hrun) as Hall.
  destruct (insertAll_createDatabase_distinct c pkgs Hd Hall)
    as (db1' & Hrun' & Hk & Hc & Hrows & Hdom & Hn).
  rewrite Hrun in Hrun'. injection Hrun' as <-.
  assert (Hp2 : packages db2 = packages db1 ∧ packages_fts db2 = packages_fts db1).
  { destruct (fetchVersionsData options); [|by destruct Hv as [-> _]].
    destruct Hv as (t2' & Hloop & _).
    destruct (fetchVersions_loop_outcome w (length pkgs) (slices CONCURRENCY pkgs) 0 db1)
      as (t3 & o & E3 & Ho).
    { apply Forall_slices. eapply Forall_impl; [exact Hall|]. by intros p [? _]. }
    rewrite E3 in Hloop. injection Hloop as _ ->. by destruct Ho as (_ & ? & ? & _). }
  destruct Hp2 as [Hp2 Hf2].
  rewrite updateBuildInfo_spec in Hu. injection Hu as Hu.
  assert (Hp3 : packages db = packages db2) by (by rewrite <- Hu).
  assert (Hf3 : packages_fts db = packages_fts db2) by (by rewrite <- Hu).
  rewrite <- Hu in Hi. cbn in Hi. rewrite lookup_insert_eq in Hi. injection Hi as <-.
  assert (Hc' : fts_consistent db).
  { unfold fts_consistent. rewrite Hp3, Hf3, Hp2, Hf2. exact Hc. }
  assert (Hk' : packages_keyed db).
  { intros k r'. rewrite Hp3, Hp2. apply Hk. }
  split_and!.
  - exact Hc'.
  - intros j p Hj. rewrite Hp3, Hp2. by apply Hrows.
  - by rewrite Hp3, Hp2.
  - cbn. unfold count_packages in *. by rewrite Hp2.
  - intros term r. by apply fts_search_consistent.
Qed.

(** X15. One record without ecosystem or without name fails the whole
    build: when the catalog holds such a record, [build] throws the
    constraint error of SQLite, the transaction of [insertAll] is rolled
    back to the empty database whatever records came before it, and no
    request and no delay follows those of the pagination, so no version
    is looked up. *)
Theorem build_rejects_incomplete_record fuel w c options t1 pkgs :
  fetchAllCriticalPackages fuel w true = (t1, Returned pkgs) →
  Exists (λ p, ¬ complete_record p) pkgs →
  ∃ msg,
    outcome_of (build fuel w c options) = Thrown (SqliteConstraint msg) ∧
    transaction (insertAll c 0 pkgs) createDatabase
      = (createDatabase, Some (SqliteConstraint msg)) ∧
    requests (trace_of (build fuel w c options)) = requests t1 ∧
    delays (trace_of (build fuel w c options)) = delays t1.
Proof. apply build_incomplete_run. Qed.

(** The build on a catalog of lodash and a record without name. *)
Lemma nameless_record_fails_build :
  ∃ msg,
    outcome_of (build 2 nameless_source fixed_clock {| fetchVersionsData := true |})
      = Thrown (SqliteConstraint msg) ∧
    requests (trace_of (build 2 nameless_source fixed_clock
                              {| fetchVersionsData := true |}))
      = [page_url 1; page_url 2].
Proof.
  destruct (build_rejects_incomplete_record 2 nameless_source fixed_clock
              {| fetchVersionsData := true |}
              (trace_of (fetchAllCriticalPackages 2 nameless_source true))
              [lodash; nameless])
    as (msg & Ho & _ & Hr & _).
  - vm_compute. reflexivity.
  - apply Exists_cons. right. apply Exists_cons. left.
    intros [_ [n Hn]]. discriminate Hn.
  - exists msg. split; [exact Ho|]. rewrite Hr. vm_compute. reflexivity.
Defined.

(** X16. How a build ends. [build] ends as the pagination ends when that
    throws or does not finish. When the pagination returns a catalog,
    [build] ends too, and if it throws, the error is one of the store (a
    constraint error of SQLite or a [TypeError]), never a transport error:
    it throws the constraint error when a record lacks its ecosystem or
    its name; it returns when the records are complete, the catalog lists
    no id and no (ecosystem, name) twice and, if versions are fetched,
    every lookup came back with an array of strings; and with versions
    fetched it throws when some lookup came back with anything else. So
    an answer to a version lookup can fail the build: the body [null],
    served with status 200, makes it throw a [TypeError]. *)
Theorem build_outcome :
  (∀ fuel w c options,
     match outcome_of (fetchAllCriticalPackages fuel w true) with
     | Returned pkgs =>
         (¬ Forall complete_record pkgs →
          ∃ msg, outcome_of (build fuel w c options) = Thrown (SqliteConstraint msg)) ∧
         (Forall complete_record pkgs → catalog_distinct pkgs →
          (fetchVersionsData options = true →
           Forall (λ p, array_of_strings (looked_up w p)) pkgs) →
          ∃ r, outcome_of (build fuel w c options) = Returned r) ∧
         (fetchVersionsData options = true →
          ¬ Forall (λ p, array_of_strings (looked_up w p)) pkgs →
          ∃ e, outcome_of (build fuel w c options) = Thrown e ∧ storage_error e) ∧
         (∀ e, outcome_of (build fuel w c options) = Thrown e → storage_error e) ∧
         outcome_of (build fuel w c options) ≠ OutOfFuel
     | Thrown e => outcome_of (build fuel w c options) = Thrown e
     | OutOfFuel => outcome_of (build fuel w c options) = OutOfFuel
     end) ∧
  (∃ msg, outcome_of (build 2 null_world fixed_clock {| fetchVersionsData := true |})
            = Thrown (TypeError msg)).
Proof.
  split; [|eexists; vm_compute; reflexivity].
  intros fuel w c options.
  destruct (fetchAllCriticalPackages fuel w true) as [t1 [pkgs|e|]] eqn:Hf;
    unfold outcome_of at 1; cbn [snd].
  - pose proof (build_after_pagination fuel w c options t1 pkgs Hf) as Hend.
    split_and!.
    + intros Hnot. apply not_Forall_Exists in Hnot; [|apply _].
      destruct (build_incomplete_run fuel w c options t1 pkgs Hf Hnot) as (msg & Ho & _).
      by exists msg.
    + intros Hall Hdist Hty.
      destruct (build_complete_run fuel w c options t1 pkgs Hf Hall Hdist Hty)
        as (t & info & db & -> & _).
      by exists (info, db).
    + intros Hv Hnot.
      destruct (outcome_of (build fuel w c options)) as [r|e|]; [|by exists e|done].
      destruct Hend as [_ Hty]. destruct (Hnot (Hty Hv)).
    + intros e He. by rewrite He in Hend.
    + intros Hout. by rewrite Hout in Hend.
  - unfold build. rewrite Hf. reflexivity.
  - unfold build. rewrite Hf. reflexivity.
Qed.

(** X17. On a catalog of complete records that lists no id and no
    (ecosystem, name) twice, a build returns when every version lookup
    it makes comes back with an array of strings, and the version phase
    does what the option says: with [fetchVersionsData] the rows of
    [versions] are the pairs of each package with each version number its
    lookup returned, and one delay of [RATE_LIMIT_MS] is added per
    package; without it [versions] stays empty and nothing is requested
    or awaited after the pagination. At most one request is made per
    package. *)
Theorem build_returns fuel w c options t1 pkgs :
  fetchAllCriticalPackages fuel w true = (t1, Returned pkgs) →
  Forall complete_record pkgs → catalog_distinct pkgs →
  (fetchVersionsData options = true →
   Forall (λ p, array_of_strings (looked_up w p)) pkgs) →
  ∃ t info db,
    build fuel w c options = (t, Returned (info, db)) ∧
    versions db = (if fetchVersionsData options
                   then list_to_set (pkgs ≫= version_rows w) else ∅) ∧
    delays t = delays t1 ++ (if fetchVersionsData options
                             then replicate (length pkgs) RATE_LIMIT_MS else []) ∧
    requests t1 `prefix_of` requests t ∧
    (length (requests t) ≤ length (requests t1)
       + (if fetchVersionsData options then length pkgs else 0))%nat.
Proof. apply build_complete_run. Qed.

(** The build of the lodash catalog with its two versions. *)
Lemma lodash_build_looks_up_versions :
  ∃ t info db,
    build 2 lodash_world fixed_clock {| fetchVersionsData := true |}
      = (t, Returned (info, db)) ∧
    versions db = {[ (1, "4.17.21"); (1, "4.17.20") ]} ∧
    length (delays t) = 2%nat.
Proof.
  destruct (build_returns 2 lodash_world fixed_clock {| fetchVersionsData := true |}
              (trace_of (fetchAllCriticalPackages 2 lodash_world true)) [lodash])
    as (t & info & db & Hb & Hv & Hd & _).
  - vm_compute. reflexivity.
  - repeat constructor; by eexists.
  - split; by_decide.
  - intros _. repeat constructor. exists ["4.17.21"; "4.17.20"]. vm_compute. reflexivity.
  - exists t, info, db. split; [exact Hb|]. split.
    + rewrite Hv. by_decide.
    + rewrite Hd. vm_compute. reflexivity.
Defined.

(** X18. On a catalog without collisions the database a build leaves is
    searchable: the index holds one document per row, every record of the
    catalog has its row, [package_count] is the length of the catalog,
    and, the indexed columns being ASCII text, the search for one bare
    word returns exactly the rows one of whose indexed columns holds the
    word, whatever the case of its letters. *)
Theorem build_distinct_catalog fuel w c options t1 pkgs :
  fetchAllCriticalPackages fuel w true = (t1, Returned pkgs) →
  Forall complete_record pkgs → catalog_distinct pkgs →
  (fetchVersionsData options = true →
   Forall (λ p, array_of_strings (looked_up w p)) pkgs) →
  Forall ascii_record pkgs →
  ∃ t info db,
    build fuel w c options = (t, Returned (info, db)) ∧
    fts_consistent db ∧
    (∀ j p, pkgs !! j = Some p →
            packages db !! pkg_id p = Some (row_of (current_timestamp c j) p)) ∧
    dom (packages db) = list_to_set (pkg_id <$> pkgs) ∧
    bi_package_count info = Z.of_nat (length pkgs) ∧
    (∀ term r, bare_word term →
               (r ∈ fts_search term db ↔
                packages db !! col_id r = Some r ∧
                Js.toLowerCase term ∈ doc_tokens (fts_doc_of r))).
Proof.
  intros Hf Hall Hd Hty _.
  destruct (build_complete_run fuel w c options t1 pkgs Hf Hall Hd Hty)
    as (t & info & db & Hb & _).
  exists t, info, db. split; [exact Hb|].
  destruct (build_distinct_run _ _ _ _ _ _ _ _ _ Hf Hd Hb)
    as (Hc & Hrows & Hdom & Hn & Hs).
  split_and!; try done.
Qed.

(** The build of the lodash catalog: the search for "LODASH" finds the
    row of lodash. *)
Lemma lodash_build_is_searchable :
  ∃ t info db,
    build 2 lodash_world fixed_clock {| fetchVersionsData := false |}
      = (t, Returned (info, db)) ∧
    fts_consistent db ∧
    row_of "2024-01-01 00:00:00" lodash ∈ fts_search "LODASH" db.
Proof.
  destruct (build_distinct_catalog 2 lodash_world fixed_clock
              {| fetchVersionsData := false |}
              (trace_of (fetchAllCriticalPackages 2 lodash_world true)) [lodash])
    as (t & info & db & Hb & Hc & Hrows & _ & _ & Hsearch).
  - vm_compute. reflexivity.
  - repeat constructor; by eexists.
  - split; by_decide.
  - discriminate.
  - repeat constructor; cbn; repeat constructor; cbn; lia.
  - exists t, info, db. split; [exact Hb|]. split; [exact Hc|].
    apply Hsearch.
    + split_and!; [done|repeat constructor|by_decide].
    + split.
      * apply (Hrows 0%nat lodash). reflexivity.
      * by_decide.
Defined.

(** ** The output path of the command line *)

Lemma indexOf_Some args flag i :
  indexOf args flag = Some i ↔
  args !! i = Some flag ∧ flag ∉ take i args.
Proof.
  revert i. induction args as [|a args IH]; intros i; cbn [indexOf].
  - split; [done|]. by intros [? _].
  - case_bool_decide as Ha.
    + subst a. split.
      * intros [= <-]. split; [done|]. cbn. apply not_elem_of_nil.
      * intros [Hi Hn]. destruct i as [|i]; [done|]. cbn in Hn.
        exfalso. apply Hn. left.
    + destruct i as [|i].
      * split; [by destruct (indexOf args flag)|]. intros [[= ?] _]. done.
      * change ((a :: args) !! S i) with (args !! i).
        change (take (S i) (a :: args)) with (a :: take i args).
        rewrite not_elem_of_cons. specialize (IH i).
        destruct (indexOf args flag) as [j|]; cbn; split.
        -- intros [= ->]. destruct IH as [IH _]. destruct IH as [? ?]; [done|].
           split_and!; [done|congruence|done].
        -- intros (Hi & _ & Hn). destruct IH as [_ IH].
           specialize (IH (conj Hi Hn)). congruence.
        -- done.
        -- intros (Hi & _ & Hn). destruct IH as [_ IH]. by specialize (IH (conj Hi Hn)).
Qed.

Lemma indexOf_None args flag : indexOf args flag = None ↔ flag ∉ args.
Proof.
  induction args as [|a args IH]; cbn [indexOf].
  - split; [intros _; apply not_elem_of_nil|done].
  - rewrite not_elem_of_cons. case_bool_decide as Ha.
    + split; [done|]. intros [? _]. done.
    + destruct (indexOf args flag); cbn.
      * split; [done|]. intros [_ H]. by apply IH in H.
      * split; [|done]. intros _. split; [congruence|]. by apply IH.
Qed.

Lemma indexOf_first pre flag post :
  flag ∉ pre → indexOf (pre ++ flag :: post) flag = Some (length pre).
Proof.
  intros Hn. apply indexOf_Some. split.
  - by rewrite list_lookup_middle.
  - by rewrite take_app_length.
Qed.

(** What [getArg] returns is the argument that follows the first
    occurrence of one of the flags, and it is not empty. *)
Lemma getArg_Some args : ∀ flags v,
  getArg args flags = Some v →
  v ≠ EmptyString ∧
  ∃ flag i, flag ∈ flags ∧ indexOf args flag = Some i ∧ args !! S i = Some v.
Proof.
  induction flags as [|flag flags IH]; intros v; cbn [getArg]; [done|].
  assert (Hrest : getArg args flags = Some v →
    v ≠ EmptyString ∧
    ∃ flag0 i, flag0 ∈ flag :: flags ∧ indexOf args flag0 = Some i ∧ args !! S i = Some v).
  { intros H. destruct (IH v H) as (Hv & f & i & Hf & Hi & Hl).
    split; [done|]. exists f, i. split; [by right|done]. }
  destruct (indexOf args flag) as [idx|] eqn:Ei; [|done].
  destruct (args !! S idx) as [a|] eqn:Ea; [|done].
  case_bool_decide as Hne; [done|]. intros [= <-]. split; [done|].
  exists flag, idx. split; [left|done].
Qed.

(** X19. The output path of the command line: the argument after the
    first "--output" is the path when it is there and not empty, whatever
    it looks like and wherever "-o" stands; without "--output" the
    argument after the first "-o" is; without both flags, or with a flag
    that ends the command line, the path is "critical-packages.db"; and
    a path other than the default is always the argument that follows one
    of the two flags. *)
Theorem dbPath_spec args :
  (∀ pre v post, args = pre ++ "--output" :: v :: post → "--output" ∉ pre →
                 v ≠ EmptyString → dbPath args = v) ∧
  (∀ pre v post, args = pre ++ "-o" :: v :: post → "-o" ∉ pre →
                 v ≠ EmptyString → "--output" ∉ args → dbPath args = v) ∧
  ("--output" ∉ args → "-o" ∉ args → dbPath args = "critical-packages.db") ∧
  (∀ pre, args = pre ++ ["--output"] → "--output" ∉ pre → "-o" ∉ args →
          dbPath args = "critical-packages.db") ∧
  (dbPath args = "critical-packages.db" ∨
   ∃ i, (args !! i = Some "--output" ∨ args !! i = Some "-o") ∧
        args !! S i = Some (dbPath args)).
Proof.
  unfold dbPath. split_and!.
  - intros pre v post -> Hpre Hv. cbn [getArg].
    rewrite (indexOf_first _ _ _ Hpre).
    replace ((pre ++ "--output" :: v :: post) !! S (length pre)) with (Some v).
    + rewrite !bool_decide_eq_false_2 by done. done.
    + symmetry. rewrite (lookup_app_r pre) by lia.
      replace (S (length pre) - length pre)%nat with 1%nat by lia. done.
  - intros pre v post -> Hpre Hv Hout. cbn [getArg].
    apply indexOf_None in Hout. rewrite Hout.
    rewrite (indexOf_first _ _ _ Hpre).
    replace ((pre ++ "-o" :: v :: post) !! S (length pre)) with (Some v).
    + rewrite !bool_decide_eq_false_2 by done. done.
    + symmetry. rewrite (lookup_app_r pre) by lia.
      replace (S (length pre) - length pre)%nat with 1%nat by lia. done.
  - intros H1%indexOf_None H2%indexOf_None. cbn [getArg]. by rewrite H1, H2.
  - intros pre -> Hpre H2%indexOf_None. cbn [getArg].
    rewrite (indexOf_first _ _ _ Hpre), H2.
    replace ((pre ++ ["--output"]) !! S (length pre)) with (@None string); [done|].
    symmetry. apply lookup_ge_None. rewrite length_app. cbn. lia.
  - destruct (getArg args ["--output"; "-o"]) as [v|] eqn:E; [|by left].
    apply getArg_Some in E as (Hv & flag & i & Hf & Hi & Hl).
    rewrite bool_decide_eq_false_2 by done. right. exists i.
    apply indexOf_Some in Hi as [Hi _]. split; [|done].
    apply elem_of_cons in Hf as [->|Hf]; [by left|].
    apply list_elem_of_singleton in Hf as ->. by right.
Qed.
